(** * Chess-Twitter-Bot: the move codec, the session store and the turn
      protocol of [twitterbot.py], embedded and verified.

    Definitions:
    - [Py]    : the Python string operations the program calls
                ([str.lower], [in], [str.strip], [str.split], [str.join])
                and the three regular expressions it uses;
    - [Codec] : [pgn_list_to_string] and [split_to_240_char];
    - [Bot]   : the chess capability as an interface, the effect monad,
                the two files and the file object that [main] leaves
                open, [possible_moves], [push_pgn], [apply_player_move],
                [apply_bot_move] and [main];
    - [Laws]  : what is assumed of the chess library, the invariant of
                the store and the notions the theorems are stated with;
    - [Toy]   : a small scripted instance of the chess interface, used to
                run the model on concrete inputs.
    - [Chunks], [Loop], [Turn] : the notions of the second part: chunks
                as lists of words, the text of the cursor file and the
                loop around [main], the passes branch by branch.

    Theorems: [PyFacts] and [CodecFacts] (strings, serialising and
    chunking), [MoveFacts] (legal moves, the move of the player),
    [StoreFacts] (the search for a session), [EffectFacts] and
    [CursorFacts] (effects, the cursor), [RunFacts], [ResignFacts],
    [MateFacts], [RecordFacts] (one pass of the loop, branch by branch),
    [FileFacts], [InvariantFacts], [BridgeFacts] (the invariant of the
    store), [Runs] (the theorems and the scenarios on [Toy]); then
    [PieceFacts] (the functions one by one), [ChunkFacts], [SaveFacts]
    (the rewrite of the store), [TurnFacts] (one pass, scenario by
    scenario) and [LoopFacts] (the cursor file, the turns of the loop).

    Python strings are modelled by [string]; a character is a code point
    below 256. *)

From Stdlib Require Import String Ascii List ZArith Lia Bool Arith.
From Stdlib Require Import DecimalString HexadecimalString Sorted DecimalPos.
Import ListNotations.
Open Scope string_scope.

(* ===================================================================== *)
(** * Python strings *)
(* ===================================================================== *)

Module Py.

(** [str.isspace] on one code point below 256: TAB..CR, FS..US, space,
    NEL and NBSP. *)
Definition isspace (c : ascii) : bool :=
  let n := nat_of_ascii c in
  (((9 <=? n) && (n <=? 13)) || ((28 <=? n) && (n <=? 32))
   || (n =? 133) || (n =? 160))%nat.

(** [str.lower] on one code point below 256. *)
Definition lower_char (c : ascii) : ascii :=
  let n := nat_of_ascii c in
  if (((65 <=? n) && (n <=? 90))
      || ((192 <=? n) && (n <=? 222) && negb (n =? 215)))%nat
  then ascii_of_nat (n + 32) else c.

Fixpoint lower (s : string) : string :=
  match s with
  | EmptyString => EmptyString
  | String c s' => String (lower_char c) (lower s')
  end.

(** [sub in s]. *)
Fixpoint contains (sub s : string) : bool :=
  match s with
  | EmptyString => prefix sub EmptyString
  | String _ s' => prefix sub s || contains sub s'
  end.

Fixpoint lstrip (s : string) : string :=
  match s with
  | EmptyString => EmptyString
  | String c s' => if isspace c then lstrip s' else s
  end.

Fixpoint rstrip (s : string) : string :=
  match s with
  | EmptyString => EmptyString
  | String c s' =>
      match rstrip s' with
      | EmptyString => if isspace c then EmptyString else String c EmptyString
      | r => String c r
      end
  end.

(** [s.strip()]. *)
Definition strip (s : string) : string := rstrip (lstrip s).

(** [s.split()]: the maximal runs of non-whitespace characters. *)
Fixpoint split (s : string) : list string :=
  match s with
  | EmptyString => []
  | String c s' =>
      if isspace c then split s'
      else match s' with
           | EmptyString => [String c EmptyString]
           | String d _ =>
               if isspace d then String c EmptyString :: split s'
               else match split s' with
                    | w :: ws => String c w :: ws
                    | [] => [String c EmptyString]
                    end
           end
  end.

(** [s.split(sep)] for a non-empty [sep]: scan from the left, cut at every
    occurrence of [sep], keep empty pieces.  [skip] counts the characters
    of a separator still to be passed over, [cur] is the piece being
    read. *)
Fixpoint split_go (sep : string) (skip : nat) (cur s : string) : list string :=
  match s with
  | EmptyString => [cur]
  | String c s' =>
      match skip with
      | S k => split_go sep k cur s'
      | O =>
          if prefix sep s
          then cur :: split_go sep (String.length sep - 1) EmptyString s'
          else split_go sep 0 (cur ++ String c EmptyString) s'
      end
  end.

Definition split_on (sep s : string) : list string :=
  split_go sep 0 EmptyString s.

(** [sep.join(l)]. *)
Definition join (sep : string) (l : list string) : string := String.concat sep l.

(** [s[1:-1]]. *)
Fixpoint drop_last (s : string) : string :=
  match s with
  | EmptyString => EmptyString
  | String c s' =>
      match s' with
      | EmptyString => EmptyString
      | _ => String c (drop_last s')
      end
  end.

Definition slice_1_m1 (s : string) : string :=
  match s with
  | EmptyString => EmptyString
  | String _ s' => drop_last s'
  end.

Fixpoint drop (n : nat) (s : string) : string :=
  match n, s with
  | O, _ => s
  | S _, EmptyString => EmptyString
  | S k, String _ s' => drop k s'
  end.

(** The pattern [[^\)]*\)] anchored at the head of [s]: the characters up
    to and including the first closing parenthesis. *)
Fixpoint to_close (s : string) : option string :=
  match s with
  | EmptyString => None
  | String c s' =>
      if Ascii.eqb c ")" then Some (String c EmptyString)
      else option_map (String c) (to_close s')
  end.

(** [re.search(r'\([^\)]*\)', s)]: the leftmost match, [None] when the
    pattern does not occur. *)
Fixpoint search_parens (s : string) : option string :=
  match s with
  | EmptyString => None
  | String c s' =>
      if Ascii.eqb c "(" then
        match to_close s' with
        | Some m => Some (String c m)
        | None => search_parens s'
        end
      else search_parens s'
  end.

(** The group of the move pattern anchored at the head of [s]: the
    longest run of characters other than [#]. *)
Fixpoint to_hash (s : string) : string :=
  match s with
  | EmptyString => EmptyString
  | String c s' => if Ascii.eqb c "#" then EmptyString else String c (to_hash s')
  end.

(** [re.findall] of the move pattern (the word captures, one space, then
    the group above), as far as the program looks at it: [None] when the
    list is empty, else its element [0]. *)
Fixpoint findall_captures_0 (s : string) : option string :=
  match s with
  | EmptyString => None
  | String _ s' =>
      if prefix "captures " s then Some (to_hash (drop 9 s))
      else findall_captures_0 s'
  end.

(** Element [0] of [re.findall] for the pattern of non-whitespace runs:
    the run of non-whitespace at the head. *)
Fixpoint findall_nonspace_0 (s : string) : string :=
  match s with
  | EmptyString => EmptyString
  | String c s' => if isspace c then EmptyString else String c (findall_nonspace_0 s')
  end.

(** [str(n)] for an integer. *)
Definition str_int (n : Z) : string :=
  DecimalString.NilZero.string_of_int (Z.to_int n).

(** [hex(n)] for a natural number, as the format [#x] prints it. *)
Definition hex (n : N) : string :=
  "0x" ++ HexadecimalString.NilZero.string_of_uint (N.to_hex_uint n).

(** [x in l] for a list of strings. *)
Definition mem (x : string) (l : list string) : bool :=
  existsb (String.eqb x) l.

(** [a == b] for two lists of strings. *)
Fixpoint list_eqb (a b : list string) : bool :=
  match a, b with
  | [], [] => true
  | x :: a', y :: b' => String.eqb x y && list_eqb a' b'
  | _, _ => false
  end.

(** Iterating over a file opened in text mode: the lines of [s].  A
    line ends at a line feed, at a carriage return followed by a line
    feed, or at a carriage return alone; whichever it is, the line comes
    with one line feed at its end (the last line may lack it). *)
Fixpoint readlines (s : string) : list string :=
  match s with
  | EmptyString => []
  | String c s' =>
      if Ascii.eqb c "010" then String "010" EmptyString :: readlines s'
      else if Ascii.eqb c "013" then
        String "010" EmptyString
        :: match s' with
           | EmptyString => []
           | String d s'' =>
               if Ascii.eqb d "010" then readlines s'' else readlines s'
           end
      else match readlines s' with
           | l :: ls => String c l :: ls
           | [] => [String c EmptyString]
           end
  end.

End Py.

(* ===================================================================== *)
(** * Serialising and chunking a move history *)
(* ===================================================================== *)

Module Codec.

(** [pgn_list_to_string]: the moves joined by spaces, and one more space. *)
Definition pgn_list_to_string (pgn_list : list string) : string :=
  Py.join " " pgn_list ++ " ".

(** The loop of [split_to_240_char] over the words that remain:
    [fragment] is the piece being filled, [ret] the pieces done. *)
Fixpoint split_loop (string_list : list string) (fragment : string)
    (ret : list string) : list string :=
  match string_list with
  | [] => (ret ++ [fragment])%list
  | a :: rest =>
      if (String.length (fragment ++ a) <=? 240)%nat
      then split_loop rest (fragment ++ a ++ " ") ret
      else split_loop rest "" (ret ++ [fragment])%list
  end.

Definition split_to_240_char (s : string) : list string :=
  split_loop (Py.split s) "" [].

(** What a reader of the chunks does: take one trailing space off each
    chunk and put the chunks together with single spaces. *)
Definition strip_one_space (s : string) : string :=
  match get (String.length s - 1) s with
  | Some c => if Ascii.eqb c " " then Py.drop_last s else s
  | None => s
  end.

Definition rejoin (chunks : list string) : string :=
  Py.join " " (map strip_one_space chunks).

(** Two games in which the knights go out and back, as [games.txt]
    holds them: 64 moves of three letters, and three pawn moves followed
    by 58 knight moves. *)
Definition knights_out_and_back (n : nat) : list string :=
  concat (repeat ["Nf3"; "Nf6"; "Ng1"; "Ng8"] n).

Definition long_game : string :=
  Py.join " " (knights_out_and_back 16).

Definition long_game_after_pawns : string :=
  Py.join " "
    (["e4"; "e5"; "d4"]
     ++ concat (repeat ["Nf6"; "Nf3"; "Ng8"; "Ng1"] 14) ++ ["Nf6"; "Nf3"])%list.

End Codec.

(* ===================================================================== *)
(** * The bot *)
(* ===================================================================== *)

Module Bot.

(** ** What the program gets from outside *)

(** A mention, with the three fields the program reads. *)
Record mention := {
  id : Z;
  screen_name : string;
  full_text : string
}.

(** The chess capability ([chess], [chess.engine] and the engine process
    behind it), as far as the program uses it. *)
Class ChessLib := {
  Board : Type;
  (** [chess.Board()] *)
  new_board : Board;
  (** [board.push_san(move)]; [None] when it raises *)
  push_san : Board -> string -> option Board;
  (** [board.san(move)] for every [move] of [board.legal_moves], in the
      order of the generator *)
  legal_sans : Board -> list string;
  (** the address that the generator object prints in its [repr] *)
  generator_id : Board -> N;
  (** [board.is_checkmate()] *)
  is_checkmate : Board -> bool;
  (** [board.fen()] *)
  fen : Board -> string;
  (** whether [chess.engine.SimpleEngine.popen_uci(path)] returns an
      engine; [false] when it raises, no program being at the path *)
  engine_starts : bool;
  (** what the pattern for [move=] finds in the printed result of
      [engine.play(board, limit)], for an engine that was started;
      [None] when the call raises *)
  engine_play : Board -> option string;
  (** [board.san(chess.Move.from_uci(text))]; [None] when it raises *)
  san_of_uci : Board -> string -> option string
}.

(** ** Exceptions and effects *)

Inductive exn :=
| IndexError
| ValueError
| AttributeError
| OSError
| EngineError
| UnboundLocalError.

Inductive res (A : Type) :=
| Ret (a : A)
| Exc (e : exn).
Arguments Ret {A} a.
Arguments Exc {A} e.

Definition rbind {A B : Type} (r : res A) (f : A -> res B) : res B :=
  match r with
  | Ret a => f a
  | Exc e => Exc e
  end.

(** What the process does to the outside, one constructor per call; a
    call that raises is recorded as well. *)
Inductive event :=
| WriteLastSeen (last_seen_id : Z)
| OpenGamesForWrite
| WriteGames (text : string)
| UpdateStatus (status : string) (in_reply_to : Z)
| UpdateWithMedia (filename status : string) (in_reply_to : Z)
| SendEmail (subject message : string)
| HttpGet (url filename : string)
| OsRemove (filename : string)
| EnginePopen
| EnginePlay (position : string)
| Sleep (seconds : Z).

(** The two files, the file object that [main] keeps in its variable
    [f], and the effects so far, oldest first.

    The cursor file holds the decimal text of one integer and is
    modelled by that integer; [store_last_seen_id] closes it, so that a
    write is in the file when the call returns.

    [games.txt] is opened for writing at the end of every pass and never
    closed.  Opening it empties the file at once.  What is written then
    stays with the file object ([f_buffer], [None] as long as [f] is not
    bound) and goes to the file, from its first character on, when the
    object is released: when [f] is bound to the object of the next
    pass, which has emptied the file just before, or when the call of
    [main] ends.  This is the behaviour for texts that fit the buffers
    of the file object, several thousand characters; longer texts are
    not modelled.  The file is taken to hold one byte for each
    character, the newline included. *)
Record world := {
  last_seen_id_txt : Z;
  games_txt : string;
  f_buffer : option string;
  effects : list event
}.

(** Writing [text] from the first character of a file that holds [old]:
    the characters of [old] beyond the length of [text] stay. *)
Definition overwrite (text old : string) : string :=
  text ++ Py.drop (String.length text) old.

(** The file [old] once the file object is released. *)
Definition flushed (buffer : option string) (old : string) : string :=
  match buffer with
  | Some text => overwrite text old
  | None => old
  end.

Definition apply_event (e : event) (w : world) : world :=
  {| last_seen_id_txt :=
       match e with
       | WriteLastSeen i => i
       | _ => last_seen_id_txt w
       end;
     games_txt :=
       match e with
       | OpenGamesForWrite => flushed (f_buffer w) ""
       | _ => games_txt w
       end;
     f_buffer :=
       match e with
       | OpenGamesForWrite => Some ""
       | WriteGames text => option_map (fun held => held ++ text) (f_buffer w)
       | _ => f_buffer w
       end;
     effects := (effects w ++ [e])%list |}.

(** The end of a call of [main], by [return] or by an exception that the
    caller drops: the variables of the call go, and with them the file
    object of [f], whose text is written. *)
Definition release (w : world) : world :=
  {| last_seen_id_txt := last_seen_id_txt w;
     games_txt := flushed (f_buffer w) (games_txt w);
     f_buffer := None;
     effects := effects w |}.

(** A computation changes the world and returns or raises; the world it
    leaves behind is kept in both cases. *)
Definition M (A : Type) : Type := world -> res A * world.

Definition ret {A : Type} (a : A) : M A := fun w => (Ret a, w).
Definition raise {A : Type} (e : exn) : M A := fun w => (Exc e, w).
Definition bind {A B : Type} (c : M A) (f : A -> M B) : M B :=
  fun w =>
    match c w with
    | (Ret a, w') => f a w'
    | (Exc e, w') => (Exc e, w')
    end.
Definition lift {A : Type} (r : res A) : M A := fun w => (r, w).
Definition perform (e : event) : M unit := fun w => (Ret tt, apply_event e w).
Definition read_games : M string := fun w => (Ret (games_txt w), w).
Definition read_last_seen : M Z := fun w => (Ret (last_seen_id_txt w), w).

Declare Scope bot_scope.
Delimit Scope bot_scope with bot.
Notation "x <- c ;; k" := (bind c (fun x => k))
  (at level 61, c at next level, right associativity) : bot_scope.
Notation "' p <- c ;; k" := (bind c (fun p => k))
  (at level 61, p pattern, c at next level, right associativity) : bot_scope.
Notation "c ;;; k" := (bind c (fun _ => k))
  (at level 61, right associativity) : bot_scope.
Notation "x <~ r ;; k" := (rbind r (fun x => k))
  (at level 61, r at next level, right associativity) : bot_scope.
Notation "' p <~ r ;; k" := (rbind r (fun p => k))
  (at level 61, p pattern, r at next level, right associativity) : bot_scope.
Open Scope bot_scope.

(** [for a in l: f(a)] *)
Fixpoint for_each {A : Type} (l : list A) (f : A -> M unit) : M unit :=
  match l with
  | [] => ret tt
  | a :: rest => f a ;;; for_each rest f
  end.

(** ** Lists as Python has them *)

Definition game := list string.

(** The position that index [i] denotes in a list of length [n]. *)
Definition py_pos (n : nat) (i : Z) : res nat :=
  let j := (if i <? 0 then i + Z.of_nat n else i)%Z in
  if ((0 <=? j) && (j <? Z.of_nat n))%Z then Ret (Z.to_nat j)
  else Exc IndexError.

(** [l[i]] *)
Definition item {A : Type} (l : list A) (i : nat) : res A :=
  match nth_error l i with
  | Some x => Ret x
  | None => Exc IndexError
  end.

(** [g[1] = s] *)
Definition set_item1 (g : game) (s : string) : res game :=
  match g with
  | a :: _ :: rest => Ret (a :: s :: rest)
  | _ => Exc IndexError
  end.

Fixpoint set_nth {A : Type} (i : nat) (x : A) (l : list A) : list A :=
  match l, i with
  | [], _ => []
  | _ :: rest, O => x :: rest
  | a :: rest, S k => a :: set_nth k x rest
  end.

Fixpoint remove_at {A : Type} (j : nat) (l : list A) : list A :=
  match l, j with
  | [], _ => []
  | _ :: rest, O => rest
  | a :: rest, S k => a :: remove_at k rest
  end.

(** The first position of [l] that holds a list equal to [v]. *)
Fixpoint index_of (v : game) (l : list game) : option nat :=
  match l with
  | [] => None
  | g :: rest =>
      if Py.list_eqb g v then Some O
      else option_map S (index_of v rest)
  end.

(** The variable [curr_game]: not assigned yet, the object at a position
    of [list_of_games], or an object that is in the list no more. *)
Inductive cur :=
| Unbound
| At (i : nat)
| Off (g : game).

(** The object [curr_game] refers to. *)
Definition deref (games : list game) (c : cur) : res game :=
  match c with
  | Unbound => Exc UnboundLocalError
  | At i => item games i
  | Off g => Ret g
  end.

(** [curr_game[1] = s]: the object changes where it is. *)
Definition assign1 (games : list game) (c : cur) (s : string)
  : res (list game * cur) :=
  match c with
  | Unbound => Exc UnboundLocalError
  | At i =>
      g <~ item games i ;;
      g' <~ set_item1 g s ;;
      Ret (set_nth i g' games, At i)
  | Off g =>
      g' <~ set_item1 g s ;;
      Ret (games, Off g')
  end.

(** [list_of_games.remove(curr_game)]: the first element equal to the
    object goes; the object itself stays in the list when an equal one
    stood before it. *)
Definition remove (games : list game) (c : cur) : res (list game * cur) :=
  v <~ deref games c ;;
  match index_of v games with
  | None => Exc ValueError
  | Some j =>
      Ret (remove_at j games,
           match c with
           | At i =>
               if (i =? j)%nat then Off v
               else if (j <? i)%nat then At (i - 1)
               else At i
           | other => other
           end)
  end.

(** ** The functions of the program *)

Definition nl : string := String "010" EmptyString.

Section Program.
Context {lib : ChessLib}.

(** [store_last_seen_id] *)
Definition store_last_seen_id (last_seen_id : Z) : M unit :=
  perform (WriteLastSeen last_seen_id).

(** [str(board.legal_moves)] *)
Definition legal_moves_str (board : Board) : string :=
  "<LegalMoveGenerator at " ++ Py.hex (generator_id board) ++ " ("
  ++ Py.join ", " (legal_sans board) ++ ")>".

(** [possible_moves] *)
Definition possible_moves (board : Board) : res (list string) :=
  match Py.search_parens (legal_moves_str board) with
  | None => Exc AttributeError
  | Some string => Ret (Py.split_on ", " (Py.slice_1_m1 string))
  end.

(** The loop of [push_pgn]. *)
Fixpoint push_moves (board : Board) (pgn : list string) : res Board :=
  match pgn with
  | [] => Ret board
  | move :: rest =>
      match push_san board move with
      | Some board' => push_moves board' rest
      | None => Exc ValueError
      end
  end.

(** [push_pgn] *)
Definition push_pgn (pgn : list string) : res Board :=
  push_moves new_board pgn.

(** [apply_player_move]: the value returned and the list [game_history]
    as the call leaves it. *)
Definition apply_player_move (game_history : list string)
    (attempted_move : string) : res (bool * list string) :=
  board <~ push_pgn game_history ;;
  pos_moves <~ possible_moves board ;;
  if negb (Py.mem attempted_move pos_moves)
  then Ret (false, game_history)
  else Ret (true, (game_history ++ [attempted_move])%list).

(** [apply_bot_move]: the move returned and the list [game_history] as
    the call leaves it. *)
Definition apply_bot_move (game_history : list string)
  : M (string * list string) :=
  perform EnginePopen ;;;
  (if engine_starts then ret tt else raise OSError) ;;;
  board <- lift (push_pgn game_history) ;;
  perform (EnginePlay (fen board)) ;;;
  match engine_play board with
  | None => raise EngineError
  | Some uci =>
      match san_of_uci board uci with
      | None => raise ValueError
      | Some my_move => ret (my_move, (game_history ++ [my_move])%list)
      end
  end.

(** [create_board_image] *)
Definition create_board_image (board : Board) : M string :=
  let url := "http://www.fen-to-image.com/image/"
             ++ Py.findall_nonspace_0 (fen board) in
  perform (HttpGet url "board.jpg") ;;;
  ret "board.jpg".

(** ** One pass of the loop of [main] *)

(** The variables of the loop body that outlive a branch. *)
Record locals := {
  make_a_move : bool;
  game_over : bool;
  list_of_games : list game;
  curr_game : cur
}.

Definition update_status (m : mention) (text : string) : M unit :=
  perform (UpdateStatus ("@" ++ screen_name m ++ text) (id m)).

Definition update_with_media (m : mention) (filename text : string) : M unit :=
  perform (UpdateWithMedia filename ("@" ++ screen_name m ++ text) (id m)).

(** Reading [games.txt] into [list_of_games]. *)
Definition parse_games (text : string) : list game :=
  map (fun game => Py.split_on "," (Py.strip game)) (Py.readlines text).

(** The search for the game of the user: [game] is the loop index,
    [game_index] the value found so far. *)
Fixpoint find_game_from (name : string) (games : list game)
    (game game_index : Z) : res Z :=
  match games with
  | [] => Ret game_index
  | g :: rest =>
      user <~ item g 0 ;;
      find_game_from name rest (game + 1)
        (if String.eqb (Py.lower name) (Py.lower user) then game
         else game_index)
  end.

Definition find_game (name : string) (games : list game) : res Z :=
  find_game_from name games 0 (-1).

(** The chain of tests on the hashtags. *)
Definition hashtags (m : mention) (games : list game) (game_index : Z)
  : M locals :=
  let tweet_text := full_text m in
  let idle := {| make_a_move := false; game_over := false;
                 list_of_games := games; curr_game := Unbound |} in
  if Py.contains "#resign" (Py.lower tweet_text) then
    l <- (if negb (game_index =? -1)%Z then
            i <- lift (py_pos (length games) game_index) ;;
            ' (games', c) <- lift (remove games (At i)) ;;
            ret {| make_a_move := false; game_over := true;
                   list_of_games := games'; curr_game := c |}
          else ret idle) ;;
    update_status m " You made me work hard for that. Good game!" ;;;
    ret l
  else if Py.contains "#error" (Py.lower tweet_text) then
    let message :=
      "A user reported an error using #error in their tweet. Here are the tweet contents: "
      ++ nl ++ "Mention ID: " ++ Py.str_int (id m)
      ++ nl ++ "Username: " ++ screen_name m
      ++ nl ++ "Text: " ++ full_text m in
    perform (SendEmail "An Error Was Reported" message) ;;;
    ret idle
  else if Py.contains "#possiblemoves" (Py.lower tweet_text) then
    board <- (if negb (game_index =? -1)%Z then
                i <- lift (py_pos (length games) game_index) ;;
                g <- lift (item games i) ;;
                history <- lift (item g 1) ;;
                lift (push_pgn (Py.split history))
              else ret new_board) ;;
    pos_moves <- lift (possible_moves board) ;;
    filename <- create_board_image board ;;
    update_with_media m filename
      (" Here are all of the valid moves in this position: "
       ++ Codec.pgn_list_to_string pos_moves) ;;;
    ret idle
  else if Py.contains "#getpgn" (Py.lower tweet_text) then
    (if negb (game_index =? -1)%Z then
       i <- lift (py_pos (length games) game_index) ;;
       g <- lift (item games i) ;;
       message <- lift (item g 1) ;;
       for_each (Codec.split_to_240_char message)
         (fun a => update_status m (" " ++ a))
     else update_status m " No game found.") ;;;
    ret idle
  else if (game_index =? -1)%Z
          && negb (Py.contains "#startgame" (Py.lower tweet_text)) then
    update_status m " Include #startgame if you would like to start a game." ;;;
    ret idle
  else if Py.contains "#startgame" (Py.lower tweet_text) then
    if negb (game_index =? -1)%Z then
      i <- lift (py_pos (length games) game_index) ;;
      ' (games', c) <- lift (assign1 games (At i) "") ;;
      ret {| make_a_move := true; game_over := false;
             list_of_games := games'; curr_game := c |}
    else
      ret {| make_a_move := true; game_over := false;
             list_of_games := (games ++ [[screen_name m; ""]])%list;
             curr_game := At (length games) |}
  else
    i <- lift (py_pos (length games) game_index) ;;
    ret {| make_a_move := true; game_over := false;
           list_of_games := games; curr_game := At i |}.

(** [move_tried], as the pattern and [strip] give it. *)
Definition move_tried_of (tweet_text : string) : string :=
  match Py.findall_captures_0 tweet_text with
  | Some found => Py.strip found
  | None => ""
  end.

(** [game_over = True; list_of_games.remove(curr_game)] *)
Definition end_game (l : locals) : res locals :=
  ' (games', c) <~ remove (list_of_games l) (curr_game l) ;;
  Ret {| make_a_move := make_a_move l; game_over := true;
         list_of_games := games'; curr_game := c |}.

(** What follows a move of the player that went through: the end of the
    game when it mates, else the reply of the engine.  Returns the
    variables, [move_history] and [filename]. *)
Definition after_player_move (m : mention) (l : locals)
    (move_history : list string) : M (locals * list string * string) :=
  board <- lift (push_pgn move_history) ;;
  if is_checkmate board then
    l <- lift (end_game l) ;;
    filename <- create_board_image board ;;
    update_with_media m filename " You mated me! Congratulations!" ;;;
    ret (l, move_history, filename)
  else
    ' (bot_move, move_history) <- apply_bot_move move_history ;;
    board <- lift (push_pgn move_history) ;;
    filename <- create_board_image board ;;
    if is_checkmate board then
      l <- lift (end_game l) ;;
      update_with_media m filename (" " ++ bot_move ++ "Checkmate!") ;;;
      ret (l, move_history, filename)
    else
      update_with_media m filename (" " ++ bot_move) ;;;
      ret (l, move_history, filename).

(** The three cases of the move block: a move was found in the text, the
    user starts as Black, or there is nothing to do. *)
Definition move_or_not (m : mention) (l : locals)
    (move_history : list string) (move_tried : string)
  : M (locals * list string * string) :=
  if (0 <? String.length move_tried)%nat then
    ' (ok, move_history) <- lift (apply_player_move move_history move_tried) ;;
    if ok then after_player_move m l move_history
    else
      board <- lift (push_pgn move_history) ;;
      filename <- create_board_image board ;;
      update_with_media m filename
        " That move is invalid. If you would to see a list of valid moves, use the #possiblemoves" ;;;
      ret (l, move_history, filename)
  else if Py.contains "#startgame" (Py.lower (full_text m)) then
    ' (bot_move, move_history) <- apply_bot_move move_history ;;
    board <- lift (push_pgn move_history) ;;
    filename <- create_board_image board ;;
    update_with_media m filename (" " ++ bot_move) ;;;
    ret (l, move_history, filename)
  else
    board <- lift (push_pgn move_history) ;;
    filename <- create_board_image board ;;
    update_with_media m filename " You need to make a move." ;;;
    ret (l, move_history, filename).

(** The exchange of moves: from the extraction of the move to the
    removal of the image file.  Returns the variables and
    [move_history]. *)
Definition exchange (m : mention) (l : locals) : M (locals * list string) :=
  let move_tried := move_tried_of (full_text m) in
  g <- lift (deref (list_of_games l) (curr_game l)) ;;
  history <- lift (item g 1) ;;
  let move_history := Py.split history in
  ' (l, move_history, filename) <- move_or_not m l move_history move_tried ;;
  perform (OsRemove filename) ;;;
  ret (l, move_history).

(** The last statement of the move block: a game without moves leaves
    the list, any other gets the new history. *)
Definition record_history (l : locals) (move_history : list string)
  : res locals :=
  ' (games', c) <~
    (if (length move_history =? 0)%nat
     then remove (list_of_games l) (curr_game l)
     else assign1 (list_of_games l) (curr_game l)
            (Codec.pgn_list_to_string move_history)) ;;
  Ret {| make_a_move := make_a_move l; game_over := game_over l;
         list_of_games := games'; curr_game := c |}.

(** [if make_a_move: ...] *)
Definition move_block (m : mention) (l : locals) : M locals :=
  if make_a_move l then
    ' (l, move_history) <- exchange m l ;;
    lift (record_history l move_history)
  else ret l.

(** [if game_over: ...] *)
Definition game_over_block (m : mention) (l : locals) : M unit :=
  if game_over l then
    g <- lift (deref (list_of_games l) (curr_game l)) ;;
    history <- lift (item g 1) ;;
    let pgn := Codec.split_to_240_char history in
    update_status m
      " Use this link and the following pgn to create a gif of your game! https://www.chess.com/gifs" ;;;
    perform (Sleep 5) ;;;
    for_each pgn (fun a => update_status m (" " ++ a))
  else ret tt.

(** Writing [list_of_games] back to [games.txt]. *)
Definition write_games (games : list game) : M unit :=
  perform OpenGamesForWrite ;;;
  for_each games (fun game =>
    user <- lift (item game 0) ;;
    history <- lift (item game 1) ;;
    perform (WriteGames (user ++ "," ++ history ++ nl))).

(** What follows the chain of tests: the move block, the posts at the
    end of a game and the rewrite of [games.txt]. *)
Definition finish (m : mention) (l : locals) : M locals :=
  l <- move_block m l ;;
  game_over_block m l ;;;
  write_games (list_of_games l) ;;;
  ret l.

(** What follows the cursor update for one mention; the value is the
    variables as the pass leaves them. *)
Definition handle (m : mention) : M locals :=
  text <- read_games ;;
  let games := parse_games text in
  game_index <- lift (find_game (screen_name m) games) ;;
  l <- hashtags m games game_index ;;
  finish m l.

(** The body of [for mention in reversed(mentions)]. *)
Definition body (m : mention) : M unit :=
  store_last_seen_id (id m) ;;;
  handle m ;;;
  ret tt.

(** The statements of [main]; [mentions_timeline] gives the answer of
    the platform to [api.mentions_timeline(last_seen_id, ...)], newest
    mention first. *)
Definition main_statements (mentions_timeline : Z -> list mention) : M unit :=
  last_seen_id <- read_last_seen ;;
  for_each (rev (mentions_timeline last_seen_id)) body.

(** One call of [main], from its first statement to the release of its
    variables. *)
Definition main (mentions_timeline : Z -> list mention) : M unit :=
  fun w =>
    (fst (main_statements mentions_timeline w),
     release (snd (main_statements mentions_timeline w))).

End Program.

End Bot.

(* ===================================================================== *)
(** * What is assumed of the chess capability and of the store *)
(* ===================================================================== *)

Module Laws.
Import Bot.

Fixpoint all_chars (p : ascii -> bool) (s : string) : bool :=
  match s with
  | EmptyString => true
  | String c s' => p c && all_chars p s'
  end.

(** A character of a move in standard algebraic notation: no white
    space, no comma, no closing parenthesis. *)
Definition san_char (c : ascii) : bool :=
  negb (Py.isspace c) && negb (Ascii.eqb c ",") && negb (Ascii.eqb c ")").

Definition san_ok (s : string) : bool :=
  negb (String.eqb s "") && all_chars san_char s.

(** A token of a stored history: not empty, no white space. *)
Definition token_ok (s : string) : bool :=
  negb (String.eqb s "") && all_chars (fun c => negb (Py.isspace c)) s.

(** The chess library is taken to be correct: the moves it lists are
    written in algebraic notation, and the engine answers with one of
    them. *)
Record ChessLaws (lib : ChessLib) : Prop := {
  san_shape : forall b s, In s (legal_sans b) -> san_ok s = true;
  engine_legal : forall b uci s,
    engine_play b = Some uci -> san_of_uci b uci = Some s ->
    In s (legal_sans b)
}.

(** [replay] does not fail on [history]. *)
Definition replays {lib : ChessLib} (history : list string) : Prop :=
  exists board, push_pgn history = Ret board.

(** A session whose stored history replays.  A line without a comma
    holds no history. *)
Definition session_ok {lib : ChessLib} (g : game) : Prop :=
  forall history, nth_error g 1 = Some history -> replays (Py.split history).

(** The invariant of the store. *)
Definition store_ok {lib : ChessLib} (games : list game) : Prop :=
  Forall session_ok games.

(** Every line of the store has its comma. *)
Definition two_fields (g : game) : bool := (2 <=? length g)%nat.

(** No two sessions for one user. *)
Definition user_of (g : game) : string := Py.lower (hd "" g).

Definition one_game_per_user (games : list game) : Prop :=
  NoDup (map user_of games).

(** The shape of a store: a comma on every line, one game per user. *)
Definition store_shape (games : list game) : Prop :=
  Forall (fun g => two_fields g = true) games /\ one_game_per_user games.

(** The last position of [games] whose user is [name], upper and lower
    case taken as equal. *)
Definition last_match (name : string) (games : list game) (i : nat) : Prop :=
  (exists g, nth_error games i = Some g /\ g <> [] /\
             Py.lower name = user_of g) /\
  forall j g, (i < j)%nat -> nth_error games j = Some g ->
              Py.lower name <> user_of g.

Definition no_match (name : string) (games : list game) : Prop :=
  forall j g, nth_error games j = Some g -> Py.lower name <> user_of g.

(** The world after a list of effects. *)
Definition emit_all (es : list event) (w : world) : world :=
  fold_left (fun w e => apply_event e w) es w.

(** The identifiers written to the cursor file, in the order of the
    writes. *)
Fixpoint cursor_writes (es : list event) : list Z :=
  match es with
  | [] => []
  | WriteLastSeen i :: rest => i :: cursor_writes rest
  | _ :: rest => cursor_writes rest
  end.

(** The effects of a cycle, mention by mention: the cursor write of each
    mention and what its handling did. *)
Definition blocks_effects (blocks : list (mention * list event))
  : list event :=
  flat_map (fun b => WriteLastSeen (id (fst b)) :: snd b) blocks.

(** A computation that leaves the cursor file alone. *)
Definition quiet {A : Type} (c : M A) : Prop :=
  forall w, exists es,
    effects (snd (c w)) = (effects w ++ es)%list
    /\ cursor_writes es = []
    /\ last_seen_id_txt (snd (c w)) = last_seen_id_txt w.

(** Every effect of [c] satisfies [P]. *)
Definition emits (P : event -> bool) {A : Type} (c : M A) : Prop :=
  forall w, exists es,
    snd (c w) = emit_all es w /\ forallb P es = true.

Definition is_cursor_write (e : event) : bool :=
  match e with
  | WriteLastSeen _ => true
  | _ => false
  end.

(** The calls to the engine. *)
Definition is_engine_call (e : event) : bool :=
  match e with
  | EnginePopen | EnginePlay _ => true
  | _ => false
  end.

(** What [write_games] writes for one game and for a list of games. *)
Definition line_of (g : game) : string :=
  nth 0 g "" ++ "," ++ nth 1 g "" ++ nl.

Fixpoint text_of (games : list game) : string :=
  match games with
  | [] => ""
  | g :: rest => line_of g ++ text_of rest
  end.

Definition save_effects (games : list game) : list event :=
  OpenGamesForWrite :: map (fun g => WriteGames (line_of g)) games.

(** The posts at the end of a game. *)
Definition game_over_posts (m : mention) (history : string) : list event :=
  UpdateStatus
    ("@" ++ screen_name m
     ++ " Use this link and the following pgn to create a gif of your game! https://www.chess.com/gifs")
    (id m)
  :: Sleep 5
  :: map (fun a => UpdateStatus ("@" ++ screen_name m ++ " " ++ a) (id m))
       (Codec.split_to_240_char history).

(** The reply to a resignation. *)
Definition good_game (m : mention) : event :=
  UpdateStatus
    ("@" ++ screen_name m ++ " You made me work hard for that. Good game!")
    (id m).

(** The address of the image of a position. *)
Definition image_url {lib : ChessLib} (b : Board) : string :=
  "http://www.fen-to-image.com/image/" ++ Py.findall_nonspace_0 (fen b).

(** The game [g] with [s] for its history. *)
Definition with_history (g : game) (s : string) : game :=
  match g with
  | a :: _ :: rest => a :: s :: rest
  | _ => g
  end.

(** [c], run in [w], returns a value and a world that satisfy [Q], or
    raises in a world that satisfies [E]. *)
Definition ensures {A : Type} (c : M A) (w : world)
    (Q : A -> world -> Prop) (E : world -> Prop) : Prop :=
  match c w with
  | (Ret a, w') => Q a w'
  | (Exc _, w') => E w'
  end.

Definition is_games_write (e : event) : bool :=
  match e with
  | OpenGamesForWrite | WriteGames _ => true
  | _ => false
  end.

Definition no_cursor_write (e : event) : bool := negb (is_cursor_write e).

(** Neither file is written. *)
Definition no_file_write (e : event) : bool :=
  negb (is_cursor_write e) && negb (is_games_write e).

Definition not_open (c : ascii) : bool := negb (Ascii.eqb c "(").
Definition not_newline (c : ascii) : bool :=
  negb (Ascii.eqb c "010") && negb (Ascii.eqb c "013").
Definition not_hash (c : ascii) : bool := negb (Ascii.eqb c "#").
Definition not_close (c : ascii) : bool := negb (Ascii.eqb c ")").
Definition not_comma (c : ascii) : bool := negb (Ascii.eqb c ",").


Definition is_space_string (s : string) : bool := all_chars Py.isspace s.

(** A field of a line of [games.txt]: no comma and no end of line
    (line feed or carriage return). *)
Definition field_char (c : ascii) : bool := not_comma c && not_newline c.
Definition field_ok (s : string) : bool := all_chars field_char s.

(** A game that can go to the file and come back: its history replays
    and its first two fields are fields. *)
Definition game_ok {lib : ChessLib} (g : game) : Prop :=
  session_ok g
  /\ (forall s, nth_error g 0 = Some s -> field_ok s = true)
  /\ (forall s, nth_error g 1 = Some s -> field_ok s = true).

Definition cur_ok {lib : ChessLib} (c : cur) : Prop :=
  match c with
  | Off g => game_ok g
  | _ => True
  end.

Definition locals_ok {lib : ChessLib} (l : locals) : Prop :=
  Forall game_ok (list_of_games l) /\ cur_ok (curr_game l).

(** A move history that can be written: it replays, and its tokens are
    tokens without comma. *)
Definition history_ok {lib : ChessLib} (h : list string) : Prop :=
  replays h
  /\ Forall (fun t => token_ok t = true /\ all_chars not_comma t = true) h.

(** A game with two fields at least, both of them fields. *)
Definition fields_ok (g : game) : Prop :=
  two_fields g = true
  /\ field_ok (nth 0 g "") = true /\ field_ok (nth 1 g "") = true.

(** What is read back for a game that was written. *)
Definition read_back (g : game) : game :=
  [Py.lstrip (nth 0 g ""); Py.rstrip (nth 1 g "")].

(** A text that the rewrite of [games.txt] produces from games that
    keep the invariant: one line for each game, made of its first two
    fields. *)
Definition written {lib : ChessLib} (text : string) : Prop :=
  exists games,
    Forall game_ok games
    /\ Forall (fun g => two_fields g = true) games
    /\ text = text_of games.

(** The invariant of the store, for the file and the file object
    together.  As long as no pass of the call of [main] has opened the
    file, its histories replay; from then on both the file and the text
    that the file object holds are texts written by the bot. *)
Definition world_ok {lib : ChessLib} (w : world) : Prop :=
  match f_buffer w with
  | None => store_ok (parse_games (games_txt w))
  | Some text => written text /\ written (games_txt w)
  end.

(** The library writes a move that mates with the mark [#] at its end,
    as [board.san] of python-chess does. *)
Definition mate_marked (lib : ChessLib) : Prop :=
  forall b s b',
    In s (legal_sans b) -> push_san b s = Some b' ->
    is_checkmate b' = true -> exists body, s = body ++ "#".

End Laws.

(* ===================================================================== *)
(** * A scripted chess library *)
(* ===================================================================== *)

(** Three short games, position by position.  A position is the list of
    the moves that led to it, as the library prints them: with [+] at
    the end of a move that gives check and [#] at the end of a move that
    mates, as python-chess does. *)
Module Toy.
Import Bot.

Record entry := {
  position : list string;
  sans : list string;           (* the legal moves, as the library prints them *)
  mate : bool;
  reply : option (string * string) (* the move of the engine: UCI text, SAN *)
}.

Definition book : list entry :=
  [ {| position := [];
       sans := ["e4"; "d4"; "f3"; "Nf3"];
       mate := false; reply := Some ("e2e4", "e4") |};
    {| position := ["e4"];
       sans := ["e5"; "c5"];
       mate := false; reply := Some ("e7e5", "e5") |};
    {| position := ["e4"; "e5"];
       sans := ["Bc4"; "Nf3"];
       mate := false; reply := Some ("g1f3", "Nf3") |};
    {| position := ["e4"; "e5"; "Bc4"];
       sans := ["Nc6"; "Nf6"];
       mate := false; reply := Some ("b8c6", "Nc6") |};
    {| position := ["e4"; "e5"; "Bc4"; "Nc6"];
       sans := ["Qh5"; "Nf3"];
       mate := false; reply := None |};
    {| position := ["e4"; "e5"; "Bc4"; "Nc6"; "Qh5"];
       sans := ["Nf6"; "g6"];
       mate := false; reply := Some ("g8f6", "Nf6") |};
    {| position := ["e4"; "e5"; "Bc4"; "Nc6"; "Qh5"; "Nf6"];
       sans := ["Qxf7#"; "Qxe5+"];
       mate := false; reply := None |};
    {| position := ["e4"; "e5"; "Bc4"; "Nc6"; "Qh5"; "Nf6"; "Qxf7#"];
       sans := [];
       mate := true; reply := None |};
    {| position := ["f3"];
       sans := ["e5"; "e6"];
       mate := false; reply := Some ("e7e5", "e5") |};
    {| position := ["f3"; "e5"];
       sans := ["g4"; "e4"];
       mate := false; reply := None |};
    {| position := ["f3"; "e5"; "g4"];
       sans := ["Qh4#"; "d5"];
       mate := false; reply := Some ("d8h4", "Qh4#") |};
    {| position := ["f3"; "e5"; "g4"; "Qh4#"];
       sans := [];
       mate := true; reply := None |} ].

Fixpoint lookup (p : list string) (es : list entry) : option entry :=
  match es with
  | [] => None
  | e :: rest => if Py.list_eqb (position e) p then Some e else lookup p rest
  end.

Definition toy_sans (p : list string) : list string :=
  match lookup p book with
  | Some e => sans e
  | None => []
  end.

(** A move without the mark at its end. *)
Fixpoint unmarked (s : string) : string :=
  match s with
  | EmptyString => EmptyString
  | String c s' =>
      match s' with
      | EmptyString =>
          if Ascii.eqb c "+" || Ascii.eqb c "#" then EmptyString
          else String c EmptyString
      | _ => String c (unmarked s')
      end
  end.

(** [push_san] reads a move with or without its mark; the position
    reached is named by the move as the library prints it. *)
Definition toy_push (p : list string) (move : string) : option (list string) :=
  match find (fun s => String.eqb (unmarked s) (unmarked move)) (toy_sans p) with
  | Some s => Some (p ++ [s])%list
  | None => None
  end.

Definition toy_mate (p : list string) : bool :=
  match lookup p book with
  | Some e => mate e
  | None => false
  end.

Definition toy_play (p : list string) : option string :=
  match lookup p book with
  | Some e => option_map fst (reply e)
  | None => None
  end.

Definition toy_san_of_uci (p : list string) (uci : string) : option string :=
  match lookup p book with
  | Some e =>
      match reply e with
      | Some (u, s) => if String.eqb u uci then Some s else None
      | None => None
      end
  | None => None
  end.

(** The board part is not drawn move by move: every position prints the
    starting array, followed by the number of moves played. *)
Definition toy_fen (p : list string) : string :=
  "rnbqkbnr/pppppppp/8/8/8/8/PPPPPPPP/RNBQKBNR w KQkq - 0 "
  ++ Py.str_int (Z.of_nat (length p)).

Definition lib : ChessLib := {|
  Board := list string;
  new_board := [];
  push_san := toy_push;
  legal_sans := toy_sans;
  generator_id := fun p => (2130706432 + N.of_nat (length p))%N;
  is_checkmate := toy_mate;
  fen := toy_fen;
  engine_starts := true;
  engine_play := toy_play;
  san_of_uci := toy_san_of_uci
|}.

(** The same library with no engine at the path. *)
Definition lib_without_engine : ChessLib := {|
  Board := list string;
  new_board := [];
  push_san := toy_push;
  legal_sans := toy_sans;
  generator_id := fun p => (2130706432 + N.of_nat (length p))%N;
  is_checkmate := toy_mate;
  fen := toy_fen;
  engine_starts := false;
  engine_play := toy_play;
  san_of_uci := toy_san_of_uci
|}.

(** What the laws ask of one entry. *)
Definition entry_ok (e : entry) : bool :=
  forallb Laws.san_ok (sans e)
  && match reply e with
     | Some (_, s) => Py.mem s (sans e)
     | None => true
     end.

(** The last character of [s] is [#]. *)
Fixpoint ends_with_hash (s : string) : bool :=
  match s with
  | EmptyString => false
  | String c s' =>
      match s' with
      | EmptyString => Ascii.eqb c "#"
      | _ => ends_with_hash s'
      end
  end.

(** In one entry, the moves that mate have their mark. *)
Definition entry_marked (e : entry) : bool :=
  forallb (fun s =>
             match toy_push (position e) s with
             | Some p => implb (toy_mate p) (ends_with_hash s)
             | None => true
             end) (sans e).

(** Worlds and mentions to run the bot on: the cursor at 100, no file
    object, no effect yet. *)
Definition world0 (games : string) : world :=
  {| last_seen_id_txt := 100; games_txt := games; f_buffer := None;
     effects := [] |}.

Definition tweet (i : Z) (name text : string) : mention :=
  {| id := i; screen_name := name; full_text := text |}.

(** A store with two games; in Bob's the player, with White, is one
    move from mate. *)
Definition two_games : list game :=
  [ ["alice"; "f3 e5"]; ["bob"; "e4 e5 Bc4 Nc6 Qh5 Nf6"] ].

Definition two_games_txt : string :=
  "alice,f3 e5 " ++ nl ++ "bob,e4 e5 Bc4 Nc6 Qh5 Nf6 " ++ nl.

(** Two mentions of one user, newest first, as the platform gives
    them: the start of a game as Black, then a first move. *)
Definition two_mentions (since : Z) : list mention :=
  [ tweet 103 "Bob" "@bot captures e5 #chess";
    tweet 102 "Bob" "@bot #startgame" ].

End Toy.

(* ===================================================================== *)
(** * The notions of the other theorems *)
(* ===================================================================== *)

Module Chunks.

(** A chunk as the loop of [split_to_240_char] fills it: the words it
    took, each one followed by a space. *)
Fixpoint spaced (words : list string) : string :=
  match words with
  | [] => ""
  | a :: rest => a ++ " " ++ spaced rest
  end.

(** [a] is [b] with some elements left out, the others in their order. *)
Inductive subseq {A : Type} : list A -> list A -> Prop :=
| subseq_nil : subseq [] []
| subseq_skip (x : A) (a b : list A) : subseq a b -> subseq a (x :: b)
| subseq_take (x : A) (a b : list A) : subseq a b -> subseq (x :: a) (x :: b).

End Chunks.

(* ===================================================================== *)
(** * The cursor file and the loop around [main] *)
(* ===================================================================== *)

Module Loop.
Import Bot.

(** The value of a decimal digit. *)
Definition digit_of (c : ascii) : option Z :=
  let n := nat_of_ascii c in
  if ((48 <=? n) && (n <=? 57))%nat then Some (Z.of_nat (n - 48)) else None.

(** The digits of a decimal literal, single underscores allowed between
    two digits: [acc] is the value read so far, [after_digit] tells
    whether the character before was a digit. *)
Fixpoint int_digits (s : string) (acc : Z) (after_digit : bool) : option Z :=
  match s with
  | EmptyString => if after_digit then Some acc else None
  | String c s' =>
      if Ascii.eqb c "_" then
        if after_digit then int_digits s' acc false else None
      else
        match digit_of c with
        | Some d => int_digits s' (10 * acc + d) true
        | None => None
        end
  end.

(** [int(s)] for a string: white space around the literal is dropped, a
    sign may come first, and anything else than a decimal literal raises
    [ValueError].  No limit is put on the number of digits. *)
Definition int_of_str (s : string) : res Z :=
  let literal (sign : Z) (digits : string) :=
    match int_digits digits 0 false with
    | Some n => Ret (sign * n)%Z
    | None => Exc ValueError
    end in
  match Py.strip s with
  | EmptyString => Exc ValueError
  | String c digits =>
      if Ascii.eqb c "-" then literal (-1)%Z digits
      else if Ascii.eqb c "+" then literal 1%Z digits
      else literal 1%Z (String c digits)
  end.

(** [retrieve_last_seen_id], from the text that the cursor file holds. *)
Definition retrieve_last_seen_id (file_text : string) : res Z :=
  int_of_str (Py.strip file_text).

(** What [store_last_seen_id] writes to the cursor file. *)
Definition stored_text (last_seen_id : Z) : string := Py.str_int last_seen_id.

Section Program.
Context {lib : ChessLib}.

(** One turn of the loop at the end of the program: [main()], whatever
    it raises being dropped, then the pause. *)
Definition cycle (mentions_timeline : Z -> list mention) : M unit :=
  fun w => perform (Sleep 120) (snd (main mentions_timeline w)).

(** The first turns of [while True]; [timelines] holds, turn by turn,
    what the platform answers. *)
Fixpoint cycles (timelines : list (Z -> list mention)) : M unit :=
  match timelines with
  | [] => ret tt
  | mentions_timeline :: rest => cycle mentions_timeline ;;; cycles rest
  end.

End Program.

(** What the program expects of the platform: the mentions it gives are
    newer than the cursor they were asked for, newest first. *)
Definition newer_than_cursor (mentions_timeline : Z -> list mention) : Prop :=
  forall since,
    StronglySorted Z.lt (since :: map id (rev (mentions_timeline since))).

(** A platform that keeps this promise: of the mentions it holds, newest
    first, it gives those whose identifier exceeds the cursor. *)
Definition platform (held : list mention) (since : Z) : list mention :=
  filter (fun m => (since <? id m)%Z) held.

Definition is_digit (c : ascii) : bool :=
  match digit_of c with Some _ => true | None => false end.

Definition not_space (c : ascii) : bool := negb (Py.isspace c).

End Loop.

(* ===================================================================== *)
(** * The passes, branch by branch *)
(* ===================================================================== *)

Module Turn.
Import Bot Laws.

(** The text of the mention, in lower case, holds the marker. *)
Definition tagged (tag : string) (m : mention) : bool :=
  Py.contains tag (Py.lower (full_text m)).

(** None of the four markers that are tested before [#startgame]. *)
Definition no_command (m : mention) : bool :=
  negb (tagged "#resign" m) && negb (tagged "#error" m)
  && negb (tagged "#possiblemoves" m) && negb (tagged "#getpgn" m).

(** The variables of a pass that plays no move and ends no game. *)
Definition idle (games : list game) : locals :=
  {| make_a_move := false; game_over := false;
     list_of_games := games; curr_game := Unbound |}.

(** The variables of a pass that plays on the game at position [i]. *)
Definition playing (games : list game) (i : nat) : locals :=
  {| make_a_move := true; game_over := false;
     list_of_games := games; curr_game := At i |}.

(** The variables of a pass that ended the game [g]. *)
Definition ended (games : list game) (g : game) : locals :=
  {| make_a_move := true; game_over := true;
     list_of_games := games; curr_game := Off g |}.

(** The mail that reports an error. *)
Definition error_report (m : mention) : event :=
  SendEmail "An Error Was Reported"
    ("A user reported an error using #error in their tweet. Here are the tweet contents: "
     ++ nl ++ "Mention ID: " ++ Py.str_int (id m)
     ++ nl ++ "Username: " ++ screen_name m
     ++ nl ++ "Text: " ++ full_text m).

(** A reply without image, the request for the image of a position, a
    reply with the image, and the two calls to the engine. *)
Definition status (m : mention) (text : string) : event :=
  UpdateStatus ("@" ++ screen_name m ++ text) (id m).

Definition image {lib : ChessLib} (b : Board) : event :=
  HttpGet (image_url b) "board.jpg".

Definition media (m : mention) (text : string) : event :=
  UpdateWithMedia "board.jpg" ("@" ++ screen_name m ++ text) (id m).

Definition engine_calls {lib : ChessLib} (b : Board) : list event :=
  [EnginePopen; EnginePlay (fen b)].

(** The text of the reply to a move that is not legal. *)
Definition invalid_reply : string :=
  " That move is invalid. If you would to see a list of valid moves, use the #possiblemoves".

(** The position of the game of the user: the one that the last line of
    the user replays to, the starting position when there is none. *)
Definition position_of {lib : ChessLib} (name : string) (games : list game)
    (b : Board) : Prop :=
  (no_match name games /\ b = new_board)
  \/ exists i g history,
       last_match name games i /\ nth_error games i = Some g
       /\ nth_error g 1 = Some history
       /\ push_pgn (Py.split history) = Ret b.

(** [last_match] and [no_match], decided. *)
Definition last_matchb (name : string) (games : list game) (i : nat) : bool :=
  match nth_error games i with
  | Some (user :: _) => String.eqb (Py.lower name) (Py.lower user)
  | _ => false
  end
  && forallb (fun g => negb (String.eqb (Py.lower name) (user_of g)))
       (skipn (S i) games).

Definition no_matchb (name : string) (games : list game) : bool :=
  forallb (fun g => negb (String.eqb (Py.lower name) (user_of g))) games.

(** The move [mv] is legal after [h], and gives the position [b1]. *)
Definition legal_move {lib : ChessLib} (h : list string) (mv : string)
    (b1 : Board) : Prop :=
  exists b0 moves,
    push_pgn h = Ret b0 /\ possible_moves b0 = Ret moves /\ In mv moves
    /\ push_pgn (h ++ [mv]) = Ret b1.

(** The move [mv] is not legal in the position [b0] that [h] gives. *)
Definition illegal_move {lib : ChessLib} (h : list string) (mv : string)
    (b0 : Board) : Prop :=
  push_pgn h = Ret b0
  /\ exists moves, possible_moves b0 = Ret moves /\ ~ In mv moves.

(** The engine starts, and in the position [b1] that [h] gives it
    answers with the move [s], which gives the position [b2]. *)
Definition engine_answers {lib : ChessLib} (h : list string) (b1 : Board)
    (s : string) (b2 : Board) : Prop :=
  engine_starts = true
  /\ push_pgn h = Ret b1
  /\ exists uci,
       engine_play b1 = Some uci /\ san_of_uci b1 uci = Some s
       /\ push_pgn (h ++ [s]) = Ret b2.

End Turn.

(* ===================================================================== *)
(** * Facts about the string operations *)
(* ===================================================================== *)

Module PyFacts.
Import Laws.

Example py_split_1 : Py.split "  e4 e5	Nf3 " = ["e4"; "e5"; "Nf3"].
Proof. reflexivity. Qed.
Example py_split_on_1 : Py.split_on ", " "a, bc, , d" = ["a"; "bc"; ""; "d"].
Proof. reflexivity. Qed.
Example py_split_on_2 : Py.split_on ", " "" = [""].
Proof. reflexivity. Qed.
Example py_split_on_3 : Py.split_on "," " bob,e4 e5 " = [" bob"; "e4 e5 "].
Proof. reflexivity. Qed.
Example py_strip_1 : Py.strip "  a b
" = "a b".
Proof. reflexivity. Qed.
Example py_search_1 : Py.search_parens "<G at 0x1f (Nh3, Nf3)>" = Some "(Nh3, Nf3)".
Proof. reflexivity. Qed.
Example py_captures_1 :
  Py.findall_captures_0 "@bot captures Nf3 #x captures e4" = Some "Nf3 ".
Proof. reflexivity. Qed.
Example py_lower_1 : Py.lower "#StartGame" = "#startgame".
Proof. reflexivity. Qed.
Example py_str_1 : Py.str_int (-120) = "-120" /\ Py.hex 255 = "0xff".
Proof. split; reflexivity. Qed.

Lemma app_nil_r (s : string) : s ++ "" = s.
Proof. induction s as [|c s IH]; simpl; [reflexivity | now rewrite IH]. Qed.

Lemma app_assoc (a b c : string) : (a ++ b) ++ c = a ++ (b ++ c).
Proof. induction a as [|x a IH]; simpl; [reflexivity | now rewrite IH]. Qed.

Lemma length_app (a b : string) :
  String.length (a ++ b) = (String.length a + String.length b)%nat.
Proof. induction a as [|x a IH]; simpl; [reflexivity | now rewrite IH]. Qed.

Lemma all_chars_app p (a b : string) :
  all_chars p (a ++ b) = all_chars p a && all_chars p b.
Proof.
  induction a as [|x a IH]; simpl; [reflexivity|].
  now rewrite IH, andb_assoc.
Qed.

Lemma all_chars_impl (p q : ascii -> bool) (s : string) :
  (forall c, p c = true -> q c = true) ->
  all_chars p s = true -> all_chars q s = true.
Proof.
  intros Hpq. induction s as [|c s IH]; simpl; [reflexivity|].
  intros H. apply andb_true_iff in H as [Hc Hs].
  apply andb_true_iff. split; auto.
Qed.

Lemma token_ok_cons (t : string) :
  token_ok t = true ->
  exists c t', t = String c t' /\ Py.isspace c = false
               /\ all_chars (fun c => negb (Py.isspace c)) t' = true.
Proof.
  unfold token_ok. destruct t as [|c t']; simpl; [discriminate|].
  intros H. apply andb_true_iff in H as [Hc Ht].
  exists c, t'. repeat split; trivial.
  now apply negb_true_iff in Hc.
Qed.

Lemma san_ok_token (s : string) : san_ok s = true -> token_ok s = true.
Proof.
  unfold san_ok, token_ok. intros H.
  apply andb_true_iff in H as [Hne Hall].
  apply andb_true_iff. split; [exact Hne|].
  revert Hall. apply all_chars_impl. intros c Hc. unfold san_char in Hc.
  apply andb_true_iff in Hc as [Hc _].
  now apply andb_true_iff in Hc as [Hc _].
Qed.

(** ** [split] *)

(** A run of non-whitespace followed by a whitespace character is the
    first word. *)
Lemma split_word (w : string) (sp : ascii) (rest : string) :
  all_chars (fun c => negb (Py.isspace c)) w = true ->
  Py.isspace sp = true ->
  forall c, Py.isspace c = false ->
  Py.split (String c (w ++ String sp rest)) = String c w :: Py.split rest.
Proof.
  intros Hw Hsp. induction w as [|d w IH]; intros c Hc.
  - simpl. now rewrite Hc, Hsp.
  - simpl in Hw. apply andb_true_iff in Hw as [Hd Hw].
    apply negb_true_iff in Hd.
    specialize (IH Hw d Hd).
    change (Py.split (String c (String d (w ++ String sp rest)))
            = String c (String d w) :: Py.split rest).
    cbn [Py.split]. rewrite Hc, Hd.
    cbn [Py.split] in IH. rewrite Hd in IH. rewrite IH. reflexivity.
Qed.

Lemma split_token (t : string) (sp : ascii) (rest : string) :
  token_ok t = true -> Py.isspace sp = true ->
  Py.split (t ++ String sp rest) = t :: Py.split rest.
Proof.
  intros Ht Hsp. destruct (token_ok_cons t Ht) as (c & t' & -> & Hc & Ht').
  simpl. now apply split_word.
Qed.

Lemma split_join_space (h : list string) :
  Forall (fun t => token_ok t = true) h ->
  Py.split (Py.join " " h ++ " ") = h.
Proof.
  induction 1 as [|t h Ht Hh IH]; [reflexivity|].
  destruct h as [|u h'].
  - simpl. rewrite (split_token t " " ""); auto.
  - replace (Py.join " " (t :: u :: h') ++ " ")
      with (t ++ String " " (Py.join " " (u :: h') ++ " "))
      by (change (Py.join " " (t :: u :: h'))
            with (t ++ " " ++ Py.join " " (u :: h'));
          now rewrite !app_assoc).
    rewrite split_token; auto. now rewrite IH.
Qed.

End PyFacts.

(* ===================================================================== *)
(** * The codec *)
(* ===================================================================== *)

Module CodecFacts.
Import Laws PyFacts.

(** C6. Reading back a written history gives the history: for every list
    [h] of tokens that are not empty and hold no white space, splitting
    [pgn_list_to_string h] on white space returns [h], token by token and
    in the same order. *)
Theorem deserialize_serialize (h : list string) :
  Forall (fun t => token_ok t = true) h ->
  Py.split (Codec.pgn_list_to_string h) = h.
Proof.
  intros Hh. unfold Codec.pgn_list_to_string. now apply split_join_space.
Qed.

Lemma deserialize_serialize_witness :
  Forall (fun t => token_ok t = true) ["e4"; "e5"; "Nf3"; "O-O"; "exd5"]
  /\ Py.split (Codec.pgn_list_to_string ["e4"; "e5"; "Nf3"; "O-O"; "exd5"])
     = ["e4"; "e5"; "Nf3"; "O-O"; "exd5"].
Proof.
  assert (H : Forall (fun t => token_ok t = true)
                ["e4"; "e5"; "Nf3"; "O-O"; "exd5"])
    by (repeat constructor).
  split; [exact H | exact (deserialize_serialize _ H)].
Defined.

(** C5. [split_to_240_char] loses the word at every cut, and a chunk
    can be 241 characters long.  On a game of 64 knight moves the first
    chunk holds 60 moves, the 61st move is in no chunk and the second
    chunk holds the last three, so that the chunks do not give the text
    back.  On a game of 61 moves that fills 240 characters the only chunk
    has 241 characters. *)
Theorem split_to_240_char_loses_the_word_at_the_cut :
  Codec.split_to_240_char Codec.long_game
    = [Py.join " " (Codec.knights_out_and_back 15) ++ " "; "Nf6 Ng1 Ng8 "]
  /\ length (Py.split (Codec.rejoin (Codec.split_to_240_char Codec.long_game)))
     = 63%nat
  /\ length (Py.split Codec.long_game) = 64%nat
  /\ Codec.rejoin (Codec.split_to_240_char Codec.long_game)
     <> Codec.long_game
  /\ String.length Codec.long_game_after_pawns = 240%nat
  /\ map String.length
       (Codec.split_to_240_char Codec.long_game_after_pawns)
     = [241%nat].
Proof.
  repeat split; try (vm_compute; reflexivity).
  intros H. apply (f_equal String.length) in H.
  vm_compute in H. discriminate H.
Qed.

End CodecFacts.

(* ===================================================================== *)
(** * The legal moves and the move of the player *)
(* ===================================================================== *)

Module MoveFacts.
Import Bot Laws PyFacts.

(** ** The two patterns at work on the printed generator *)

Lemma search_parens_skip (pre s : string) :
  all_chars not_open pre = true ->
  Py.search_parens (pre ++ s) = Py.search_parens s.
Proof.
  induction pre as [|c pre IH]; simpl; [reflexivity|].
  intros H. apply andb_true_iff in H as [Hc Hpre].
  unfold not_open in Hc. apply negb_true_iff in Hc. rewrite Hc. auto.
Qed.

Lemma to_close_found (body post : string) :
  all_chars not_close body = true ->
  Py.to_close (body ++ String ")" post) = Some (body ++ ")").
Proof.
  induction body as [|c body IH]; simpl; [reflexivity|].
  intros H. apply andb_true_iff in H as [Hc Hbody].
  unfold not_close in Hc. apply negb_true_iff in Hc. rewrite Hc.
  now rewrite IH.
Qed.

Lemma to_close_some (body post : string) :
  exists m, Py.to_close (body ++ String ")" post) = Some m.
Proof.
  induction body as [|c body [m IH]]; simpl; [eauto|].
  destruct (Ascii.eqb c ")"); [eauto|]. rewrite IH. simpl. eauto.
Qed.

Lemma search_parens_some (pre body post : string) :
  exists m, Py.search_parens (pre ++ String "(" (body ++ String ")" post)) = Some m.
Proof.
  induction pre as [|c pre [m IH]].
  - simpl. destruct (to_close_some body post) as [m ->]. eauto.
  - simpl. destruct (Ascii.eqb c "("); [|eauto].
    destruct (Py.to_close _); eauto.
Qed.

Lemma drop_last_snoc (s : string) (c : ascii) :
  Py.drop_last (s ++ String c "") = s.
Proof.
  induction s as [|d s IH]; [reflexivity|].
  simpl. rewrite IH. destruct s; reflexivity.
Qed.

Lemma hex_digits_not_open (d : Hexadecimal.uint) :
  all_chars not_open (HexadecimalString.NilEmpty.string_of_uint d) = true.
Proof. induction d; simpl; auto. Qed.

Lemma hex_not_open (n : N) : all_chars not_open (Py.hex n) = true.
Proof.
  unfold Py.hex. rewrite all_chars_app. apply andb_true_iff. split; [reflexivity|].
  unfold HexadecimalString.NilZero.string_of_uint.
  destruct (N.to_hex_uint n); try reflexivity; apply hex_digits_not_open.
Qed.

(** ** [split] on a separator *)

Lemma split_go_nonempty (sep : string) (s : string) :
  forall skip cur, Py.split_go sep skip cur s <> [].
Proof.
  induction s as [|c s IH]; intros skip cur; cbn [Py.split_go];
    [discriminate|].
  destruct skip; [|apply IH].
  destruct (prefix sep (String c s)); [discriminate | apply IH].
Qed.

Lemma split_go_piece (sep' t rest : string) :
  all_chars not_comma t = true ->
  forall cur,
    Py.split_go (String "," sep') 0 cur (t ++ rest)
    = Py.split_go (String "," sep') 0 (cur ++ t) rest.
Proof.
  induction t as [|c t IH]; intros Ht cur.
  - simpl. now rewrite app_nil_r.
  - simpl in Ht. apply andb_true_iff in Ht as [Hc Ht].
    unfold not_comma in Hc. apply negb_true_iff, Ascii.eqb_neq in Hc.
    change (String c t ++ rest) with (String c (t ++ rest)).
    cbn [Py.split_go]. cbn [prefix].
    destruct (ascii_dec "," c) as [E|_]; [now subst c|].
    rewrite IH by exact Ht. f_equal.
    rewrite app_assoc. reflexivity.
Qed.

Lemma prefix_nil (s : string) : prefix "" s = true.
Proof. destruct s; reflexivity. Qed.

Lemma split_go_sep (cur rest : string) :
  Py.split_go ", " 0 cur (String "," (String " " rest))
  = cur :: Py.split_go ", " 0 "" rest.
Proof.
  assert (H : prefix ", " (String "," (String " " rest)) = true).
  { cbn [prefix]. destruct (ascii_dec "," ","); [|congruence].
    destruct (ascii_dec " " " "); [|congruence]. apply prefix_nil. }
  cbn [Py.split_go]. rewrite H. reflexivity.
Qed.

Lemma split_on_join_comma (l : list string) :
  l <> [] ->
  Forall (fun t => all_chars not_comma t = true) l ->
  Py.split_on ", " (Py.join ", " l) = l.
Proof.
  intros Hne Hl. unfold Py.split_on.
  induction Hl as [|t l Ht Hl IH]; [congruence|].
  destruct l as [|u l'].
  - simpl. rewrite <- (app_nil_r t) at 1.
    rewrite split_go_piece by exact Ht. reflexivity.
  - change (Py.join ", " (t :: u :: l'))
      with (t ++ ", " ++ Py.join ", " (u :: l')).
    rewrite split_go_piece by exact Ht.
    change (", " ++ Py.join ", " (u :: l'))
      with (String "," (String " " (Py.join ", " (u :: l')))).
    rewrite split_go_sep. simpl ("" ++ t). f_equal. apply IH. discriminate.
Qed.

Lemma all_chars_join p (sep : string) (l : list string) :
  all_chars p sep = true ->
  Forall (fun t => all_chars p t = true) l ->
  all_chars p (Py.join sep l) = true.
Proof.
  intros Hsep. induction 1 as [|t l Ht Hl IH]; [reflexivity|].
  destruct l as [|u l']; [exact Ht|].
  change (Py.join sep (t :: u :: l')) with (t ++ sep ++ Py.join sep (u :: l')).
  rewrite !all_chars_app, Ht, Hsep, IH. reflexivity.
Qed.

Section WithLib.
Context {lib : ChessLib}.

Lemma legal_moves_str_shape (b : Board) :
  legal_moves_str b
  = ("<LegalMoveGenerator at " ++ Py.hex (generator_id b) ++ " ")
    ++ String "(" (Py.join ", " (legal_sans b) ++ String ")" ">").
Proof. unfold legal_moves_str. rewrite !app_assoc. reflexivity. Qed.

Lemma prefix_not_open (b : Board) :
  all_chars not_open
    ("<LegalMoveGenerator at " ++ Py.hex (generator_id b) ++ " ") = true.
Proof.
  rewrite !all_chars_app, hex_not_open. reflexivity.
Qed.

(** [possible_moves] never raises and never returns the empty list. *)
Lemma possible_moves_returns (b : Board) :
  exists moves, possible_moves b = Ret moves /\ moves <> [].
Proof.
  unfold possible_moves. rewrite legal_moves_str_shape.
  destruct (search_parens_some
              ("<LegalMoveGenerator at " ++ Py.hex (generator_id b) ++ " ")
              (Py.join ", " (legal_sans b)) ">") as [m ->].
  eexists. split; [reflexivity|]. apply split_go_nonempty.
Qed.

(** When the printed moves hold no closing parenthesis, the pattern
    finds the list between the parentheses. *)
Lemma possible_moves_body (b : Board) :
  all_chars not_close (Py.join ", " (legal_sans b)) = true ->
  possible_moves b = Ret (Py.split_on ", " (Py.join ", " (legal_sans b))).
Proof.
  intros H. unfold possible_moves. rewrite legal_moves_str_shape.
  rewrite search_parens_skip by apply prefix_not_open.
  cbn [Py.search_parens]. rewrite Ascii.eqb_refl.
  rewrite to_close_found by exact H.
  cbn [Py.slice_1_m1]. rewrite drop_last_snoc. reflexivity.
Qed.

(** C10. In a position without a legal move (mate or stalemate)
    [possible_moves] returns the list that holds the empty string and
    nothing else, and the empty string is none of the legal moves; in no
    position at all is the list that [possible_moves] returns empty. *)
Theorem possible_moves_without_legal_move (b : Board) :
  legal_sans b = [] ->
  possible_moves b = Ret [""]
  /\ ~ In "" (legal_sans b)
  /\ forall b' : Board,
       exists moves, possible_moves b' = Ret moves /\ moves <> [].
Proof.
  intros H. split; [|split].
  - rewrite possible_moves_body; rewrite H; reflexivity.
  - rewrite H. intros [].
  - apply possible_moves_returns.
Qed.

(** In every other position a library that keeps the laws gets its own
    list back. *)
Lemma possible_moves_legal (laws : ChessLaws lib) (b : Board) :
  legal_sans b <> [] -> possible_moves b = Ret (legal_sans b).
Proof.
  intros Hne.
  assert (Hshape : Forall (fun t => all_chars san_char t = true) (legal_sans b)).
  { apply Forall_forall. intros s Hs.
    pose proof (san_shape lib laws b s Hs) as Hok.
    unfold san_ok in Hok. now apply andb_true_iff in Hok as [_ Hok]. }
  rewrite possible_moves_body.
  - rewrite split_on_join_comma; trivial.
    revert Hshape. apply Forall_impl. intros t. apply all_chars_impl.
    intros c Hc. unfold san_char in Hc. unfold not_comma.
    apply andb_true_iff in Hc as [Hc _]. now apply andb_true_iff in Hc as [_ Hc].
  - apply all_chars_join; [reflexivity|].
    revert Hshape. apply Forall_impl. intros t. apply all_chars_impl.
    intros c Hc. unfold san_char in Hc. unfold not_close.
    now apply andb_true_iff in Hc as [_ Hc].
Qed.

Lemma mem_In (x : string) (l : list string) : Py.mem x l = true <-> In x l.
Proof.
  unfold Py.mem. rewrite existsb_exists. split.
  - intros (y & Hy & E). apply String.eqb_eq in E. now subst.
  - intros H. exists x. split; [exact H | apply String.eqb_refl].
Qed.

Lemma mem_not_In (x : string) (l : list string) :
  Py.mem x l = false <-> ~ In x l.
Proof.
  rewrite <- mem_In. destruct (Py.mem x l); split; congruence.
Qed.

Lemma possible_moves_spec (laws : ChessLaws lib) (b : Board) :
  possible_moves b
  = Ret (match legal_sans b with [] => [""] | l => l end).
Proof.
  destruct (legal_sans b) eqn:E.
  - rewrite possible_moves_body; rewrite E; reflexivity.
  - rewrite <- E. apply possible_moves_legal; [exact laws | congruence].
Qed.

(** ** [push_pgn] on a history in two parts *)

Lemma push_moves_app (h1 h2 : list string) :
  forall b,
    push_moves b (h1 ++ h2)
    = (board <~ push_moves b h1 ;; push_moves board h2).
Proof.
  induction h1 as [|mv h1 IH]; intros b; [reflexivity|].
  cbn [app push_moves]. destruct (push_san b mv); [apply IH | reflexivity].
Qed.

(** C1. [apply_player_move] against the legal moves of the position
    that the history replays to, for a chess library that keeps its
    laws.  A move that is, as a string, one of the legal moves is
    accepted: the call returns [True] and the history is the old one
    with the move at its end.  A string that is none of the legal moves
    is refused, the call returning [False] and the history being the old
    one, with one exception: in a position without any legal move (mate
    or stalemate) the empty string, which is no legal move, is accepted
    and put at the end of the history.  When the replay raises, the
    call raises the same exception. *)
Theorem apply_player_move_and_the_legal_moves (laws : ChessLaws lib)
    (game_history : list string) (attempted_move : string) :
  (forall board,
     push_pgn game_history = Ret board ->
     (In attempted_move (legal_sans board) ->
      apply_player_move game_history attempted_move
      = Ret (true, (game_history ++ [attempted_move])%list))
     /\ (~ In attempted_move (legal_sans board) ->
         (legal_sans board = [] -> attempted_move <> "") ->
         apply_player_move game_history attempted_move
         = Ret (false, game_history))
     /\ (legal_sans board = [] -> attempted_move = "" ->
         ~ In attempted_move (legal_sans board)
         /\ apply_player_move game_history attempted_move
            = Ret (true, (game_history ++ [""])%list)))
  /\ (forall e,
        push_pgn game_history = Exc e ->
        apply_player_move game_history attempted_move = Exc e).
Proof.
  split.
  - intros board Hb. unfold apply_player_move. rewrite Hb. cbn [rbind].
    rewrite (possible_moves_spec laws board). cbn [rbind].
    split; [|split].
    + intros Hin.
      destruct (legal_sans board) as [|s0 ss] eqn:E; [destruct Hin|].
      now rewrite (proj2 (mem_In _ _) Hin).
    + intros Hnot Hempty.
      destruct (legal_sans board) as [|s0 ss] eqn:E.
      * specialize (Hempty eq_refl).
        replace (Py.mem attempted_move [""]) with false; [reflexivity|].
        symmetry. apply mem_not_In. intros [H | []]. congruence.
      * now rewrite (proj2 (mem_not_In _ _) Hnot).
    + intros E ->. rewrite E. split; [intros []|]. reflexivity.
  - intros e He. unfold apply_player_move. now rewrite He.
Qed.

End WithLib.

End MoveFacts.

(* ===================================================================== *)
(** * The scripted library keeps the laws *)
(* ===================================================================== *)

Module ToyFacts.
Import Bot Laws PyFacts MoveFacts Toy.

Lemma lookup_In (p : list string) (es : list entry) (e : entry) :
  lookup p es = Some e -> In e es.
Proof.
  induction es as [|x es IH]; simpl; [discriminate|].
  destruct (Py.list_eqb (position x) p).
  - intros [= ->]. now left.
  - intros H. right. auto.
Qed.

Lemma book_ok : forallb entry_ok book = true.
Proof. vm_compute. reflexivity. Qed.

Lemma book_entry (p : list string) (e : entry) :
  lookup p book = Some e -> entry_ok e = true.
Proof.
  intros H. apply lookup_In in H.
  pose proof book_ok as Hb. rewrite forallb_forall in Hb. auto.
Qed.

Lemma toy_laws : ChessLaws Toy.lib.
Proof.
  constructor.
  - intros b s. cbn. unfold toy_sans.
    destruct (lookup b book) as [e|] eqn:E; [|intros []].
    apply book_entry in E. unfold entry_ok in E.
    apply andb_true_iff in E as [E _]. rewrite forallb_forall in E. auto.
  - intros b uci s. cbn. unfold toy_play, toy_san_of_uci, toy_sans.
    destruct (lookup b book) as [e|] eqn:E; [|discriminate].
    apply book_entry in E. unfold entry_ok in E.
    apply andb_true_iff in E as [_ E].
    destruct (reply e) as [[u s']|]; [|discriminate].
    intros _. destruct (String.eqb u uci); [|discriminate].
    intros [= <-]. now apply mem_In.
Qed.

Lemma book_marked : forallb entry_marked book = true.
Proof. vm_compute. reflexivity. Qed.

Lemma ends_with_hash_spec (s : string) :
  ends_with_hash s = true -> exists body, s = body ++ "#".
Proof.
  induction s as [|c s IH]; cbn [ends_with_hash]; [discriminate|].
  destruct s as [|d s'].
  - intros H. apply Ascii.eqb_eq in H. subst c. now exists "".
  - intros H. destruct (IH H) as [body ->]. now exists (String c body).
Qed.

Lemma list_eqb_true (a b : list string) : Py.list_eqb a b = true -> a = b.
Proof.
  revert b. induction a as [|x a IH]; intros [|y b]; cbn;
    try congruence; try discriminate.
  intros H. apply andb_true_iff in H as [Hx Ha].
  apply String.eqb_eq in Hx. apply IH in Ha. congruence.
Qed.

Lemma lookup_position (p : list string) (es : list entry) (e : entry) :
  lookup p es = Some e -> position e = p.
Proof.
  induction es as [|x es IH]; simpl; [discriminate|].
  destruct (Py.list_eqb (position x) p) eqn:E; [|exact IH].
  intros [= <-]. now apply list_eqb_true.
Qed.

(** The scripted library marks the moves that mate. *)
Lemma toy_mate_marked : mate_marked Toy.lib.
Proof.
  intros b s b'. cbn. unfold toy_sans.
  destruct (lookup b book) as [e|] eqn:E; [|intros []].
  intros Hin Hpush Hmate. apply ends_with_hash_spec.
  pose proof (lookup_position _ _ _ E) as Hpos.
  apply lookup_In in E.
  pose proof book_marked as Hb. rewrite forallb_forall in Hb.
  specialize (Hb e E). unfold entry_marked in Hb.
  rewrite forallb_forall in Hb. specialize (Hb s Hin).
  rewrite Hpos, Hpush, Hmate in Hb. exact Hb.
Qed.

Lemma possible_moves_without_legal_move_witness :
  @legal_sans Toy.lib ["f3"; "e5"; "g4"; "Qh4#"] = []
  /\ @is_checkmate Toy.lib ["f3"; "e5"; "g4"; "Qh4#"] = true
  /\ @possible_moves Toy.lib ["f3"; "e5"; "g4"; "Qh4#"] = Ret [""].
Proof.
  split; [reflexivity|]. split; [reflexivity|].
  apply (@possible_moves_without_legal_move Toy.lib ["f3"; "e5"; "g4"; "Qh4#"]).
  reflexivity.
Defined.

Lemma apply_player_move_and_the_legal_moves_witness :
  @push_pgn Toy.lib ["f3"; "e5"; "g4"; "Qh4#"] = Ret ["f3"; "e5"; "g4"; "Qh4#"]
  /\ @legal_sans Toy.lib ["f3"; "e5"; "g4"; "Qh4#"] = []
  /\ @apply_player_move Toy.lib ["f3"; "e5"; "g4"; "Qh4#"] ""
     = Ret (true, ["f3"; "e5"; "g4"; "Qh4#"; ""]).
Proof.
  split; [reflexivity|]. split; [reflexivity|].
  destruct (@apply_player_move_and_the_legal_moves Toy.lib toy_laws
              ["f3"; "e5"; "g4"; "Qh4#"] "") as [H _].
  destruct (H ["f3"; "e5"; "g4"; "Qh4#"] eq_refl) as (_ & _ & Hempty).
  exact (proj2 (Hempty eq_refl eq_refl)).
Defined.

End ToyFacts.

(* ===================================================================== *)
(** * The session store *)
(* ===================================================================== *)

Module StoreFacts.
Import Bot Laws PyFacts MoveFacts.

Section WithLib.
Context {lib : ChessLib}.

Lemma parse_games_nonempty (text : string) :
  Forall (fun g : game => g <> []) (parse_games text).
Proof.
  unfold parse_games. apply Forall_forall. intros g Hg.
  apply in_map_iff in Hg as (line & <- & _). apply split_go_nonempty.
Qed.

(** The loop of the search, started at index [k] with [acc] found so
    far: it keeps [acc] when no later game is the user's, and otherwise
    ends on the last one that is. *)
Lemma find_game_from_spec (name : string) (games : list game) :
  Forall (fun g : game => g <> []) games ->
  forall k acc,
    (find_game_from name games k acc = Ret acc /\ no_match name games)
    \/ exists i, find_game_from name games k acc = Ret (k + Z.of_nat i)%Z
                 /\ last_match name games i.
Proof.
  induction 1 as [|g games Hg Hgames IH]; intros k acc.
  - left. split; [reflexivity|]. intros [|j] g; discriminate.
  - destruct g as [|user fields]; [congruence|].
    cbn [find_game_from item nth_error rbind].
    destruct (IH (k + 1)%Z
                (if String.eqb (Py.lower name) (Py.lower user) then k else acc))
      as [[Hr Hno] | (i & Hr & Hlast)].
    + destruct (String.eqb (Py.lower name) (Py.lower user)) eqn:E.
      * right. exists 0%nat. rewrite Hr. split; [f_equal; lia|].
        apply String.eqb_eq in E. split.
        -- exists (user :: fields). repeat split; [discriminate | exact E].
        -- intros [|j] g Hj Hnth; [lia|]. apply (Hno j g Hnth).
      * left. rewrite Hr. split; [reflexivity|].
        apply String.eqb_neq in E.
        intros [|j] g Hnth.
        -- injection Hnth as <-. exact E.
        -- apply (Hno j g Hnth).
    + right. exists (S i). rewrite Hr. split; [f_equal; lia|].
      destruct Hlast as [(g & Hnth & Hne & Hname) Hlater]. split.
      * exists g. auto.
      * intros [|j] g' Hj Hnth'; [lia|].
        apply (Hlater j g'); [lia | exact Hnth'].
Qed.

Lemma find_game_spec (name : string) (games : list game) :
  Forall (fun g : game => g <> []) games ->
  (find_game name games = Ret (-1)%Z /\ no_match name games)
  \/ exists i, find_game name games = Ret (Z.of_nat i)
               /\ last_match name games i.
Proof.
  intros H. unfold find_game.
  destruct (find_game_from_spec name games H 0 (-1)%Z) as [?|(i & Hr & Hl)];
    [now left | right].
  exists i. now rewrite Hr.
Qed.

(** C9. The search for the session of a user compares the names with
    upper and lower case taken as equal, and among several sessions of
    one user it ends on the last one of the file: on the games read from
    any text of [games.txt], [find_game] returns -1 when no line is the
    user's, and otherwise the index [i] of a line of the user after
    which no line of the user follows. *)
Theorem find_game_last_match (name text : string) :
  (find_game name (parse_games text) = Ret (-1)%Z
   /\ no_match name (parse_games text))
  \/ exists i, find_game name (parse_games text) = Ret (Z.of_nat i)
               /\ last_match name (parse_games text) i.
Proof. apply find_game_spec, parse_games_nonempty. Qed.

End WithLib.

(** Two lines for one user, written in different case: the second is
    found. *)
Example find_game_duplicates :
  find_game "BOB" (parse_games ("bob,e4 e5 " ++ nl ++ "al,d4 " ++ nl ++ "Bob,f3 " ++ nl))
  = Ret 2%Z.
Proof. reflexivity. Qed.

End StoreFacts.

(* ===================================================================== *)
(** * Effects *)
(* ===================================================================== *)

Module EffectFacts.
Import Bot Laws PyFacts.

(** ** Worlds after a list of effects *)

Lemma emit_all_app (a b : list event) (w : world) :
  emit_all (a ++ b) w = emit_all b (emit_all a w).
Proof. unfold emit_all. apply fold_left_app. Qed.

Lemma effects_emit_all (es : list event) (w : world) :
  effects (emit_all es w) = (effects w ++ es)%list.
Proof.
  revert w. induction es as [|e es IH]; intros w; cbn.
  - now rewrite List.app_nil_r.
  - change (effects (emit_all es (apply_event e w)) = (effects w ++ e :: es)%list).
    rewrite IH. cbn. now rewrite <- List.app_assoc.
Qed.

(** Writing from the first character of an empty file. *)
Lemma drop_nil (n : nat) : Py.drop n "" = "".
Proof. destruct n; reflexivity. Qed.

Lemma overwrite_nil (text : string) : overwrite text "" = text.
Proof. unfold overwrite. now rewrite drop_nil, app_nil_r. Qed.

Lemma flushed_nil (buffer : option string) :
  flushed buffer "" = match buffer with Some text => text | None => "" end.
Proof. destruct buffer; [apply overwrite_nil | reflexivity]. Qed.

(** Effects other than the writes to [games.txt] leave the file and the
    file object alone. *)
Lemma games_txt_emit_all (es : list event) (w : world) :
  forallb (fun e => negb (is_games_write e)) es = true ->
  games_txt (emit_all es w) = games_txt w
  /\ f_buffer (emit_all es w) = f_buffer w.
Proof.
  revert w. induction es as [|e es IH]; intros w H; [split; reflexivity|].
  cbn in H. apply andb_true_iff in H as [He Hes].
  change (games_txt (emit_all es (apply_event e w)) = games_txt w
          /\ f_buffer (emit_all es (apply_event e w)) = f_buffer w).
  destruct (IH (apply_event e w) Hes) as [-> ->].
  destruct e; try discriminate; split; reflexivity.
Qed.

(** The lines written go to the file object, not to the file. *)
Lemma games_txt_emit_writes (games : list game) (w : world) :
  games_txt (emit_all (map (fun g => WriteGames (line_of g)) games) w)
  = games_txt w
  /\ f_buffer (emit_all (map (fun g => WriteGames (line_of g)) games) w)
     = option_map (fun held => held ++ text_of games) (f_buffer w).
Proof.
  revert w. induction games as [|g games IH]; intros w; cbn [map text_of].
  - cbn. split; [reflexivity|]. destruct (f_buffer w); cbn; [|reflexivity].
    now rewrite app_nil_r.
  - change (emit_all (WriteGames (line_of g)
                      :: map (fun g => WriteGames (line_of g)) games) w)
      with (emit_all (map (fun g => WriteGames (line_of g)) games)
              (apply_event (WriteGames (line_of g)) w)).
    destruct (IH (apply_event (WriteGames (line_of g)) w)) as [-> ->].
    cbn. split; [reflexivity|]. destruct (f_buffer w); cbn; [|reflexivity].
    now rewrite app_assoc.
Qed.

(** After the rewrite the file object holds the text of the games, and
    the file what the file object held before, nothing when there was
    none. *)
Lemma games_txt_save (games : list game) (w : world) :
  games_txt (emit_all (save_effects games) w) = flushed (f_buffer w) ""
  /\ f_buffer (emit_all (save_effects games) w) = Some (text_of games).
Proof.
  unfold save_effects.
  change (emit_all (OpenGamesForWrite
                    :: map (fun g => WriteGames (line_of g)) games) w)
    with (emit_all (map (fun g => WriteGames (line_of g)) games)
            (apply_event OpenGamesForWrite w)).
  destruct (games_txt_emit_writes games (apply_event OpenGamesForWrite w))
    as [-> ->].
  split; reflexivity.
Qed.

(** ** What a computation emits *)

Lemma emits_ret P {A} (a : A) : emits P (ret a).
Proof. intros w. exists []. auto. Qed.

Lemma emits_raise P {A} (e : exn) : emits P (@raise A e).
Proof. intros w. exists []. auto. Qed.

Lemma emits_lift P {A} (r : res A) : emits P (lift r).
Proof. intros w. exists []. auto. Qed.

Lemma emits_read_games P : emits P read_games.
Proof. intros w. exists []. auto. Qed.

Lemma emits_perform (P : event -> bool) (e : event) :
  P e = true -> emits P (perform e).
Proof. intros He w. exists [e]. cbn. now rewrite He. Qed.

Lemma emits_bind P {A B} (c : M A) (f : A -> M B) :
  emits P c -> (forall a, emits P (f a)) -> emits P (bind c f).
Proof.
  intros Hc Hf w. unfold bind.
  destruct (Hc w) as (es1 & E1 & P1).
  destruct (c w) as [[a|e] w1]; cbn [snd] in *.
  - destruct (Hf a w1) as (es2 & E2 & P2).
    exists (es1 ++ es2)%list. rewrite E2, E1, emit_all_app, forallb_app, P1, P2.
    auto.
  - exists es1. auto.
Qed.

Lemma emits_for_each P {A} (l : list A) (f : A -> M unit) :
  (forall a, emits P (f a)) -> emits P (for_each l f).
Proof.
  intros Hf. induction l as [|a l IH]; cbn [for_each].
  - apply emits_ret.
  - apply emits_bind; auto.
Qed.

Lemma emits_weaken (P P' : event -> bool) {A} (c : M A) :
  (forall e, P e = true -> P' e = true) -> emits P c -> emits P' c.
Proof.
  intros HP Hc w. destruct (Hc w) as (es & E & Hes). exists es.
  split; [exact E|]. rewrite forallb_forall in *. auto.
Qed.

Ltac emits_step :=
  first
    [ apply emits_ret | apply emits_raise | apply emits_lift
    | apply emits_read_games
    | apply emits_perform; reflexivity
    | apply emits_for_each; intros ?
    | apply emits_bind; [|intros ?]
    | match goal with
      | |- emits _ (if ?b then _ else _) => destruct b
      | |- emits _ (match ?x with _ => _ end) => destruct x
      end ].

Ltac emits_all := repeat emits_step.

Section WithLib.
Context {lib : ChessLib}.

(** Up to the rewrite of [games.txt] a pass writes no file. *)
Lemma emits_hashtags m games gi : emits no_file_write (hashtags m games gi).
Proof.
  unfold hashtags, update_status, update_with_media, create_board_image.
  emits_all.
Qed.

Lemma emits_apply_bot_move h : emits no_file_write (apply_bot_move h).
Proof. unfold apply_bot_move. emits_all. Qed.

Lemma emits_after_player_move m l h :
  emits no_file_write (after_player_move m l h).
Proof.
  unfold after_player_move, update_with_media, create_board_image.
  repeat first [ apply emits_apply_bot_move | emits_step ].
Qed.

Lemma emits_exchange m l : emits no_file_write (exchange m l).
Proof.
  unfold exchange, move_or_not, update_with_media, create_board_image.
  repeat first [ apply emits_apply_bot_move | apply emits_after_player_move
               | emits_step ].
Qed.

Lemma emits_move_block m l : emits no_file_write (move_block m l).
Proof.
  unfold move_block. repeat first [ apply emits_exchange | emits_step ].
Qed.

Lemma emits_game_over_block m l : emits no_file_write (game_over_block m l).
Proof. unfold game_over_block, update_status. emits_all. Qed.

Lemma emits_write_games games : emits no_cursor_write (write_games games).
Proof. unfold write_games. emits_all. Qed.

Lemma no_file_no_cursor (e : event) :
  no_file_write e = true -> no_cursor_write e = true.
Proof.
  unfold no_file_write, no_cursor_write. intros H.
  now apply andb_true_iff in H as [H _].
Qed.

Lemma emits_finish m l : emits no_cursor_write (finish m l).
Proof.
  unfold finish.
  repeat first
    [ apply (emits_weaken _ _ _ no_file_no_cursor), emits_move_block
    | apply (emits_weaken _ _ _ no_file_no_cursor), emits_game_over_block
    | apply emits_write_games | emits_step ].
Qed.

Lemma emits_handle m : emits no_cursor_write (handle m).
Proof.
  unfold handle.
  repeat first
    [ apply (emits_weaken _ _ _ no_file_no_cursor), emits_hashtags
    | apply emits_finish | emits_step ].
Qed.

End WithLib.

End EffectFacts.

(* ===================================================================== *)
(** * The cursor *)
(* ===================================================================== *)

Module CursorFacts.
Import Bot Laws EffectFacts.

Lemma cursor_writes_app (a b : list event) :
  cursor_writes (a ++ b) = (cursor_writes a ++ cursor_writes b)%list.
Proof.
  induction a as [|e a IH]; [reflexivity|].
  destruct e; simpl; rewrite IH; reflexivity.
Qed.

(** ** Computations that leave the cursor alone *)

Lemma cursor_writes_none (es : list event) :
  forallb no_cursor_write es = true -> cursor_writes es = [].
Proof.
  induction es as [|e es IH]; [reflexivity|]. cbn [forallb].
  intros H. apply andb_true_iff in H as [He Hes].
  destruct e; try discriminate; cbn; auto.
Qed.

Lemma last_seen_emit_all (es : list event) (w : world) :
  forallb no_cursor_write es = true ->
  last_seen_id_txt (emit_all es w) = last_seen_id_txt w.
Proof.
  revert w. induction es as [|e es IH]; intros w H; [reflexivity|].
  cbn [forallb] in H. apply andb_true_iff in H as [He Hes].
  change (last_seen_id_txt (emit_all es (apply_event e w))
          = last_seen_id_txt w).
  rewrite IH by exact Hes. destruct e; try discriminate; reflexivity.
Qed.

Lemma emits_quiet {A} (c : M A) : emits no_cursor_write c -> quiet c.
Proof.
  intros H w. destruct (H w) as (es & -> & Hes). exists es.
  rewrite effects_emit_all, cursor_writes_none, last_seen_emit_all; auto.
Qed.

Section WithLib.
Context {lib : ChessLib}.

(** Handling a mention writes nothing to the cursor file. *)
Lemma quiet_handle m : quiet (handle m).
Proof. apply emits_quiet, emits_handle. Qed.

(** ** The cycle *)

Lemma body_unfold (m : mention) (w : world) :
  body m w
  = match handle m (apply_event (WriteLastSeen (id m)) w) with
    | (Ret _, w') => (Ret tt, w')
    | (Exc e, w') => (Exc e, w')
    end.
Proof.
  unfold body, bind, store_last_seen_id, perform, ret.
  destruct (handle m (apply_event (WriteLastSeen (id m)) w)) as [[l|e] w'];
    reflexivity.
Qed.

Lemma last_cons_default {A} (a : A) (l : list A) (d d' : A) :
  last (a :: l) d = last (a :: l) d'.
Proof.
  revert a. induction l as [|b l IH]; intros a; [reflexivity|].
  change (last (b :: l) d = last (b :: l) d'). apply IH.
Qed.

Lemma for_each_body (ms : list mention) :
  forall w,
  exists blocks rest,
    ms = (map fst blocks ++ rest)%list
    /\ (fst (for_each ms body w) = Ret tt -> rest = [])
    /\ effects (snd (for_each ms body w))
       = (effects w ++ blocks_effects blocks)%list
    /\ Forall (fun b => cursor_writes (snd b) = []) blocks
    /\ last_seen_id_txt (snd (for_each ms body w))
       = last (map (fun b => id (fst b)) blocks) (last_seen_id_txt w).
Proof.
  induction ms as [|m ms IH]; intros w.
  - exists [], []. cbn. rewrite List.app_nil_r. repeat split; auto.
  - assert (Hstep : for_each (m :: ms) body w
                    = match handle m (apply_event (WriteLastSeen (id m)) w) with
                      | (Ret _, w') => for_each ms body w'
                      | (Exc e, w') => (Exc e, w')
                      end).
    { cbn [for_each]. unfold bind at 1. rewrite body_unfold.
      destruct (handle m (apply_event (WriteLastSeen (id m)) w)) as [[l|e] w1];
        reflexivity. }
    rewrite Hstep. clear Hstep.
    destruct (quiet_handle m (apply_event (WriteLastSeen (id m)) w))
      as (es & E & C & L).
    destruct (handle m (apply_event (WriteLastSeen (id m)) w))
      as [[l|e] w1]; cbn [snd] in E, L.
    + destruct (IH w1) as (blocks & rest & Hms & Hret & Heff & Hq & Hlast).
      exists ((m, es) :: blocks), rest. repeat split.
      * cbn. now rewrite Hms.
      * exact Hret.
      * rewrite Heff, E. cbn. rewrite <- !List.app_assoc. reflexivity.
      * constructor; assumption.
      * rewrite Hlast, L. cbn [map fst apply_event last_seen_id_txt].
        destruct blocks as [|p blocks]; [reflexivity|].
        cbn [map]. rewrite (last_cons_default _ _ (id m) (last_seen_id_txt w)).
        reflexivity.
    + exists [(m, es)], ms. repeat split.
      * discriminate.
      * cbn. rewrite E. cbn. rewrite List.app_nil_r, <- List.app_assoc.
        reflexivity.
      * constructor; [exact C | constructor].
      * cbn. exact L.
Qed.

Lemma cursor_writes_blocks (blocks : list (mention * list event)) :
  Forall (fun b => cursor_writes (snd b) = []) blocks ->
  cursor_writes (blocks_effects blocks) = map id (map fst blocks).
Proof.
  induction 1 as [|b blocks Hb Hq IH]; [reflexivity|].
  change (blocks_effects (b :: blocks))
    with (WriteLastSeen (id (fst b)) :: (snd b ++ blocks_effects blocks))%list.
  cbn [cursor_writes map]. rewrite cursor_writes_app, Hb, IH. reflexivity.
Qed.

Lemma strongly_sorted_prefix {A} (R : A -> A -> Prop) (l1 l2 : list A) :
  StronglySorted R (l1 ++ l2) -> StronglySorted R l1.
Proof.
  induction l1 as [|a l1 IH]; cbn; intros H; [constructor|].
  apply StronglySorted_inv in H as [Hs Hf].
  constructor; [auto|]. apply Forall_app in Hf. tauto.
Qed.

Lemma strongly_sorted_lt_le (l : list Z) :
  StronglySorted Z.lt l -> StronglySorted Z.le l.
Proof.
  induction 1 as [|a l Hs IH Hf]; constructor; [exact IH|].
  revert Hf. apply Forall_impl. intros; lia.
Qed.

(** C8. In one cycle the mentions are taken oldest first, and for each
    of them the cursor file receives its identifier before anything of
    its handling happens: the handling starts in a world whose cursor
    file holds the identifier, and leaves it there.  The effects of the
    cycle are, mention by mention, one cursor write followed by the
    effects of the handling, which hold no cursor write; an exception
    ends the cycle after the block of the mention that raised.  When the
    platform gives identifiers that increase and exceed the cursor, the
    values stored in the cursor file never decrease. *)
Theorem cursor_stored_before_each_mention
    (mentions_timeline : Z -> list mention) (w : world) :
  let oldest_first := rev (mentions_timeline (last_seen_id_txt w)) in
  (forall m w0,
      last_seen_id_txt (apply_event (WriteLastSeen (id m)) w0) = id m
      /\ snd (body m w0)
         = snd (handle m (apply_event (WriteLastSeen (id m)) w0))
      /\ last_seen_id_txt (snd (body m w0)) = id m)
  /\ exists blocks rest,
      oldest_first = (map fst blocks ++ rest)%list
      /\ (fst (main mentions_timeline w) = Ret tt -> rest = [])
      /\ effects (snd (main mentions_timeline w))
         = (effects w ++ blocks_effects blocks)%list
      /\ Forall (fun b => cursor_writes (snd b) = []) blocks
      /\ last_seen_id_txt (snd (main mentions_timeline w))
         = last (map (fun b => id (fst b)) blocks) (last_seen_id_txt w)
      /\ (StronglySorted Z.lt (last_seen_id_txt w :: map id oldest_first) ->
          StronglySorted Z.le
            (last_seen_id_txt w :: cursor_writes (blocks_effects blocks))).
Proof.
  intros oldest_first. split.
  - intros m w0. split; [reflexivity|].
    rewrite body_unfold.
    destruct (quiet_handle m (apply_event (WriteLastSeen (id m)) w0))
      as (es & _ & _ & L).
    destruct (handle m (apply_event (WriteLastSeen (id m)) w0))
      as [[l|e] w1]; cbn [snd] in *; split; auto.
  - unfold main, bind, read_last_seen.
    destruct (for_each_body oldest_first w)
      as (blocks & rest & Hms & Hret & Heff & Hq & Hlast).
    exists blocks, rest. repeat split; auto.
    intros Hsorted. rewrite cursor_writes_blocks by exact Hq.
    apply strongly_sorted_lt_le.
    apply (strongly_sorted_prefix _ _ (map id rest)).
    cbn. rewrite <- map_app, <- Hms. exact Hsorted.
Qed.

End WithLib.

Lemma cursor_stored_before_each_mention_witness :
  StronglySorted Z.lt
    (last_seen_id_txt (Toy.world0 "")
     :: map id (rev (Toy.two_mentions (last_seen_id_txt (Toy.world0 "")))))
  /\ exists blocks,
      effects (snd (@main Toy.lib Toy.two_mentions (Toy.world0 "")))
      = blocks_effects blocks
      /\ StronglySorted Z.le
           (last_seen_id_txt (Toy.world0 "")
            :: cursor_writes (blocks_effects blocks)).
Proof.
  assert (H : StronglySorted Z.lt
                (last_seen_id_txt (Toy.world0 "")
                 :: map id (rev (Toy.two_mentions
                                   (last_seen_id_txt (Toy.world0 "")))))).
  { cbn. repeat constructor; lia. }
  split; [exact H|].
  destruct (@cursor_stored_before_each_mention Toy.lib Toy.two_mentions
              (Toy.world0 ""))
    as (_ & blocks & rest & _ & _ & Heff & _ & _ & Hsorted).
  exists blocks. split; [exact Heff | exact (Hsorted H)].
Defined.

(** Two mentions in one cycle.  The second pass finds [games.txt]
    empty, the game that the first pass started being still with the
    file object: the move of the second mention is not played, and the
    file ends with the game as the first pass left it. *)
Example cycle_of_two_mentions :
  cursor_writes (effects (snd (@main Toy.lib Toy.two_mentions (Toy.world0 ""))))
  = [102%Z; 103%Z]
  /\ games_txt (snd (@main Toy.lib Toy.two_mentions (Toy.world0 "")))
     = "Bob,e4 " ++ nl.
Proof. split; vm_compute; reflexivity. Qed.

End CursorFacts.

(* ===================================================================== *)
(** * Running the pieces of one pass *)
(* ===================================================================== *)

Module RunFacts.
Import Bot Laws PyFacts MoveFacts StoreFacts EffectFacts.

(** ** Lists *)

Lemma list_eqb_eq (a b : list string) : Py.list_eqb a b = true <-> a = b.
Proof.
  revert b. induction a as [|x a IH]; intros [|y b]; cbn; split;
    try congruence; try discriminate.
  - intros H. apply andb_true_iff in H as [Hx Ha].
    apply String.eqb_eq in Hx. apply IH in Ha. congruence.
  - intros [= -> ->]. rewrite String.eqb_refl. now apply IH.
Qed.

Lemma index_of_spec (v : game) (games : list game) (j : nat) :
  index_of v games = Some j ->
  nth_error games j = Some v
  /\ forall k, (k < j)%nat -> nth_error games k <> Some v.
Proof.
  revert j. induction games as [|g games IH]; intros j; cbn; [discriminate|].
  destruct (Py.list_eqb g v) eqn:E.
  - intros [= <-]. apply list_eqb_eq in E. subst. split; [reflexivity|].
    intros k Hk. lia.
  - destruct (index_of v games) as [j'|]; [|discriminate].
    intros [= <-]. destruct (IH j' eq_refl) as [Hn Hfirst].
    split; [exact Hn|]. intros [|k] Hk; cbn.
    + intros [= ->]. rewrite (proj2 (list_eqb_eq v v) eq_refl) in E.
      discriminate.
    + apply Hfirst. lia.
Qed.

Lemma index_of_found (v : game) (games : list game) (i : nat) :
  nth_error games i = Some v ->
  exists j, index_of v games = Some j /\ (j <= i)%nat.
Proof.
  revert i. induction games as [|g games IH]; intros [|i]; cbn;
    try discriminate.
  - intros [= ->]. rewrite (proj2 (list_eqb_eq v v) eq_refl).
    exists 0%nat. split; [reflexivity | lia].
  - intros H. destruct (Py.list_eqb g v).
    + exists 0%nat. split; [reflexivity | lia].
    + destruct (IH i H) as (j & -> & Hj). exists (S j).
      split; [reflexivity | lia].
Qed.

Lemma nth_error_remove_at {A} (l : list A) (j k : nat) :
  nth_error (remove_at j l) k
  = nth_error l (if (k <? j)%nat then k else S k).
Proof.
  revert j k. induction l as [|a l IH]; intros j k.
  - destruct (k <? j)%nat; destruct j, k; reflexivity.
  - destruct j as [|j]; [reflexivity|].
    destruct k as [|k]; [reflexivity|].
    cbn [remove_at nth_error]. rewrite IH.
    change (S k <? S j)%nat with (k <? j)%nat.
    destruct (k <? j)%nat; reflexivity.
Qed.

Lemma Forall_remove_at {A} (P : A -> Prop) (l : list A) (j : nat) :
  Forall P l -> Forall P (remove_at j l).
Proof.
  intros H. revert j. induction H as [|a l Ha Hl IH]; intros [|j]; cbn;
    auto.
Qed.

Lemma nth_error_set_nth {A} (l : list A) (i k : nat) (x : A) :
  (i < length l)%nat ->
  nth_error (set_nth i x l) k
  = if (k =? i)%nat then Some x else nth_error l k.
Proof.
  revert i k. induction l as [|a l IH]; intros i k Hi; cbn in Hi; [lia|].
  destruct i as [|i], k as [|k]; cbn; try reflexivity.
  apply IH. lia.
Qed.

Lemma Forall_set_nth {A} (P : A -> Prop) (l : list A) (i : nat) (x : A) :
  Forall P l -> P x -> Forall P (set_nth i x l).
Proof.
  intros H Hx. revert i. induction H as [|a l Ha Hl IH]; intros [|i]; cbn;
    auto.
Qed.

Lemma py_pos_nat (n i : nat) :
  (i < n)%nat -> py_pos n (Z.of_nat i) = Ret i.
Proof.
  intros H. unfold py_pos.
  destruct (Z.of_nat i <? 0)%Z eqn:E; [lia|].
  replace ((0 <=? Z.of_nat i)%Z && (Z.of_nat i <? Z.of_nat n)%Z) with true
    by (symmetry; apply andb_true_iff; split; lia).
  now rewrite Nat2Z.id.
Qed.

(** [remove] on an object of the list: the first equal element goes. *)
Lemma remove_At (games : list game) (i : nat) (g : game) :
  nth_error games i = Some g ->
  exists j,
    index_of g games = Some j /\ (j <= i)%nat
    /\ remove games (At i)
       = Ret (remove_at j games,
              if (i =? j)%nat then Off g else At (i - 1)).
Proof.
  intros H. destruct (index_of_found g games i H) as (j & Hj & Hle).
  exists j. repeat split; trivial.
  unfold remove. cbn [deref]. unfold item. rewrite H. cbn [rbind].
  rewrite Hj. destruct (i =? j)%nat eqn:E; [reflexivity|].
  apply Nat.eqb_neq in E.
  replace (j <? i)%nat with true by (symmetry; apply Nat.ltb_lt; lia).
  reflexivity.
Qed.

(** ** Running the posts and the rewrite *)

Lemma bind_run {A B} (c : M A) (f : A -> M B) (w w1 : world) (a : A) :
  c w = (Ret a, w1) -> bind c f w = f a w1.
Proof. intros H. unfold bind. now rewrite H. Qed.

Lemma perform_run (e : event) (w : world) :
  perform e w = (Ret tt, emit_all [e] w).
Proof. reflexivity. Qed.

Lemma for_each_perform {A} (l : list A) (f : A -> event) (w : world) :
  for_each l (fun a => perform (f a)) w = (Ret tt, emit_all (map f l) w).
Proof.
  revert w. induction l as [|a l IH]; intros w; [reflexivity|].
  cbn [for_each map]. rewrite (bind_run _ _ _ _ _ (perform_run (f a) w)).
  rewrite IH. reflexivity.
Qed.

Lemma two_fields_items (g : game) :
  two_fields g = true ->
  item g 0 = Ret (nth 0 g "") /\ item g 1 = Ret (nth 1 g "").
Proof.
  destruct g as [|a [|b r]]; cbn; try discriminate. auto.
Qed.

Lemma write_lines_run (games : list game) :
  Forall (fun g => two_fields g = true) games ->
  forall w,
    for_each games (fun game =>
      user <- lift (item game 0) ;;
      history <- lift (item game 1) ;;
      perform (WriteGames (user ++ "," ++ history ++ nl))) w
    = (Ret tt, emit_all (map (fun g => WriteGames (line_of g)) games) w).
Proof.
  induction 1 as [|g games Hg Hgames IH]; intros w; [reflexivity|].
  cbn [for_each map]. destruct (two_fields_items g Hg) as [H0 H1].
  unfold bind at 1. unfold bind at 1. unfold lift at 1. rewrite H0.
  unfold bind at 1. unfold lift at 1. rewrite H1.
  unfold perform at 1. rewrite IH. reflexivity.
Qed.

Section WithLib.
Context {lib : ChessLib}.

Lemma write_games_run (games : list game) (w : world) :
  Forall (fun g => two_fields g = true) games ->
  write_games games w = (Ret tt, emit_all (save_effects games) w).
Proof.
  intros H. unfold write_games.
  rewrite (bind_run _ _ _ _ _ (perform_run OpenGamesForWrite w)).
  rewrite write_lines_run by exact H. reflexivity.
Qed.

Lemma game_over_block_run (m : mention) (l : locals) (g : game)
    (history : string) (w : world) :
  game_over l = true ->
  deref (list_of_games l) (curr_game l) = Ret g ->
  nth_error g 1 = Some history ->
  game_over_block m l w = (Ret tt, emit_all (game_over_posts m history) w).
Proof.
  intros Hover Hg Hh. unfold game_over_block. rewrite Hover.
  unfold bind at 1. unfold lift at 1. rewrite Hg.
  unfold bind at 1. unfold lift at 1. unfold item. rewrite Hh.
  unfold update_status.
  rewrite (bind_run _ _ _ _ _ (perform_run _ w)).
  rewrite (bind_run _ _ _ _ _ (perform_run _ _)).
  rewrite (for_each_perform _
             (fun a => UpdateStatus ("@" ++ screen_name m ++ " " ++ a) (id m))).
  reflexivity.
Qed.

Lemma game_over_block_skip (m : mention) (l : locals) (w : world) :
  game_over l = false -> game_over_block m l w = (Ret tt, w).
Proof. intros H. unfold game_over_block. now rewrite H. Qed.

End WithLib.

End RunFacts.

(* ===================================================================== *)
(** * Resignation *)
(* ===================================================================== *)

Module ResignFacts.
Import Bot Laws PyFacts MoveFacts StoreFacts EffectFacts RunFacts.

Lemma deref_after_remove (games : list game) (i j : nat) (g : game) :
  nth_error games i = Some g -> (j <= i)%nat ->
  deref (remove_at j games) (if (i =? j)%nat then Off g else At (i - 1))
  = Ret g.
Proof.
  intros H Hle. destruct (i =? j)%nat eqn:E; [reflexivity|].
  apply Nat.eqb_neq in E. cbn [deref]. unfold item.
  rewrite nth_error_remove_at.
  replace (i - 1 <? j)%nat with false by (symmetry; apply Nat.ltb_ge; lia).
  replace (S (i - 1)) with i by lia. now rewrite H.
Qed.

Lemma unique_first_index (games : list game) (i j : nat) (g : game) :
  one_game_per_user games ->
  nth_error games i = Some g -> index_of g games = Some j -> j = i.
Proof.
  intros Hu Hi Hj. apply index_of_spec in Hj as [Hj _].
  unfold one_game_per_user in Hu. rewrite NoDup_nth_error in Hu.
  apply Hu.
  - rewrite length_map. apply nth_error_Some. congruence.
  - rewrite !nth_error_map, Hi, Hj. reflexivity.
Qed.

Lemma no_match_after_remove (name : string) (games : list game) (i : nat) :
  one_game_per_user games -> last_match name games i ->
  no_match name (remove_at i games).
Proof.
  intros Hu [(g & Hi & _ & Hname) _] k g' Hk Hsame.
  rewrite nth_error_remove_at in Hk.
  unfold one_game_per_user in Hu. rewrite NoDup_nth_error in Hu.
  assert (E : (if (k <? i)%nat then k else S k) = i).
  { apply Hu.
    - rewrite length_map. apply nth_error_Some. congruence.
    - rewrite !nth_error_map, Hi, Hk. cbn. congruence. }
  destruct (k <? i)%nat eqn:C.
  - apply Nat.ltb_lt in C. lia.
  - apply Nat.ltb_ge in C. lia.
Qed.

Section WithLib.
Context {lib : ChessLib}.

Lemma hashtags_resign_none (m : mention) (games : list game) (w : world) :
  Py.contains "#resign" (Py.lower (full_text m)) = true ->
  hashtags m games (-1) w
  = (Ret {| make_a_move := false; game_over := false;
            list_of_games := games; curr_game := Unbound |},
     emit_all [good_game m] w).
Proof. intros H. unfold hashtags. rewrite H. reflexivity. Qed.

Lemma hashtags_resign_found (m : mention) (games : list game) (i : nat)
    (g : game) (w : world) :
  Py.contains "#resign" (Py.lower (full_text m)) = true ->
  nth_error games i = Some g ->
  exists j,
    index_of g games = Some j /\ (j <= i)%nat
    /\ hashtags m games (Z.of_nat i) w
       = (Ret {| make_a_move := false; game_over := true;
                 list_of_games := remove_at j games;
                 curr_game := if (i =? j)%nat then Off g else At (i - 1) |},
          emit_all [good_game m] w).
Proof.
  intros H Hi. destruct (remove_At games i g Hi) as (j & Hj & Hle & Hrm).
  exists j. repeat split; trivial.
  unfold hashtags. rewrite H.
  replace (negb (Z.of_nat i =? -1)%Z) with true
    by (symmetry; apply negb_true_iff, Z.eqb_neq; lia).
  unfold bind at 1. unfold bind at 1. unfold lift at 1.
  rewrite py_pos_nat by (apply nth_error_Some; congruence).
  unfold bind at 1. unfold lift at 1. rewrite Hrm.
  reflexivity.
Qed.

Lemma finish_no_move (m : mention) (l : locals) (w : world) :
  make_a_move l = false ->
  finish m l w
  = (game_over_block m l ;;; write_games (list_of_games l) ;;; ret l) w.
Proof.
  intros H. unfold finish, move_block. rewrite H. reflexivity.
Qed.

(** One pass with the resign marker in the text of the mention, in
    whatever case and whatever else the text holds: the pass returns
    with [make_a_move] false, so that no move is looked for or applied;
    the effects are the reply, the posts at the end of a game when the
    user had one in the list read, and the rewrite of [games.txt] (no
    image, no call to the engine); the list in memory, whose text goes
    to the file object, is the list read less the user's game when
    there was one. *)
Lemma resign_pass (m : mention) (w : world) :
  Py.contains "#resign" (Py.lower (full_text m)) = true ->
  Forall (fun g => two_fields g = true) (parse_games (games_txt w)) ->
  exists l w',
    handle m w = (Ret l, w')
    /\ make_a_move l = false
    /\ f_buffer w' = Some (text_of (list_of_games l))
    /\ ((no_match (screen_name m) (parse_games (games_txt w))
         /\ list_of_games l = parse_games (games_txt w)
         /\ effects w'
            = (effects w ++ good_game m :: save_effects (list_of_games l))%list)
        \/ exists i g history j,
            last_match (screen_name m) (parse_games (games_txt w)) i
            /\ nth_error (parse_games (games_txt w)) i = Some g
            /\ nth_error g 1 = Some history
            /\ index_of g (parse_games (games_txt w)) = Some j
            /\ list_of_games l = remove_at j (parse_games (games_txt w))
            /\ effects w'
               = (effects w ++ good_game m :: game_over_posts m history
                    ++ save_effects (list_of_games l))%list)
    /\ (one_game_per_user (parse_games (games_txt w)) ->
        no_match (screen_name m) (list_of_games l)).
Proof.
  intros Hres Htwo. set (games := parse_games (games_txt w)) in *.
  unfold handle. unfold bind at 1. unfold read_games at 1.
  cbv zeta. fold games.
  destruct (find_game_spec (screen_name m) games)
    as [[Hf Hno] | (i & Hf & Hlast)];
    [apply parse_games_nonempty | |];
    unfold bind at 1; unfold lift at 1; rewrite Hf.
  - (* no game of the user *)
    rewrite (bind_run _ _ _ _ _ (hashtags_resign_none m games w Hres)).
    rewrite finish_no_move by reflexivity.
    erewrite bind_run by (apply game_over_block_skip; reflexivity).
    cbn [list_of_games].
    rewrite (bind_run _ _ _ _ _ (write_games_run games _ Htwo)).
    eexists _, _. split; [reflexivity|]. cbn [make_a_move list_of_games].
    split; [reflexivity|]. split; [apply games_txt_save|]. split; [|auto].
    left. rewrite <- emit_all_app, effects_emit_all. auto.
  - (* the game of the user is at [i] *)
    destruct Hlast as [(g & Hi & Hne & Hname) Hlater].
    destruct (hashtags_resign_found m games i g w Hres Hi)
      as (j & Hj & Hle & Hrun).
    rewrite (bind_run _ _ _ _ _ Hrun).
    assert (Hg2 : two_fields g = true).
    { rewrite Forall_forall in Htwo. apply Htwo.
      eapply nth_error_In; eassumption. }
    destruct (two_fields_items g Hg2) as [_ H1].
    unfold item in H1. destruct (nth_error g 1) as [history|] eqn:Hh;
      [|discriminate].
    rewrite finish_no_move by reflexivity.
    erewrite bind_run
      by (apply (game_over_block_run m _ g history);
          [ reflexivity
          | exact (deref_after_remove games i j g Hi Hle)
          | exact Hh ]).
    cbn [list_of_games].
    rewrite (bind_run _ _ _ _ _
               (write_games_run (remove_at j games) _
                  (Forall_remove_at _ _ _ Htwo))).
    eexists _, _. split; [reflexivity|]. cbn [make_a_move list_of_games].
    split; [reflexivity|]. split; [apply games_txt_save|]. split.
    + right. exists i, g, history, j.
      rewrite <- !emit_all_app, effects_emit_all.
      repeat split; auto. exists g. auto.
    + intros Hu.
      assert (j = i) by (eapply unique_first_index; eassumption). subst j.
      apply no_match_after_remove; [exact Hu|].
      split; [exists g; auto | exact Hlater].
Qed.

End WithLib.

(** C3. The resign marker in a cycle of two mentions.  [games.txt]
    holds one game, Bob's.  The platform gives a mention of Alice, who
    has no game, and a mention of Bob with the resign marker.  The pass
    for Bob takes the resign branch and replies, but it has read an
    empty file, for the rewrite of the pass for Alice is still with the
    file object: it finds no game of Bob, takes nothing out of the list
    and posts no end of game.  When [main] ends, the file holds Bob's
    game, and the search finds it as before.  The same mention of Bob,
    alone in its cycle, leaves the file without the game.  None of these
    passes calls a chess function: the run is the same for every chess
    library. *)
Theorem resign_in_a_cycle_leaves_the_game (lib : ChessLib) :
  let store := "bob,e4 e5 " ++ nl in
  let hello := Toy.tweet 101 "alice" "@bot hello" in
  let resign := Toy.tweet 102 "bob" "@bot #resign" in
  let run := @main lib (fun _ => [resign; hello]) (Toy.world0 store) in
  find_game "bob" (parse_games store) = Ret 0%Z
  /\ fst run = Ret tt
  /\ effects (snd run)
     = [ WriteLastSeen 101;
         UpdateStatus
           "@alice Include #startgame if you would like to start a game." 101;
         OpenGamesForWrite;
         WriteGames ("bob,e4 e5" ++ nl);
         WriteLastSeen 102;
         good_game resign;
         OpenGamesForWrite ]
  /\ games_txt (snd run) = "bob,e4 e5" ++ nl
  /\ find_game "bob" (parse_games (games_txt (snd run))) = Ret 0%Z
  /\ games_txt (snd (@main lib (fun _ => [resign]) (Toy.world0 store))) = "".
Proof. repeat split; vm_compute; reflexivity. Qed.

End ResignFacts.

(* ===================================================================== *)
(** * The move of the player and the end of a game *)
(* ===================================================================== *)

Module MateFacts.
Import Bot Laws PyFacts MoveFacts StoreFacts EffectFacts RunFacts CursorFacts.
Import ResignFacts.

Section WithLib.
Context {lib : ChessLib}.

Lemma apply_player_move_true (h : list string) (mv : string)
    (h' : list string) :
  apply_player_move h mv = Ret (true, h') ->
  h' = (h ++ [mv])%list
  /\ exists b moves,
       push_pgn h = Ret b /\ possible_moves b = Ret moves /\ In mv moves.
Proof.
  unfold apply_player_move.
  destruct (push_pgn h) as [b|e]; cbn [rbind]; [|discriminate].
  destruct (possible_moves b) as [moves|e] eqn:Hm; cbn [rbind];
    [|discriminate].
  destruct (Py.mem mv moves) eqn:E; cbn [negb]; [|discriminate].
  intros [= <-]. split; [reflexivity|].
  exists b, moves. repeat split; trivial. now apply mem_In.
Qed.

Lemma apply_player_move_false (h : list string) (mv : string)
    (h' : list string) :
  apply_player_move h mv = Ret (false, h') -> h' = h.
Proof.
  unfold apply_player_move.
  destruct (push_pgn h) as [b|e]; cbn [rbind]; [|discriminate].
  destruct (possible_moves b) as [moves|e]; cbn [rbind]; [|discriminate].
  destruct (Py.mem mv moves); cbn [negb]; [discriminate|].
  now intros [= <-].
Qed.

Lemma end_game_At (l : locals) (i : nat) (g : game) :
  curr_game l = At i ->
  nth_error (list_of_games l) i = Some g ->
  one_game_per_user (list_of_games l) ->
  end_game l
  = Ret {| make_a_move := make_a_move l; game_over := true;
           list_of_games := remove_at i (list_of_games l);
           curr_game := Off g |}.
Proof.
  intros Hc Hi Hu. unfold end_game. rewrite Hc.
  destruct (remove_At _ i g Hi) as (j & Hj & _ & Hrm).
  assert (j = i) by (eapply unique_first_index; eassumption). subst j.
  rewrite Hrm. cbn [rbind]. now rewrite Nat.eqb_refl.
Qed.

Lemma snoc_nonempty {A} (l : list A) (x : A) : (l ++ [x])%list <> [].
Proof. destruct l; discriminate. Qed.

Lemma nonempty_length (s : string) :
  s <> "" -> (0 <? String.length s)%nat = true.
Proof. destruct s; [congruence | reflexivity]. Qed.

Lemma move_block_on (m : mention) (l : locals) (w : world) :
  make_a_move l = true ->
  move_block m l w
  = (' (l, move_history) <- exchange m l ;;
     lift (record_history l move_history)) w.
Proof. intros H. unfold move_block. now rewrite H. Qed.

Lemma with_history_item1 (g : game) (s : string) :
  two_fields g = true ->
  set_item1 g s = Ret (with_history g s)
  /\ nth_error (with_history g s) 1 = Some s
  /\ two_fields (with_history g s) = true.
Proof. destruct g as [|a [|b r]]; cbn; try discriminate. auto. Qed.

End WithLib.

End MateFacts.

(* ===================================================================== *)
(** * What a pass ensures *)
(* ===================================================================== *)

Module EnsuresFacts.
Import Bot Laws.

Lemma ensures_ret {A} (a : A) (w : world) Q E :
  Q a w -> ensures (ret a) w Q E.
Proof. intros H. exact H. Qed.

Lemma ensures_raise {A} (e : exn) (w : world) (Q : A -> world -> Prop) E :
  E w -> ensures (raise e) w Q E.
Proof. intros H. exact H. Qed.

Lemma ensures_lift {A} (r : res A) (w : world) Q E :
  (forall a, r = Ret a -> Q a w) -> (forall e, r = Exc e -> E w) ->
  ensures (lift r) w Q E.
Proof.
  intros HQ HE. unfold ensures, lift. destruct r; eauto.
Qed.

Lemma ensures_perform (e : event) (w : world) Q E :
  Q tt (apply_event e w) -> ensures (perform e) w Q E.
Proof. intros H. exact H. Qed.

Lemma ensures_read_games (w : world) Q E :
  Q (games_txt w) w -> ensures read_games w Q E.
Proof. intros H. exact H. Qed.

Lemma ensures_bind {A B} (c : M A) (f : A -> M B) (w : world) Q E :
  ensures c w (fun a w1 => ensures (f a) w1 Q E) E ->
  ensures (bind c f) w Q E.
Proof.
  intros H. unfold ensures in *. unfold bind.
  destruct (c w) as [[a|e] w1]; exact H.
Qed.

Lemma ensures_weaken {A} (c : M A) (w : world)
    (Q Q' : A -> world -> Prop) (E E' : world -> Prop) :
  ensures c w Q E ->
  (forall a w', Q a w' -> Q' a w') -> (forall w', E w' -> E' w') ->
  ensures c w Q' E'.
Proof.
  intros H HQ HE. unfold ensures in *.
  destruct (c w) as [[a|e] w1]; auto.
Qed.

Lemma ensures_run {A} (c : M A) (w : world) Q E (a : A) (w' : world) :
  ensures c w Q E -> c w = (Ret a, w') -> Q a w'.
Proof.
  intros H Hrun. unfold ensures in H. now rewrite Hrun in H.
Qed.

Lemma ensures_for_each {A} (l : list A) (f : A -> M unit)
    (I : world -> Prop) (E : world -> Prop) :
  (forall a w, I w -> ensures (f a) w (fun _ w' => I w') E) ->
  forall w, I w -> ensures (for_each l f) w (fun _ w' => I w') E.
Proof.
  intros Hf. induction l as [|a l IH]; intros w Hw; cbn [for_each].
  - exact Hw.
  - apply ensures_bind. eapply ensures_weaken.
    + apply Hf. exact Hw.
    + intros u w' Hw'. apply IH. exact Hw'.
    + auto.
Qed.

Ltac ens_step :=
  lazymatch goal with
  | |- ensures (ret _) _ _ _ => apply ensures_ret
  | |- ensures (raise _) _ _ _ => apply ensures_raise
  | |- ensures (lift _) _ _ _ =>
      apply ensures_lift; [intros ? ? | intros ? ?]
  | |- ensures (perform _) _ _ _ => apply ensures_perform
  | |- ensures read_games _ _ _ => apply ensures_read_games
  | |- ensures (bind _ _) _ _ _ => apply ensures_bind
  | |- ensures (for_each _ _) _ _ _ =>
      apply ensures_for_each; [intros ? ? ?|]
  | |- ensures (if ?b then _ else _) _ _ _ => destruct b eqn:?
  | |- ensures (match ?p with _ => _ end) _ _ _ => destruct p eqn:?
  end; cbv beta.

Ltac ens := repeat ens_step.

End EnsuresFacts.

(* ===================================================================== *)
(** * The history after the move block *)
(* ===================================================================== *)

Module RecordFacts.
Import Bot Laws PyFacts MoveFacts StoreFacts EffectFacts RunFacts CursorFacts.
Import ResignFacts MateFacts EnsuresFacts.

Section WithLib.
Context {lib : ChessLib}.

(** The exchange leaves the variables as they were, or ends the game
    with a history that is not empty. *)
Lemma exchange_outcome (m : mention) (l : locals) (w : world) :
  ensures (exchange m l) w
    (fun r _ => fst r = l \/ (end_game l = Ret (fst r) /\ snd r <> []))
    (fun _ => True).
Proof.
  unfold exchange, move_or_not, after_player_move, apply_bot_move,
    create_board_image, update_with_media.
  cbv zeta. ens.
  all: try exact I.
  all: cbn [fst snd]; auto.
  all: right; split; [assumption|].
  - apply apply_player_move_true in H1 as [-> _]. apply snoc_nonempty.
  - apply snoc_nonempty.
Qed.

Lemma remove_At_unique (games : list game) (i : nat) (g : game) :
  nth_error games i = Some g -> one_game_per_user games ->
  remove games (At i) = Ret (remove_at i games, Off g).
Proof.
  intros Hi Hu. destruct (remove_At _ i g Hi) as (j & Hj & _ & Hrm).
  assert (j = i) by (eapply unique_first_index; eassumption). subst j.
  rewrite Hrm. now rewrite Nat.eqb_refl.
Qed.

Lemma not_in_after_remove (games : list game) (i : nat) (g : game) :
  nth_error games i = Some g -> one_game_per_user games ->
  ~ In g (remove_at i games).
Proof.
  intros Hi Hu Hin. apply In_nth_error in Hin as [k Hk].
  rewrite nth_error_remove_at in Hk.
  unfold one_game_per_user in Hu. rewrite NoDup_nth_error in Hu.
  assert (E : (if (k <? i)%nat then k else S k) = i).
  { apply Hu.
    - rewrite length_map. apply nth_error_Some. congruence.
    - rewrite !nth_error_map, Hi, Hk. reflexivity. }
  destruct (k <? i)%nat eqn:C.
  - apply Nat.ltb_lt in C. lia.
  - apply Nat.ltb_ge in C. lia.
Qed.

Lemma length_eqb_0 {A} (l : list A) :
  (length l =? 0)%nat = match l with [] => true | _ => false end.
Proof. destruct l; reflexivity. Qed.

(** After the exchange of moves of a pass that reached the move block:
    when [move_history] is empty the game of the user leaves the list in
    memory; otherwise the history of the game becomes
    [pgn_list_to_string move_history], in the list when the game goes
    on, and on the game taken out of the list when the exchange ended
    it.  The text of the list goes to the file object. *)
Lemma history_recorded (m : mention) (l : locals)
    (w : world) (i : nat) (g : game)
    (l1 : locals) (move_history : list string) (w1 : world) :
  make_a_move l = true ->
  game_over l = false ->
  curr_game l = At i ->
  nth_error (list_of_games l) i = Some g ->
  Forall (fun g => two_fields g = true) (list_of_games l) ->
  one_game_per_user (list_of_games l) ->
  exchange m l w = (Ret (l1, move_history), w1) ->
  exists l' w',
    finish m l w = (Ret l', w')
    /\ f_buffer w' = Some (text_of (list_of_games l'))
    /\ (move_history = [] ->
        list_of_games l' = remove_at i (list_of_games l)
        /\ ~ In g (list_of_games l'))
    /\ (move_history <> [] ->
        deref (list_of_games l') (curr_game l')
        = Ret (with_history g (Codec.pgn_list_to_string move_history))
        /\ (game_over l1 = false ->
            list_of_games l'
            = set_nth i
                (with_history g (Codec.pgn_list_to_string move_history))
                (list_of_games l))
        /\ (game_over l1 = true ->
            list_of_games l' = remove_at i (list_of_games l))).
Proof.
  intros Hmk Hgo Hc Hi Htwo Hu Hex.
  assert (Hg2 : two_fields g = true).
  { rewrite Forall_forall in Htwo. apply Htwo.
    eapply nth_error_In; eassumption. }
  set (s := Codec.pgn_list_to_string move_history).
  destruct (with_history_item1 g s Hg2) as (Hset & Hnth & Hg2').
  pose proof (ensures_run _ _ _ _ _ _ (exchange_outcome m l w) Hex) as Hout.
  cbn [fst snd] in Hout.
  unfold finish. unfold bind at 1. rewrite move_block_on by exact Hmk.
  rewrite (bind_run _ _ _ _ _ Hex). unfold lift at 1.
  destruct Hout as [-> | [Hend Hne]].
  - (* the game goes on *)
    unfold record_history. rewrite length_eqb_0, Hc.
    destruct move_history as [|mv mh].
    + rewrite (remove_At_unique _ i g Hi Hu). cbn [rbind].
      erewrite bind_run by (apply game_over_block_skip; exact Hgo).
      cbn [list_of_games].
      rewrite (bind_run _ _ _ _ _
                 (write_games_run (remove_at i (list_of_games l)) _
                    (Forall_remove_at _ _ _ Htwo))).
      eexists _, _. split; [reflexivity|]. cbn [list_of_games curr_game].
      split; [apply games_txt_save|]. split; [|congruence].
      intros _. split; [reflexivity|]. now apply not_in_after_remove.
    + cbn [assign1]. unfold item at 1. rewrite Hi. cbn [rbind].
      fold s. rewrite Hset. cbn [rbind].
      erewrite bind_run by (apply game_over_block_skip; exact Hgo).
      cbn [list_of_games].
      rewrite (bind_run _ _ _ _ _
                 (write_games_run _ _
                    (Forall_set_nth _ _ i _ Htwo Hg2'))).
      eexists _, _. split; [reflexivity|]. cbn [list_of_games curr_game].
      split; [apply games_txt_save|]. split; [discriminate|].
      intros _. split; [|split; [reflexivity | congruence]].
      cbn [deref]. unfold item.
      rewrite nth_error_set_nth by (apply nth_error_Some; congruence).
      now rewrite Nat.eqb_refl.
  - (* the exchange ended the game *)
    rewrite (end_game_At l i g Hc Hi Hu) in Hend. injection Hend as <-.
    unfold record_history. rewrite length_eqb_0.
    destruct move_history as [|mv mh]; [congruence|].
    cbn [list_of_games curr_game assign1]. fold s. rewrite Hset.
    cbn [rbind].
    erewrite bind_run
      by (apply (game_over_block_run m _ (with_history g s) s);
          [reflexivity | reflexivity | exact Hnth]).
    cbn [list_of_games].
    rewrite (bind_run _ _ _ _ _
               (write_games_run (remove_at i (list_of_games l)) _
                  (Forall_remove_at _ _ _ Htwo))).
    eexists _, _. split; [reflexivity|]. cbn [list_of_games curr_game game_over].
    split; [apply games_txt_save|]. split; [discriminate|].
    intros _. split; [reflexivity|]. split; [discriminate | reflexivity].
Qed.

End WithLib.

(** C7. The record of a history in a cycle of two mentions.
    [games.txt] holds a game of Alice and a game of Bob.  The platform
    gives a mention of Alice without a move and a mention of Bob with
    the start marker and the move e4.  The pass for Bob reads an empty
    file, for the rewrite of the pass for Alice is still with the file
    object; it plays e4, gets e5 from the engine and writes one line,
    Bob's game with the history of the two moves.  When [main] ends,
    that line is written over the beginning of the text of the first
    pass: the file holds Bob's new game, what is left of Alice's line,
    which has no comma, and Bob's old game; the search for Bob ends on
    the old game, whose history is the one that was stored before.  The
    history of the turn has not replaced it. *)
Theorem new_history_in_a_cycle_is_hidden :
  let store := "alice,f3 e5 " ++ nl ++ "bob,d4 d5 " ++ nl in
  let hi := Toy.tweet 101 "alice" "@bot hi" in
  let start := Toy.tweet 102 "bob" "@bot #startgame captures e4" in
  let run := @main Toy.lib (fun _ => [start; hi]) (Toy.world0 store) in
  parse_games store = [["alice"; "f3 e5"]; ["bob"; "d4 d5"]]
  /\ fst run = Ret tt
  /\ effects (snd run)
     = [ WriteLastSeen 101;
         HttpGet (@image_url Toy.lib ["f3"; "e5"]) "board.jpg";
         UpdateWithMedia "board.jpg" "@alice You need to make a move." 101;
         OsRemove "board.jpg";
         OpenGamesForWrite;
         WriteGames ("alice,f3 e5 " ++ nl);
         WriteGames ("bob,d4 d5" ++ nl);
         WriteLastSeen 102;
         EnginePopen;
         EnginePlay (@fen Toy.lib ["e4"]);
         HttpGet (@image_url Toy.lib ["e4"; "e5"]) "board.jpg";
         UpdateWithMedia "board.jpg" "@bob e5" 102;
         OsRemove "board.jpg";
         OpenGamesForWrite;
         WriteGames ("bob,e4 e5 " ++ nl) ]
  /\ games_txt (snd run)
     = "bob,e4 e5 " ++ nl ++ " " ++ nl ++ "bob,d4 d5" ++ nl
  /\ parse_games (games_txt (snd run))
     = [["bob"; "e4 e5"]; [""]; ["bob"; "d4 d5"]]
  /\ find_game "bob" (parse_games (games_txt (snd run))) = Ret 2%Z.
Proof. repeat split; vm_compute; reflexivity. Qed.

End RecordFacts.

(* ===================================================================== *)
(** * Writing the games and reading them back *)
(* ===================================================================== *)

Module FileFacts.
Import Bot Laws PyFacts MoveFacts.

(** ** [strip] *)

Lemma lstrip_app_nonspace (a : string) (c : ascii) (r : string) :
  Py.isspace c = false ->
  Py.lstrip (a ++ String c r) = Py.lstrip a ++ String c r.
Proof.
  intros Hc. induction a as [|x a IH]; cbn.
  - now rewrite Hc.
  - destruct (Py.isspace x); [exact IH | reflexivity].
Qed.

Lemma rstrip_cons_nonspace (c : ascii) (r : string) :
  Py.isspace c = false -> Py.rstrip (String c r) = String c (Py.rstrip r).
Proof.
  intros Hc. cbn. destruct (Py.rstrip r); [now rewrite Hc | reflexivity].
Qed.

Lemma rstrip_app_nonspace (a : string) (c : ascii) (r : string) :
  Py.isspace c = false ->
  Py.rstrip (a ++ String c r) = a ++ String c (Py.rstrip r).
Proof.
  intros Hc. induction a as [|x a IH].
  - now apply rstrip_cons_nonspace.
  - cbn [append Py.rstrip]. rewrite IH.
    destruct a; reflexivity.
Qed.

Lemma rstrip_spaces (b : string) :
  is_space_string b = true -> Py.rstrip b = "".
Proof.
  induction b as [|c b IH]; [reflexivity|]. cbn.
  intros H. apply andb_true_iff in H as [Hc Hb].
  now rewrite (IH Hb), Hc.
Qed.

Lemma rstrip_app_spaces (a b : string) :
  is_space_string b = true -> Py.rstrip (a ++ b) = Py.rstrip a.
Proof.
  intros Hb. induction a as [|x a IH].
  - cbn. now apply rstrip_spaces.
  - cbn [append Py.rstrip]. now rewrite IH.
Qed.

Lemma lstrip_spaces (b : string) :
  is_space_string b = true -> Py.lstrip b = "".
Proof.
  induction b as [|c b IH]; [reflexivity|]. cbn.
  intros H. apply andb_true_iff in H as [Hc Hb].
  rewrite Hc. auto.
Qed.

Lemma strip_app_spaces (a b : string) :
  is_space_string b = true -> Py.strip (a ++ b) = Py.strip a.
Proof.
  intros Hb. unfold Py.strip. induction a as [|x a IH].
  - cbn. now rewrite lstrip_spaces.
  - cbn [append Py.lstrip]. destruct (Py.isspace x); [exact IH|].
    change (String x (a ++ b)) with (String x a ++ b).
    now apply rstrip_app_spaces.
Qed.

Lemma all_chars_lstrip p (s : string) :
  all_chars p s = true -> all_chars p (Py.lstrip s) = true.
Proof.
  induction s as [|c s IH]; [reflexivity|]. cbn.
  intros H. destruct (Py.isspace c); [|exact H].
  apply andb_true_iff in H as [_ H]. auto.
Qed.

Lemma all_chars_rstrip p (s : string) :
  all_chars p s = true -> all_chars p (Py.rstrip s) = true.
Proof.
  induction s as [|c s IH]; [reflexivity|]. cbn.
  intros H. apply andb_true_iff in H as [Hc H]. specialize (IH H).
  destruct (Py.rstrip s).
  - destruct (Py.isspace c); cbn; [reflexivity | now rewrite Hc].
  - cbn in *. now rewrite Hc, IH.
Qed.

(** The text of a written line, stripped. *)
Lemma strip_line (g0 g1 : string) :
  Py.strip (g0 ++ "," ++ g1 ++ nl) = Py.lstrip g0 ++ "," ++ Py.rstrip g1.
Proof.
  unfold Py.strip.
  change (g0 ++ "," ++ g1 ++ nl) with (g0 ++ String "," (g1 ++ nl)).
  rewrite lstrip_app_nonspace by reflexivity.
  rewrite rstrip_app_nonspace by reflexivity.
  rewrite rstrip_app_spaces by reflexivity. reflexivity.
Qed.

(** ** [split] and [rstrip] *)

Lemma rstrip_head (s : string) (d : ascii) (r : string) :
  Py.rstrip s = String d r -> exists s', s = String d s'.
Proof.
  destruct s as [|c s]; cbn; [discriminate|].
  destruct (Py.rstrip s).
  - destruct (Py.isspace c); [discriminate|]. intros [= -> _]. eauto.
  - intros [= -> _]. eauto.
Qed.

Lemma split_spaces (s : string) :
  Py.rstrip s = "" -> Py.split s = [].
Proof.
  induction s as [|c s IH]; [reflexivity|]. cbn [Py.rstrip].
  destruct (Py.rstrip s) eqn:E.
  - destruct (Py.isspace c) eqn:Hc; [|discriminate].
    intros _. cbn [Py.split]. rewrite Hc. auto.
  - discriminate.
Qed.

Lemma rstrip_empty_head (s : string) (d : ascii) (s' : string) :
  Py.rstrip s = "" -> s = String d s' -> Py.isspace d = true.
Proof.
  intros H ->. cbn in H. destruct (Py.rstrip s'); [|discriminate].
  destruct (Py.isspace d); [reflexivity | discriminate].
Qed.

Lemma split_rstrip (s : string) : Py.split (Py.rstrip s) = Py.split s.
Proof.
  induction s as [|c s IH]; [reflexivity|].
  cbn [Py.rstrip]. destruct (Py.rstrip s) as [|d r] eqn:E.
  - (* nothing but white space follows *)
    pose proof (split_spaces s E) as Hs.
    destruct (Py.isspace c) eqn:Hc.
    + cbn [Py.split]. now rewrite Hc, Hs.
    + cbn [Py.split]. rewrite Hc. destruct s as [|d s']; [reflexivity|].
      rewrite (rstrip_empty_head _ d s' E eq_refl), Hs. reflexivity.
  - destruct (rstrip_head s d r E) as [s' ->].
    cbn [Py.split] in *. destruct (Py.isspace c); [exact IH|].
    destruct (Py.isspace d); now rewrite IH.
Qed.

Lemma split_tokens (s : string) :
  Forall (fun t => token_ok t = true) (Py.split s).
Proof.
  assert (H : forall s,
             Forall (fun t => token_ok t = true) (Py.split s)
             /\ forall w ws, Py.split s = w :: ws ->
                  all_chars (fun c => negb (Py.isspace c)) w = true).
  { clear s. induction s as [|c s [IH1 IH2]].
    - split; [constructor | discriminate].
    - cbn [Py.split]. destruct (Py.isspace c) eqn:Hc; [now split|].
      assert (Hone : token_ok (String c "") = true)
        by (unfold token_ok; cbn; now rewrite Hc).
      assert (Hall : all_chars (fun c => negb (Py.isspace c)) (String c "")
                     = true) by (cbn; now rewrite Hc).
      destruct s as [|d s'].
      + split; [repeat constructor; exact Hone|]. now intros w ws [= <- _].
      + destruct (Py.isspace d).
        * split; [constructor; [exact Hone | exact IH1]|].
          now intros w ws [= <- _].
        * destruct (Py.split (String d s')) as [|w ws] eqn:E.
          -- split; [repeat constructor; exact Hone|].
             now intros w ws [= <- _].
          -- pose proof (IH2 w ws eq_refl) as Hw.
             assert (Hcw : all_chars (fun c => negb (Py.isspace c))
                             (String c w) = true)
               by (cbn; now rewrite Hc, Hw).
             split.
             ++ constructor; [|now inversion IH1].
                unfold token_ok. cbn [String.eqb negb andb]. exact Hcw.
             ++ now intros w0 ws0 [= <- _]. }
  apply H.
Qed.

Lemma split_chars p (s : string) :
  all_chars p s = true ->
  Forall (fun t => all_chars p t = true) (Py.split s).
Proof.
  induction s as [|c s IH]; [constructor|]. cbn [all_chars].
  intros H. apply andb_true_iff in H as [Hc Hs]. specialize (IH Hs).
  assert (Hone : all_chars p (String c "") = true) by (cbn; now rewrite Hc).
  cbn [Py.split]. destruct (Py.isspace c); [exact IH|].
  destruct s as [|d s']; [repeat constructor; exact Hone|].
  destruct (Py.isspace d); [constructor; assumption|].
  destruct (Py.split (String d s')) as [|w ws];
    [repeat constructor; exact Hone|].
  inversion IH as [|? ? Hw Hws]; subst.
  constructor; [|exact Hws]. cbn. now rewrite Hc, Hw.
Qed.

(** ** Lines *)

Lemma not_newline_chars (c : ascii) :
  not_newline c = true ->
  Ascii.eqb c "010" = false /\ Ascii.eqb c "013" = false.
Proof.
  unfold not_newline. intros H. apply andb_true_iff in H as [H1 H2].
  now apply negb_true_iff in H1; apply negb_true_iff in H2.
Qed.

Lemma readlines_line (body rest : string) :
  all_chars not_newline body = true ->
  Py.readlines (body ++ nl ++ rest) = (body ++ nl) :: Py.readlines rest.
Proof.
  induction body as [|c body IH]; [reflexivity|]. cbn [all_chars].
  intros H. apply andb_true_iff in H as [Hc Hb].
  destruct (not_newline_chars c Hc) as [H1 H2].
  cbn [append Py.readlines]. rewrite H1, H2, (IH Hb). reflexivity.
Qed.

(** A line that the iteration gives holds a line feed at its end at
    most, and no carriage return. *)
Lemma readlines_lines (text line : string) :
  In line (Py.readlines text) ->
  exists body,
    all_chars not_newline body = true /\ (line = body ++ nl \/ line = body).
Proof.
  assert (H : forall n text, String.length text <= n ->
              forall line, In line (Py.readlines text) ->
              exists body,
                all_chars not_newline body = true
                /\ (line = body ++ nl \/ line = body)).
  { clear. induction n as [|n IH]; intros text Hlen line.
    - destruct text; [intros [] | cbn in Hlen; lia].
    - destruct text as [|c text]; [intros []|]. cbn [String.length] in Hlen.
      cbn [Py.readlines]. destruct (Ascii.eqb c "010") eqn:Hc.
      + intros [<- | Hin]; [|apply (IH text); [lia | exact Hin]].
        exists "". split; [reflexivity | now left].
      + destruct (Ascii.eqb c "013") eqn:Hr.
        * intros [<- | Hin]; [exists ""; split; [reflexivity | now left]|].
          destruct text as [|d text']; [destruct Hin|].
          cbn [String.length] in Hlen.
          destruct (Ascii.eqb d "010").
          -- apply (IH text'); [lia | exact Hin].
          -- apply (IH (String d text')); [cbn; lia | exact Hin].
        * assert (Hnl : not_newline c = true)
            by (unfold not_newline; now rewrite Hc, Hr).
          assert (Hrec : forall l, In l (Py.readlines text) ->
                    exists body,
                      all_chars not_newline body = true
                      /\ (l = body ++ nl \/ l = body))
            by (intros l; apply (IH text); lia).
          destruct (Py.readlines text) as [|l ls] eqn:E.
          -- intros [<- | []]. exists (String c "").
             split; [cbn; now rewrite Hnl | now right].
          -- intros [<- | Hin]; [|apply Hrec; now right].
             destruct (Hrec l (or_introl eq_refl)) as (body & Hb & [-> | ->]).
             ++ exists (String c body).
                split; [cbn; now rewrite Hnl, Hb | now left].
             ++ exists (String c body).
                split; [cbn; now rewrite Hnl, Hb | now right]. }
  apply (H (String.length text)). lia.
Qed.

Lemma strip_line_no_newline (text line : string) :
  In line (Py.readlines text) ->
  all_chars not_newline (Py.strip line) = true.
Proof.
  intros H. destruct (readlines_lines text line H) as (body & Hb & [-> | ->]).
  - rewrite strip_app_spaces by reflexivity.
    unfold Py.strip. now apply all_chars_rstrip, all_chars_lstrip.
  - unfold Py.strip. now apply all_chars_rstrip, all_chars_lstrip.
Qed.

(** ** [split] on the comma *)

Lemma prefix_comma (c : ascii) (s : string) :
  prefix "," (String c s) = Ascii.eqb c ",".
Proof.
  cbn [prefix]. destruct (ascii_dec "," c) as [<-|Hne].
  - now rewrite prefix_nil.
  - symmetry. apply Ascii.eqb_neq. congruence.
Qed.

Lemma split_go_comma (cur rest : string) :
  Py.split_go "," 0 cur (String "," rest) = cur :: Py.split_go "," 0 "" rest.
Proof. cbn [Py.split_go]. rewrite prefix_comma. reflexivity. Qed.

Lemma split_on_two_fields (a b : string) :
  all_chars not_comma a = true -> all_chars not_comma b = true ->
  Py.split_on "," (a ++ "," ++ b) = [a; b].
Proof.
  intros Ha Hb. unfold Py.split_on.
  rewrite (split_go_piece "" a) by exact Ha.
  change ("," ++ b) with (String "," b). rewrite split_go_comma.
  rewrite <- (app_nil_r b) at 1.
  rewrite (split_go_piece "" b) by exact Hb. reflexivity.
Qed.

Lemma all_chars_snoc p (s : string) (c : ascii) :
  all_chars p (s ++ String c "") = all_chars p s && p c.
Proof. rewrite all_chars_app. cbn. now rewrite andb_true_r. Qed.

(** The pieces are made of characters of the text. *)
Lemma split_go_chars p (sep s : string) :
  all_chars p s = true ->
  forall skip cur,
    all_chars p cur = true ->
    Forall (fun t => all_chars p t = true) (Py.split_go sep skip cur s).
Proof.
  induction s as [|c s IH]; intros Hs skip cur Hcur; cbn [Py.split_go].
  - repeat constructor. exact Hcur.
  - cbn [all_chars] in Hs. apply andb_true_iff in Hs as [Hc Hs].
    destruct skip; [|now apply IH].
    destruct (prefix sep (String c s)).
    + constructor; [exact Hcur | now apply IH].
    + apply IH; [exact Hs|]. now rewrite all_chars_snoc, Hcur, Hc.
Qed.

(** The pieces between commas hold no comma. *)
Lemma split_go_no_comma (s : string) :
  forall cur,
    all_chars not_comma cur = true ->
    Forall (fun t => all_chars not_comma t = true) (Py.split_go "," 0 cur s).
Proof.
  induction s as [|c s IH]; intros cur Hcur; cbn [Py.split_go].
  - repeat constructor. exact Hcur.
  - rewrite prefix_comma. destruct (Ascii.eqb c ",") eqn:Hc.
    + constructor; [exact Hcur|]. now apply IH.
    + apply IH. rewrite all_chars_snoc, Hcur. unfold not_comma.
      now rewrite Hc.
Qed.

Lemma field_ok_iff (s : string) :
  field_ok s = true
  <-> all_chars not_comma s = true /\ all_chars not_newline s = true.
Proof.
  unfold field_ok. induction s as [|c s IH]; cbn; [tauto|].
  unfold field_char at 1. rewrite !andb_true_iff, IH. tauto.
Qed.

(** The fields of the games read from a file are fields. *)
Lemma parse_games_fields (text : string) (g : game) (k : nat) (s : string) :
  In g (parse_games text) -> nth_error g k = Some s -> field_ok s = true.
Proof.
  intros Hg Hk. unfold parse_games in Hg.
  apply in_map_iff in Hg as (line & <- & Hline).
  apply nth_error_In in Hk. apply field_ok_iff. split.
  - pose proof (split_go_no_comma (Py.strip line) "" eq_refl) as H.
    rewrite Forall_forall in H. now apply H.
  - pose proof (split_go_chars not_newline "," (Py.strip line)
                  (strip_line_no_newline text line Hline) 0 "" eq_refl) as H.
    rewrite Forall_forall in H. now apply H.
Qed.

(** ** Reading back what was written *)

Lemma parse_line_of (g : game) :
  fields_ok g ->
  Py.split_on "," (Py.strip (line_of g)) = read_back g.
Proof.
  intros (_ & H0 & H1). unfold line_of. rewrite strip_line.
  apply field_ok_iff in H0 as [H0 _]. apply field_ok_iff in H1 as [H1 _].
  apply split_on_two_fields;
    [now apply all_chars_lstrip | now apply all_chars_rstrip].
Qed.

Lemma line_body_no_newline (g : game) :
  fields_ok g ->
  all_chars not_newline (nth 0 g "" ++ "," ++ nth 1 g "") = true.
Proof.
  intros (_ & H0 & H1).
  apply field_ok_iff in H0 as [_ H0]. apply field_ok_iff in H1 as [_ H1].
  rewrite !all_chars_app, H0, H1. reflexivity.
Qed.

Lemma parse_games_text_of (games : list game) :
  Forall fields_ok games ->
  parse_games (text_of games) = map read_back games.
Proof.
  induction 1 as [|g games Hg Hgames IH]; [reflexivity|].
  cbn [text_of map]. unfold parse_games in *.
  replace (line_of g ++ text_of games)
    with ((nth 0 g "" ++ "," ++ nth 1 g "") ++ nl ++ text_of games)
    by (unfold line_of; now rewrite !app_assoc).
  rewrite readlines_line by now apply line_body_no_newline.
  cbn [map]. rewrite IH. f_equal.
  replace ((nth 0 g "" ++ "," ++ nth 1 g "") ++ nl) with (line_of g)
    by (unfold line_of; now rewrite !app_assoc).
  now apply parse_line_of.
Qed.

(** ** A text written over another *)

Lemma parse_games_app (games : list game) (rest : string) :
  Forall fields_ok games ->
  parse_games (text_of games ++ rest)
  = (map read_back games ++ parse_games rest)%list.
Proof.
  induction 1 as [|g games Hg Hgames IH]; [reflexivity|].
  cbn [text_of map app]. unfold parse_games in *.
  replace ((line_of g ++ text_of games) ++ rest)
    with ((nth 0 g "" ++ "," ++ nth 1 g "") ++ nl ++ (text_of games ++ rest))
    by (unfold line_of; now rewrite !app_assoc).
  rewrite readlines_line by now apply line_body_no_newline.
  cbn [map]. rewrite IH. f_equal.
  replace ((nth 0 g "" ++ "," ++ nth 1 g "") ++ nl) with (line_of g)
    by (unfold line_of; now rewrite !app_assoc).
  now apply parse_line_of.
Qed.

Lemma drop_app (n : nat) (a b : string) :
  n <= String.length a -> Py.drop n (a ++ b) = Py.drop n a ++ b.
Proof.
  revert a. induction n as [|n IH]; intros a Hn; [reflexivity|].
  destruct a as [|c a]; cbn in Hn; [lia|].
  cbn [append Py.drop]. apply IH. lia.
Qed.

Lemma drop_app_beyond (n : nat) (a b : string) :
  String.length a <= n ->
  Py.drop n (a ++ b) = Py.drop (n - String.length a) b.
Proof.
  revert n. induction a as [|c a IH]; intros n Hn.
  - cbn. now rewrite Nat.sub_0_r.
  - destruct n as [|n]; cbn in Hn; [lia|].
    cbn [append Py.drop String.length Nat.sub]. apply IH. lia.
Qed.

Lemma all_chars_drop p (n : nat) (s : string) :
  all_chars p s = true -> all_chars p (Py.drop n s) = true.
Proof.
  revert s. induction n as [|n IH]; intros s H; [exact H|].
  destruct s as [|c s]; [reflexivity|]. cbn [Py.drop].
  cbn in H. apply andb_true_iff in H as [_ H]. auto.
Qed.

(** What is left of a written text beyond its first [n] characters:
    nothing, or the end of one line followed by whole lines. *)
Lemma drop_text_of (games : list game) (n : nat) :
  Py.drop n (text_of games) = ""
  \/ exists g k rest,
       In g games /\ incl rest games /\ k < String.length (line_of g)
       /\ Py.drop n (text_of games) = Py.drop k (line_of g) ++ text_of rest.
Proof.
  revert n. induction games as [|g games IH]; intros n.
  - left. apply EffectFacts.drop_nil.
  - cbn [text_of].
    destruct (Nat.lt_ge_cases n (String.length (line_of g))) as [Hlt | Hge].
    + right. exists g, n, games. split; [now left|].
      split; [intros x Hx; now right|]. split; [exact Hlt|].
      apply drop_app. lia.
    + rewrite drop_app_beyond by exact Hge.
      destruct (IH (n - String.length (line_of g)))
        as [-> | (g' & k & rest & Hin & Hincl & Hk & ->)]; [now left|].
      right. exists g', k, rest. split; [now right|].
      split; [intros x Hx; right; auto|]. split; [exact Hk | reflexivity].
Qed.

(** The end of a written line is the end of the name followed by the
    comma and the history, or the end of the history alone. *)
Lemma drop_line_of (g : game) (k : nat) :
  k < String.length (line_of g) ->
  (exists name,
     Py.drop k (line_of g) = name ++ "," ++ nth 1 g "" ++ nl
     /\ forall p, all_chars p (nth 0 g "") = true -> all_chars p name = true)
  \/ (exists moves,
        Py.drop k (line_of g) = moves ++ nl
        /\ forall p, all_chars p (nth 1 g "") = true
                     -> all_chars p moves = true).
Proof.
  unfold line_of. intros Hk.
  destruct (Nat.le_gt_cases k (String.length (nth 0 g ""))) as [Hle | Hgt].
  - left. exists (Py.drop k (nth 0 g "")). split.
    + now apply drop_app.
    + intros p. apply all_chars_drop.
  - right. rewrite drop_app_beyond by lia.
    remember (k - String.length (nth 0 g "")) as j eqn:Ej.
    destruct j as [|j]; [lia|].
    change ("," ++ nth 1 g "" ++ nl) with (String "," (nth 1 g "" ++ nl)).
    cbn [Py.drop]. exists (Py.drop j (nth 1 g "")). split.
    + apply drop_app. rewrite !length_app in Hk. cbn in Hk. lia.
    + intros p. apply all_chars_drop.
Qed.

Lemma split_on_no_comma (text : string) :
  all_chars not_comma text = true -> Py.split_on "," text = [text].
Proof.
  intros H. unfold Py.split_on. rewrite <- (app_nil_r text) at 1.
  rewrite (split_go_piece "" text) by exact H. reflexivity.
Qed.

(** ** The move found in the text *)

Lemma to_hash_no_hash (s : string) :
  all_chars not_hash (Py.to_hash s) = true.
Proof.
  induction s as [|c s IH]; [reflexivity|]. cbn [Py.to_hash].
  destruct (Ascii.eqb c "#") eqn:E; [reflexivity|].
  cbn [all_chars]. unfold not_hash at 1. now rewrite E, IH.
Qed.

(** The move that the pattern finds holds no [#]: a mating move written
    with its mark comes out of the text without it. *)
Lemma move_tried_no_hash (tweet_text : string) :
  all_chars not_hash (move_tried_of tweet_text) = true.
Proof.
  unfold move_tried_of.
  destruct (Py.findall_captures_0 tweet_text) as [found|] eqn:E;
    [|reflexivity].
  unfold Py.strip. apply all_chars_rstrip, all_chars_lstrip.
  clear -E. induction tweet_text as [|c s IH]; [discriminate|].
  cbn [Py.findall_captures_0] in E.
  destruct (prefix "captures " (String c s)).
  - injection E as <-. apply to_hash_no_hash.
  - auto.
Qed.

End FileFacts.

(* ===================================================================== *)
(** * The invariant of the store *)
(* ===================================================================== *)

Module InvariantFacts.
Import Bot Laws PyFacts MoveFacts StoreFacts EffectFacts RunFacts.
Import MateFacts EnsuresFacts FileFacts.

Section WithLib.
Context {lib : ChessLib}.

(** ** Games that keep the invariant *)

Lemma replays_nil : replays [].
Proof. exists new_board. reflexivity. Qed.

Lemma game_ok_new (name : string) :
  field_ok name = true -> game_ok [name; ""].
Proof.
  intros Hn. split; [|split].
  - intros h [= <-]. apply replays_nil.
  - now intros s [= <-].
  - now intros s [= <-].
Qed.

Lemma game_ok_set_item1 (g g' : game) (s : string) :
  game_ok g -> replays (Py.split s) -> field_ok s = true ->
  set_item1 g s = Ret g' -> game_ok g'.
Proof.
  intros (_ & H0 & _) Hr Hs. destruct g as [|a [|b r]]; cbn; try discriminate.
  intros [= <-]. split; [|split].
  - now intros h [= <-].
  - intros x [= <-]. now apply H0.
  - now intros x [= <-].
Qed.

Lemma history_ok_written (h : list string) :
  history_ok h ->
  replays (Py.split (Codec.pgn_list_to_string h))
  /\ field_ok (Codec.pgn_list_to_string h) = true.
Proof.
  intros [Hr Ht]. split.
  - unfold Codec.pgn_list_to_string. rewrite split_join_space; [exact Hr|].
    revert Ht. apply Forall_impl. tauto.
  - unfold Codec.pgn_list_to_string, field_ok.
    rewrite all_chars_app. apply andb_true_iff. split; [|reflexivity].
    apply all_chars_join; [reflexivity|].
    revert Ht. apply Forall_impl. intros t [Htok Hcom].
    apply field_ok_iff. split; [exact Hcom|].
    unfold token_ok in Htok. apply andb_true_iff in Htok as [_ Htok].
    revert Htok. apply all_chars_impl. intros c Hc.
    unfold not_newline.
    destruct (Ascii.eqb c "010") eqn:E;
      [apply Ascii.eqb_eq in E; subst c; discriminate|].
    destruct (Ascii.eqb c "013") eqn:E';
      [apply Ascii.eqb_eq in E'; subst c; discriminate|].
    reflexivity.
Qed.

Lemma history_ok_stored (g : game) (history : string) :
  game_ok g -> nth_error g 1 = Some history ->
  history_ok (Py.split history).
Proof.
  intros (Hs & _ & H1) Hh. split; [now apply Hs|].
  specialize (H1 _ Hh). apply field_ok_iff in H1 as [Hcom _].
  pose proof (split_tokens history) as Ht.
  pose proof (split_chars not_comma history Hcom) as Hc.
  rewrite Forall_forall in *. auto.
Qed.

Lemma history_ok_snoc (h : list string) (mv : string) (b : Board) :
  history_ok h -> san_ok mv = true ->
  push_pgn (h ++ [mv]) = Ret b -> history_ok (h ++ [mv]).
Proof.
  intros [_ Ht] Hmv Hb. split; [now exists b|].
  apply Forall_app. split; [exact Ht|]. constructor; [|constructor].
  split; [now apply san_ok_token|].
  unfold san_ok in Hmv. apply andb_true_iff in Hmv as [_ Hmv].
  revert Hmv. apply all_chars_impl. intros c Hc. unfold san_char in Hc.
  apply andb_true_iff in Hc as [Hc _]. now apply andb_true_iff in Hc as [_ Hc].
Qed.

Lemma parsed_games_ok (text : string) :
  store_ok (parse_games text) -> Forall game_ok (parse_games text).
Proof.
  unfold store_ok. rewrite !Forall_forall. intros H g Hg.
  split; [now apply H|].
  split; intros s Hs; eapply parse_games_fields; eassumption.
Qed.

(** ** The list operations keep it *)

Lemma item_Ret {A} (l : list A) (k : nat) (x : A) :
  item l k = Ret x -> nth_error l k = Some x.
Proof.
  unfold item. destruct (nth_error l k); [now intros [= ->] | discriminate].
Qed.

Lemma deref_ok (games : list game) (c : cur) (g : game) :
  Forall game_ok games -> cur_ok c -> deref games c = Ret g -> game_ok g.
Proof.
  intros Hg Hc. destruct c as [|i|g0]; cbn; [discriminate | |].
  - unfold item. destruct (nth_error games i) eqn:E; [|discriminate].
    intros [= <-]. rewrite Forall_forall in Hg.
    eapply Hg, nth_error_In, E.
  - now intros [= <-].
Qed.

Lemma remove_ok (games games' : list game) (c c' : cur) :
  Forall game_ok games -> cur_ok c ->
  remove games c = Ret (games', c') ->
  Forall game_ok games' /\ cur_ok c'.
Proof.
  intros Hg Hc. unfold remove.
  destruct (deref games c) as [v|e] eqn:Hv; cbn [rbind]; [|discriminate].
  pose proof (deref_ok _ _ _ Hg Hc Hv) as Hvok.
  destruct (index_of v games) as [j|]; [|discriminate].
  intros [= <- <-]. split; [now apply Forall_remove_at|].
  destruct c as [|i|g0]; [exact I | | exact Hc].
  destruct (i =? j)%nat; [exact Hvok|]. destruct (j <? i)%nat; exact I.
Qed.

Lemma assign1_ok (games games' : list game) (c c' : cur) (s : string) :
  Forall game_ok games -> cur_ok c ->
  replays (Py.split s) -> field_ok s = true ->
  assign1 games c s = Ret (games', c') ->
  Forall game_ok games' /\ cur_ok c'.
Proof.
  intros Hg Hc Hr Hs. destruct c as [|i|g0]; cbn [assign1]; [discriminate | |].
  - destruct (item games i) as [g|e] eqn:Hi; cbn [rbind]; [|discriminate].
    destruct (set_item1 g s) as [g'|e] eqn:Hset; cbn [rbind]; [|discriminate].
    intros [= <- <-]. split; [|exact I].
    apply Forall_set_nth; [exact Hg|].
    eapply game_ok_set_item1; try eassumption.
    eapply (deref_ok games (At i)); [exact Hg | exact I | exact Hi].
  - destruct (set_item1 g0 s) as [g'|e] eqn:Hset; cbn [rbind]; [|discriminate].
    intros [= <- <-]. split; [exact Hg|].
    eapply game_ok_set_item1; eassumption.
Qed.

Lemma end_game_ok (l l1 : locals) :
  Forall game_ok (list_of_games l) -> cur_ok (curr_game l) ->
  end_game l = Ret l1 ->
  Forall game_ok (list_of_games l1) /\ cur_ok (curr_game l1).
Proof.
  intros Hg Hc. unfold end_game.
  destruct (remove (list_of_games l) (curr_game l)) as [[games' c']|e] eqn:E;
    cbn [rbind]; [|discriminate].
  intros [= <-]. cbn. eapply remove_ok; eassumption.
Qed.

Lemma record_history_ok (l l2 : locals) (h : list string) :
  Forall game_ok (list_of_games l) -> cur_ok (curr_game l) ->
  history_ok h ->
  record_history l h = Ret l2 ->
  Forall game_ok (list_of_games l2) /\ cur_ok (curr_game l2).
Proof.
  intros Hg Hc Hh. unfold record_history.
  destruct (history_ok_written h Hh) as [Hr Hf].
  destruct (length h =? 0)%nat.
  - destruct (remove _ _) as [[games' c']|e] eqn:E; cbn [rbind];
      [|discriminate].
    intros [= <-]. cbn. eapply remove_ok; eassumption.
  - destruct (assign1 _ _ _) as [[games' c']|e] eqn:E; cbn [rbind];
      [|discriminate].
    intros [= <-]. cbn. eapply assign1_ok; eassumption.
Qed.

(** ** The chain of tests keeps it *)

Lemma hashtags_ok (m : mention) (games : list game) (gi : Z) (w : world) :
  field_ok (screen_name m) = true ->
  Forall game_ok games ->
  ensures (hashtags m games gi) w (fun l _ => locals_ok l) (fun _ => True).
Proof.
  intros Hname Hg.
  unfold hashtags, update_status, update_with_media, create_board_image.
  cbv zeta. ens.
  all: try exact I.
  all: unfold locals_ok; cbn [list_of_games curr_game cur_ok].
  all: try (split; [assumption | exact I]).
  - eapply (remove_ok games _ (At _) _ Hg I). eassumption.
  - eapply (assign1_ok games _ (At _) _ "" Hg I replays_nil eq_refl).
    eassumption.
  - split; [|exact I]. apply Forall_app. split; [exact Hg|].
    constructor; [now apply game_ok_new | constructor].
Qed.

(** ** The exchange of moves keeps it *)

Lemma possible_move_san_ok (laws : ChessLaws lib) (h : list string)
    (mv : string) (h' : list string) :
  (0 <? String.length mv)%nat = true ->
  apply_player_move h mv = Ret (true, h') ->
  h' = (h ++ [mv])%list /\ san_ok mv = true.
Proof.
  intros Hlen Happ.
  apply apply_player_move_true in Happ as (-> & b & moves & _ & Hm & Hin).
  split; [reflexivity|].
  rewrite (possible_moves_spec laws b) in Hm. injection Hm as <-.
  destruct (legal_sans b) as [|s0 ss] eqn:E.
  - destruct Hin as [<- | []]. discriminate.
  - apply (san_shape lib laws b). now rewrite E.
Qed.

Lemma exchange_ok (laws : ChessLaws lib) (m : mention) (l : locals)
    (w : world) :
  locals_ok l ->
  ensures (exchange m l) w
    (fun r _ => locals_ok (fst r) /\ history_ok (snd r))
    (fun _ => True).
Proof.
  intros [Hg Hc].
  unfold exchange, move_or_not, after_player_move, apply_bot_move,
    create_board_image, update_with_media.
  cbv zeta. ens.
  all: try exact I.
  all: cbn [fst snd].
  all: match goal with
       | Hd : deref _ _ = Ret ?g, Hi : item ?g 1 = Ret ?h |- _ =>
           pose proof (history_ok_stored g h (deref_ok _ _ _ Hg Hc Hd)
                         (item_Ret _ _ _ Hi)) as Hstored
       end.
  all: try match goal with
       | Hp : apply_player_move _ _ = Ret (true, _),
         Hl : (0 <? _)%nat = true |- _ =>
           destruct (possible_move_san_ok laws _ _ _ Hl Hp) as [-> Hsan]
       end.
  all: try match goal with
       | Hp : apply_player_move _ _ = Ret (false, _) |- _ =>
           apply apply_player_move_false in Hp; subst
       end.
  all: try match goal with
       | He : engine_play ?b = Some ?u, Hs : san_of_uci ?b ?u = Some ?s |- _ =>
           pose proof (san_shape lib laws b s (engine_legal lib laws b u s He Hs))
             as Hbot
       end.
  all: try match goal with
       | He : end_game ?l0 = Ret ?l1 |- _ =>
           pose proof (end_game_ok l0 l1 Hg Hc He) as Hended
       end.
  all: split; [first [exact Hended | split; assumption]|].
  all: eauto using history_ok_snoc.
Qed.

Lemma move_block_ok (laws : ChessLaws lib) (m : mention) (l : locals)
    (w : world) :
  locals_ok l ->
  ensures (move_block m l) w (fun l' _ => locals_ok l') (fun _ => True).
Proof.
  intros Hl. unfold move_block. destruct (make_a_move l); [|exact Hl].
  apply ensures_bind.
  eapply ensures_weaken; [apply (exchange_ok laws); exact Hl | | auto].
  intros [l1 h] w1 [[Hg Hc] Hh]. cbn [fst snd] in *.
  apply ensures_lift; [|auto].
  intros l2 Hrec. exact (record_history_ok l1 l2 h Hg Hc Hh Hrec).
Qed.

(** ** The file and the file object *)

Lemma emits_files {A} (c : M A) (w : world) :
  emits no_file_write c ->
  games_txt (snd (c w)) = games_txt w /\ f_buffer (snd (c w)) = f_buffer w.
Proof.
  intros H. destruct (H w) as (es & -> & Hes).
  apply games_txt_emit_all. rewrite forallb_forall in *.
  intros e He. specialize (Hes e He). unfold no_file_write in Hes.
  now apply andb_true_iff in Hes as [_ Hes].
Qed.

Lemma write_line_step (u h : string) (r : game) (games : list game)
    (w : world) :
  for_each ((u :: h :: r) :: games) (fun game =>
    user <- lift (item game 0) ;;
    history <- lift (item game 1) ;;
    perform (WriteGames (user ++ "," ++ history ++ nl))) w
  = for_each games (fun game =>
      user <- lift (item game 0) ;;
      history <- lift (item game 1) ;;
      perform (WriteGames (user ++ "," ++ history ++ nl)))
      (apply_event (WriteGames (u ++ "," ++ h ++ nl)) w).
Proof. reflexivity. Qed.

(** The lines written are those of the games of a first part of the
    list, all of them with two fields; they go to the file object. *)
Lemma write_lines_text (games : list game) :
  forall w,
  exists lines,
    incl lines games
    /\ Forall (fun g => two_fields g = true) lines
    /\ games_txt
         (snd (for_each games (fun game =>
                 user <- lift (item game 0) ;;
                 history <- lift (item game 1) ;;
                 perform (WriteGames (user ++ "," ++ history ++ nl))) w))
       = games_txt w
    /\ f_buffer
         (snd (for_each games (fun game =>
                 user <- lift (item game 0) ;;
                 history <- lift (item game 1) ;;
                 perform (WriteGames (user ++ "," ++ history ++ nl))) w))
       = option_map (fun held => held ++ text_of lines) (f_buffer w).
Proof.
  assert (Hnone : forall w : world,
            f_buffer w = option_map (fun held => held ++ text_of []) (f_buffer w)).
  { intros w. destruct (f_buffer w); cbn; [|reflexivity].
    now rewrite app_nil_r. }
  induction games as [|g games IH]; intros w.
  - exists []. cbn [for_each ret snd]. repeat split; auto. apply incl_refl.
  - destruct g as [|u [|h r]].
    + exists []. cbn. repeat split; auto. intros x [].
    + exists []. cbn. repeat split; auto. intros x [].
    + rewrite write_line_step.
      destruct (IH (apply_event (WriteGames (u ++ "," ++ h ++ nl)) w))
        as (lines & Hincl & Htwo & Htxt & Hbuf).
      exists ((u :: h :: r) :: lines). split; [|split; [|split]].
      * intros x [<- | Hx]; [now left | right; auto].
      * constructor; [reflexivity | exact Htwo].
      * rewrite Htxt. reflexivity.
      * rewrite Hbuf. cbn [apply_event f_buffer text_of].
        destruct (f_buffer w); cbn [option_map]; [|reflexivity].
        unfold line_of. cbn [nth]. now rewrite app_assoc.
Qed.

Lemma write_games_text (games : list game) (w : world) :
  exists lines,
    incl lines games
    /\ Forall (fun g => two_fields g = true) lines
    /\ games_txt (snd (write_games games w)) = flushed (f_buffer w) ""
    /\ f_buffer (snd (write_games games w)) = Some (text_of lines).
Proof.
  destruct (write_lines_text games (apply_event OpenGamesForWrite w))
    as (lines & Hincl & Htwo & Htxt & Hbuf).
  exists lines. split; [exact Hincl|]. split; [exact Htwo|].
  unfold write_games, bind, perform. split; [exact Htxt | exact Hbuf].
Qed.

Lemma fields_ok_of (g : game) :
  game_ok g -> two_fields g = true -> fields_ok g.
Proof.
  intros (_ & H0 & H1) Htwo. destruct g as [|u [|h r]]; try discriminate.
  repeat split; cbn [nth]; [apply H0 | apply H1]; reflexivity.
Qed.

Lemma session_ok_read_back (g : game) :
  game_ok g -> two_fields g = true -> session_ok (read_back g).
Proof.
  intros (Hs & _) Htwo. destruct g as [|u [|h r]]; try discriminate.
  intros history [= <-]. cbn [nth]. rewrite split_rstrip.
  now apply Hs.
Qed.

Lemma store_ok_written (lines : list game) :
  Forall game_ok lines ->
  Forall (fun g => two_fields g = true) lines ->
  store_ok (parse_games (text_of lines)).
Proof.
  intros Hok Htwo. rewrite parse_games_text_of.
  - unfold store_ok. rewrite Forall_forall in *.
    intros g Hg. apply in_map_iff in Hg as (g0 & <- & Hg0).
    apply session_ok_read_back; auto.
  - rewrite Forall_forall in *. intros g Hg. apply fields_ok_of; auto.
Qed.

Lemma written_store_ok (text : string) :
  written text -> store_ok (parse_games text).
Proof. intros (games & Hok & Htwo & ->). now apply store_ok_written. Qed.

Lemma written_nil : written "".
Proof. exists []. repeat split; constructor. Qed.

(** ** A written text over a written text *)

(** The end of a written line is read as a game without history, or as a
    game with the history of the line. *)
Lemma line_end_ok (g : game) (k : nat) :
  game_ok g -> two_fields g = true -> k < String.length (line_of g) ->
  exists body,
    Py.drop k (line_of g) = body ++ nl
    /\ all_chars not_newline body = true
    /\ session_ok (Py.split_on "," (Py.strip (body ++ nl))).
Proof.
  intros Hok Htwo Hk. destruct (fields_ok_of g Hok Htwo) as (_ & H0 & H1).
  apply field_ok_iff in H0 as [H0c H0n]. apply field_ok_iff in H1 as [H1c H1n].
  destruct (drop_line_of g k Hk) as [(name & -> & Hn) | (moves & -> & Hm)].
  - exists (name ++ "," ++ nth 1 g ""). split; [now rewrite !app_assoc|].
    split.
    + rewrite !all_chars_app, (Hn _ H0n), H1n. reflexivity.
    + replace ((name ++ "," ++ nth 1 g "") ++ nl)
        with (name ++ "," ++ nth 1 g "" ++ nl) by now rewrite !app_assoc.
      rewrite strip_line, split_on_two_fields
        by (first [ apply all_chars_lstrip, Hn, H0c
                  | apply all_chars_rstrip, H1c ]).
      intros history [= <-]. rewrite split_rstrip.
      destruct Hok as (Hs & _). apply Hs.
      destruct g as [|u [|h r]]; try discriminate. reflexivity.
  - exists moves. split; [reflexivity|]. split; [apply Hm, H1n|].
    rewrite split_on_no_comma.
    + intros history H. discriminate H.
    + unfold Py.strip. apply all_chars_rstrip, all_chars_lstrip.
      rewrite all_chars_app, (Hm _ H1c). reflexivity.
Qed.

Lemma game_ok_fields (games : list game) :
  Forall game_ok games -> Forall (fun g => two_fields g = true) games ->
  Forall fields_ok games.
Proof.
  intros Hok Htwo. rewrite Forall_forall in *. intros g Hg.
  apply fields_ok_of; auto.
Qed.

(** Every history replays in a file where a text written by the bot
    stands over the beginning of another. *)
Lemma overwrite_written (text old : string) :
  written text -> written old ->
  store_ok (parse_games (overwrite text old)).
Proof.
  intros (gt & Hokt & Htwot & ->) (gd & Hokd & Htwod & ->).
  unfold overwrite, store_ok.
  rewrite parse_games_app by now apply game_ok_fields.
  apply Forall_app. split.
  - apply Forall_forall. intros g Hg.
    apply in_map_iff in Hg as (g0 & <- & Hg0). rewrite Forall_forall in *.
    apply session_ok_read_back; auto.
  - destruct (drop_text_of gd (String.length (text_of gt)))
      as [-> | (g & k & rest & Hin & Hincl & Hk & ->)]; [constructor|].
    assert (Hokg : game_ok g) by (rewrite Forall_forall in Hokd; auto).
    assert (Htwog : two_fields g = true)
      by (rewrite Forall_forall in Htwod; auto).
    destruct (line_end_ok g k Hokg Htwog Hk) as (body & -> & Hb & Hs).
    unfold parse_games. rewrite app_assoc, readlines_line by exact Hb.
    cbn [map]. constructor; [exact Hs|].
    apply (store_ok_written rest); rewrite Forall_forall in *; auto.
Qed.

(** ** The invariant of the file and the file object *)

Lemma world_ok_files (w w' : world) :
  games_txt w' = games_txt w -> f_buffer w' = f_buffer w ->
  world_ok w -> world_ok w'.
Proof. unfold world_ok. now intros -> ->. Qed.

(** What a pass reads keeps the invariant of the store. *)
Lemma world_ok_read (w : world) :
  world_ok w -> store_ok (parse_games (games_txt w)).
Proof.
  unfold world_ok. destruct (f_buffer w); [|auto].
  intros [_ H]. now apply written_store_ok.
Qed.

(** So does the file when the file object is released. *)
Lemma world_ok_release (w : world) :
  world_ok w ->
  world_ok (release w) /\ store_ok (parse_games (games_txt (release w))).
Proof.
  unfold world_ok, release. cbn [f_buffer games_txt flushed].
  destruct (f_buffer w) as [text|]; cbn [flushed]; [|auto].
  intros [Ht Hd]. split; now apply overwrite_written.
Qed.

Lemma write_games_keeps (games : list game) (w : world) :
  Forall game_ok games -> world_ok w ->
  world_ok (snd (write_games games w)).
Proof.
  intros Hok Hw. destruct (write_games_text games w)
    as (lines & Hincl & Htwo & Htxt & Hbuf).
  unfold world_ok. rewrite Hbuf, Htxt, flushed_nil. split.
  - exists lines. split; [|split; [exact Htwo | reflexivity]].
    rewrite Forall_forall in *. auto.
  - unfold world_ok in Hw. destruct (f_buffer w); [apply Hw | apply written_nil].
Qed.

(** ** One pass keeps it *)

Lemma handle_keeps (laws : ChessLaws lib) (m : mention) (w : world) :
  field_ok (screen_name m) = true ->
  world_ok w ->
  ensures (handle m) w
    (fun l w' => world_ok w' /\ store_ok (list_of_games l))
    (fun w' => world_ok w').
Proof.
  intros Hname Hw.
  pose proof (parsed_games_ok _ (world_ok_read w Hw)) as Hgames.
  unfold ensures, handle. unfold bind at 1. unfold read_games at 1. cbv zeta.
  unfold bind at 1. unfold lift at 1.
  destruct (find_game (screen_name m) (parse_games (games_txt w)))
    as [gi|e]; [|exact Hw].
  unfold bind at 1.
  destruct (emits_files _ w
              (emits_hashtags m (parse_games (games_txt w)) gi)) as [Hf1 Hb1].
  pose proof (hashtags_ok m (parse_games (games_txt w)) gi w Hname Hgames)
    as He1.
  unfold ensures in He1.
  destruct (hashtags m (parse_games (games_txt w)) gi w) as [[l|e] w1];
    cbn [snd] in Hf1, Hb1; [|exact (world_ok_files w w1 Hf1 Hb1 Hw)].
  pose proof (world_ok_files w w1 Hf1 Hb1 Hw) as Hw1.
  unfold finish. unfold bind at 1.
  destruct (emits_files _ w1 (emits_move_block m l)) as [Hf2 Hb2].
  pose proof (move_block_ok laws m l w1 He1) as He2. unfold ensures in He2.
  destruct (move_block m l w1) as [[l2|e] w2]; cbn [snd] in Hf2, Hb2;
    [|exact (world_ok_files w1 w2 Hf2 Hb2 Hw1)].
  pose proof (world_ok_files w1 w2 Hf2 Hb2 Hw1) as Hw2.
  unfold bind at 1.
  destruct (emits_files _ w2 (emits_game_over_block m l2)) as [Hf3 Hb3].
  destruct (game_over_block m l2 w2) as [[u|e] w3]; cbn [snd] in Hf3, Hb3;
    [|exact (world_ok_files w2 w3 Hf3 Hb3 Hw2)].
  pose proof (world_ok_files w2 w3 Hf3 Hb3 Hw2) as Hw3.
  unfold bind at 1.
  pose proof (write_games_keeps (list_of_games l2) w3 (proj1 He2) Hw3) as Hw4.
  destruct (write_games (list_of_games l2) w3) as [[u'|e] w4];
    cbn [snd] in Hw4; [|exact Hw4].
  unfold ret. split; [exact Hw4|].
  destruct He2 as [Hg _]. unfold store_ok.
  revert Hg. apply Forall_impl. intros g Hg. apply Hg.
Qed.

Lemma body_keeps (laws : ChessLaws lib) (m : mention) (w : world) :
  field_ok (screen_name m) = true ->
  world_ok w -> world_ok (snd (body m w)).
Proof.
  intros Hname Hw.
  unfold body, bind, store_last_seen_id, perform, ret.
  assert (Hw0 : world_ok (apply_event (WriteLastSeen (id m)) w))
    by (apply (world_ok_files w); [reflexivity | reflexivity | exact Hw]).
  pose proof (handle_keeps laws m _ Hname Hw0) as H. unfold ensures in H.
  destruct (handle m (apply_event (WriteLastSeen (id m)) w)) as [[l|e] w1];
    [exact (proj1 H) | exact H].
Qed.

(** The passes of a cycle and the end of the call of [main]. *)
Lemma for_each_body_keeps (laws : ChessLaws lib) (ms : list mention) :
  Forall (fun m => field_ok (screen_name m) = true) ms ->
  forall w, world_ok w -> world_ok (snd (for_each ms body w)).
Proof.
  induction 1 as [|m ms Hm Hms IH]; intros w Hw; [exact Hw|].
  cbn [for_each]. unfold bind.
  pose proof (body_keeps laws m w Hm Hw) as H.
  destruct (body m w) as [[u|e] w1]; cbn [snd] in *; auto.
Qed.

(** C2. One pass keeps the invariant of the store, for the file as the
    program really leaves it.  The invariant is stated for the file and
    the file object of [main] together ([world_ok]): at the start of a
    call of [main], when no file object exists, it says that every
    history in [games.txt] replays from the starting position.  When it
    holds before the body of the loop runs for a mention, then, whether
    the body returns or raises: it holds after it; every history replays
    in the file as the next pass of the cycle reads it, and in the file
    as it is when the call of [main] ends after this pass and the file
    object is released; and when the handling returns, every history of
    the list in memory replays.  A call of [main] that starts with the
    invariant ends with it, whatever the mentions.  The chess library is
    taken to keep its laws, and the names of the users to hold no comma
    and no end of line. *)
Theorem store_invariant_kept (laws : ChessLaws lib) (m : mention)
    (w : world) :
  field_ok (screen_name m) = true ->
  world_ok w ->
  world_ok (snd (body m w))
  /\ store_ok (parse_games (games_txt (snd (body m w))))
  /\ store_ok (parse_games (games_txt (release (snd (body m w)))))
  /\ (forall w0 l w',
        world_ok w0 ->
        handle m w0 = (Ret l, w') -> store_ok (list_of_games l))
  /\ (forall mentions_timeline,
        Forall (fun m => field_ok (screen_name m) = true)
          (mentions_timeline (last_seen_id_txt w)) ->
        f_buffer (snd (main mentions_timeline w)) = None
        /\ store_ok (parse_games (games_txt (snd (main mentions_timeline w))))).
Proof.
  intros Hname Hw. pose proof (body_keeps laws m w Hname Hw) as Hb.
  split; [exact Hb|]. split; [now apply world_ok_read|].
  split; [now apply world_ok_release|]. split.
  - intros w0 l w' Hw0 Hrun.
    exact (proj2 (ensures_run _ _ _ _ _ _
                    (handle_keeps laws m w0 Hname Hw0) Hrun)).
  - intros mentions_timeline Hnames. unfold main. cbn [snd].
    split; [reflexivity|]. apply world_ok_release.
    unfold main_statements, bind, read_last_seen.
    apply (for_each_body_keeps laws); [|exact Hw].
    apply Forall_forall. intros x Hx. rewrite Forall_forall in Hnames.
    apply Hnames. now apply in_rev.
Qed.

End WithLib.

End InvariantFacts.

(* ===================================================================== *)
(** * The shape of the store, and the way to the move block *)
(* ===================================================================== *)

Module BridgeFacts.
Import Bot Laws PyFacts MoveFacts StoreFacts EffectFacts RunFacts.
Import MateFacts EnsuresFacts RecordFacts.

Lemma NoDup_snoc {A} (l : list A) (x : A) :
  NoDup l -> ~ In x l -> NoDup (l ++ [x]).
Proof.
  induction 1 as [|a l Ha Hl IH]; cbn; intros Hx.
  - constructor; [intros [] | constructor].
  - constructor.
    + rewrite in_app_iff. cbn. intuition congruence.
    + apply IH. intuition.
Qed.

Lemma map_set_nth_same {A B} (f : A -> B) (l : list A) (i : nat) (x y : A) :
  nth_error l i = Some y -> f x = f y ->
  map f (set_nth i x l) = map f l.
Proof.
  revert i. induction l as [|a l IH]; intros [|i]; cbn; try discriminate.
  - intros [= ->] E. now rewrite E.
  - intros H E. f_equal. now apply IH.
Qed.

Lemma user_of_set_item1 (g g' : game) (s : string) :
  set_item1 g s = Ret g' -> user_of g' = user_of g /\ two_fields g' = true.
Proof.
  destruct g as [|a [|b r]]; cbn; try discriminate.
  intros [= <-]. split; reflexivity.
Qed.

Lemma In_remove_at {A} (l : list A) (j : nat) (x : A) :
  In x (remove_at j l) -> In x l.
Proof.
  revert j. induction l as [|a l IH]; intros [|j]; cbn; auto.
  intros [-> | H]; eauto.
Qed.

Lemma NoDup_remove_at {A} (l : list A) (j : nat) :
  NoDup l -> NoDup (remove_at j l).
Proof.
  intros H. revert j. induction H as [|a l Ha Hl IH]; intros [|j]; cbn;
    try constructor; auto.
  intros Hin. apply Ha. eapply In_remove_at, Hin.
Qed.

Lemma map_remove_at {A B} (f : A -> B) (l : list A) (j : nat) :
  map f (remove_at j l) = remove_at j (map f l).
Proof.
  revert j. induction l as [|a l IH]; intros [|j]; cbn; try reflexivity.
  now rewrite IH.
Qed.

Lemma store_shape_remove_at (games : list game) (j : nat) :
  store_shape games -> store_shape (remove_at j games).
Proof.
  intros [Htwo Hu]. split; [now apply Forall_remove_at|].
  unfold one_game_per_user. rewrite map_remove_at. now apply NoDup_remove_at.
Qed.

Lemma store_shape_set_nth (games : list game) (i : nat) (g g' : game)
    (s : string) :
  store_shape games -> nth_error games i = Some g ->
  set_item1 g s = Ret g' -> store_shape (set_nth i g' games).
Proof.
  intros [Htwo Hu] Hi Hset.
  destruct (user_of_set_item1 g g' s Hset) as [Huser Hg'].
  split; [now apply Forall_set_nth|].
  unfold one_game_per_user.
  now rewrite (map_set_nth_same user_of games i g' g Hi Huser).
Qed.

Lemma remove_shape (games games' : list game) (c c' : cur) :
  store_shape games -> remove games c = Ret (games', c') ->
  store_shape games'.
Proof.
  intros Hs. unfold remove.
  destruct (deref games c) as [v|e]; cbn [rbind]; [|discriminate].
  destruct (index_of v games) as [j|]; [|discriminate].
  intros [= <- _]. now apply store_shape_remove_at.
Qed.

Lemma assign1_shape (games games' : list game) (c c' : cur) (s : string) :
  store_shape games -> assign1 games c s = Ret (games', c') ->
  store_shape games'.
Proof.
  intros Hs. destruct c as [|i|g0]; cbn [assign1]; [discriminate | |].
  - unfold item. destruct (nth_error games i) as [g|] eqn:Hi; cbn [rbind];
      [|discriminate].
    destruct (set_item1 g s) as [g'|e] eqn:Hset; cbn [rbind]; [|discriminate].
    intros [= <- _]. eapply store_shape_set_nth; eassumption.
  - destruct (set_item1 g0 s); cbn [rbind]; [|discriminate].
    now intros [= <- _].
Qed.

Section WithLib.
Context {lib : ChessLib}.

(** The chain of tests keeps the shape of the store, and a pass that
    reaches the move block does so with [game_over] false and the game
    of the user bound to [curr_game] at a position of the list. *)
Lemma hashtags_move_turn (m : mention) (games : list game) (gi : Z)
    (w : world) :
  Forall (fun g : game => g <> []) games ->
  find_game (screen_name m) games = Ret gi ->
  ensures (hashtags m games gi) w
    (fun l _ =>
       (store_shape games -> store_shape (list_of_games l))
       /\ (make_a_move l = true ->
           game_over l = false
           /\ exists i g,
                curr_game l = At i
                /\ nth_error (list_of_games l) i = Some g
                /\ user_of g = Py.lower (screen_name m)))
    (fun _ => True).
Proof.
  intros Hne Hfind.
  assert (Hspec :
            (gi = (-1)%Z /\ no_match (screen_name m) games)
            \/ exists i g, gi = Z.of_nat i /\ nth_error games i = Some g
                           /\ user_of g = Py.lower (screen_name m)).
  { destruct (find_game_spec (screen_name m) games Hne)
      as [[Hf Hno] | (i & Hf & (g & Hi & _ & Hname) & _)].
    - left. split; [congruence | exact Hno].
    - right. exists i, g. repeat split; [congruence | exact Hi | auto]. }
  unfold hashtags, update_status, update_with_media, create_board_image.
  cbv zeta. ens.
  all: try exact I.
  all: cbn [make_a_move game_over list_of_games curr_game].
  all: try (split; [tauto | intros; discriminate]).
  - (* resignation *)
    split; [|intros; discriminate].
    intros Hs. eapply remove_shape; eassumption.
  - (* a new game for a user who has one *)
    destruct Hspec as [[-> _] | (i & g & -> & Hi & Hname)];
      [discriminate|].
    match goal with H : py_pos _ _ = Ret ?a |- _ =>
      rewrite py_pos_nat in H by (apply nth_error_Some; congruence);
      assert (a = i) by congruence; subst a; clear H end.
    match goal with H : assign1 _ _ _ = Ret (?l, ?c) |- _ =>
      cbn [assign1] in H; unfold item in H; rewrite Hi in H;
      cbn [rbind] in H;
      destruct (set_item1 g "") as [g'|] eqn:Hset; cbn [rbind] in H;
      [|discriminate];
      assert (l = set_nth i g' games /\ c = At i) as [-> ->]
        by (split; congruence);
      clear H end.
    destruct (user_of_set_item1 g g' "" Hset) as [Hu Htwo].
    split.
    + intros Hs. eapply store_shape_set_nth; eassumption.
    + intros _. split; [reflexivity|].
      exists i, g'. repeat split; [|congruence].
      rewrite nth_error_set_nth by (apply nth_error_Some; congruence).
      now rewrite Nat.eqb_refl.
  - (* a new game for a new user *)
    destruct Hspec as [[_ Hno] | (i & g & -> & _)];
      [|match goal with H : negb _ = false |- _ =>
          apply negb_false_iff, Z.eqb_eq in H; lia end].
    split.
    + intros [Htwo Hu]. split.
      * apply Forall_app. split; [exact Htwo | repeat constructor].
      * unfold one_game_per_user. rewrite map_app. cbn [map].
        apply NoDup_snoc; [exact Hu|].
        intros Hin. apply in_map_iff in Hin as (g & Hg & Hin).
        apply In_nth_error in Hin as [j Hj].
        apply (Hno j g Hj). unfold user_of in *. cbn [hd] in Hg. congruence.
    + intros _. split; [reflexivity|].
      exists (length games), [screen_name m; ""]. repeat split.
      rewrite nth_error_app2 by lia. now rewrite Nat.sub_diag.
  - (* the game goes on *)
    destruct Hspec as [[-> _] | (i & g & -> & Hi & Hname)].
    + match goal with
        H : (_ =? _)%Z && _ = false |- _ => cbn in H; discriminate
      end.
    + match goal with H : py_pos _ _ = Ret ?a |- _ =>
        rewrite py_pos_nat in H by (apply nth_error_Some; congruence);
        assert (a = i) by congruence; subst a; clear H end.
      split; [tauto|]. intros _. split; [reflexivity|]. exists i, g. auto.
Qed.

(** The move block keeps the shape of the store. *)
Lemma move_block_shape (m : mention) (l : locals) (w : world) :
  store_shape (list_of_games l) ->
  ensures (move_block m l) w
    (fun l' _ => store_shape (list_of_games l')) (fun _ => True).
Proof.
  intros Hs. unfold move_block. destruct (make_a_move l); [|exact Hs].
  apply ensures_bind.
  eapply ensures_weaken; [apply exchange_outcome | | auto].
  intros [l1 h] w1 Hout. cbn [fst snd] in Hout.
  apply ensures_lift; [|auto]. intros l2 Hrec.
  assert (Hs1 : store_shape (list_of_games l1)).
  { destruct Hout as [-> | [Hend _]]; [exact Hs|].
    unfold end_game in Hend.
    destruct (remove (list_of_games l) (curr_game l)) as [[games' c']|e] eqn:E;
      cbn [rbind] in Hend; [|discriminate].
    injection Hend as <-. cbn. eapply remove_shape; eassumption. }
  unfold record_history in Hrec.
  destruct (length h =? 0)%nat.
  - destruct (remove _ _) as [[games' c']|e] eqn:E; cbn [rbind] in Hrec;
      [|discriminate].
    injection Hrec as <-. cbn. eapply remove_shape; eassumption.
  - destruct (assign1 _ _ _) as [[games' c']|e] eqn:E; cbn [rbind] in Hrec;
      [|discriminate].
    injection Hrec as <-. cbn. eapply assign1_shape; eassumption.
Qed.

(** One pass keeps the shape of the store: when the games read have a
    comma on every line and one game per user, so have the games in
    memory, whose text the pass leaves with the file object. *)
Lemma handle_shape (m : mention) (w : world) :
  store_shape (parse_games (games_txt w)) ->
  ensures (handle m) w
    (fun l w' => store_shape (list_of_games l)
                 /\ f_buffer w' = Some (text_of (list_of_games l)))
    (fun _ => True).
Proof.
  intros Hs. unfold ensures, handle.
  unfold bind at 1. unfold read_games at 1. cbv zeta.
  unfold bind at 1. unfold lift at 1.
  destruct (find_game (screen_name m) (parse_games (games_txt w)))
    as [gi|e] eqn:Hfind; [|exact I].
  unfold bind at 1.
  pose proof (hashtags_move_turn m (parse_games (games_txt w)) gi w
                (parse_games_nonempty _) Hfind) as H1.
  unfold ensures in H1.
  destruct (hashtags m (parse_games (games_txt w)) gi w) as [[l|e] w1];
    [|exact I].
  destruct H1 as [H1 _]. specialize (H1 Hs).
  unfold finish. unfold bind at 1.
  pose proof (move_block_shape m l w1 H1) as H2. unfold ensures in H2.
  destruct (move_block m l w1) as [[l2|e] w2]; [|exact I].
  unfold bind at 1.
  destruct (game_over_block m l2 w2) as [[u|e] w3]; [|exact I].
  rewrite (bind_run _ _ _ _ _
             (write_games_run (list_of_games l2) w3 (proj1 H2))).
  unfold ret. split; [exact H2 | apply games_txt_save].
Qed.

End WithLib.

End BridgeFacts.

(* ===================================================================== *)
(** * The theorems at work on the scripted library *)
(* ===================================================================== *)

Module Runs.
Import Bot Laws Toy ToyFacts PyFacts MoveFacts.
Import ResignFacts MateFacts RecordFacts FileFacts InvariantFacts.

Lemma two_games_parsed : parse_games two_games_txt = two_games.
Proof. vm_compute. reflexivity. Qed.

(** ** The invariant of the store *)

Lemma one_game_world_ok : @world_ok Toy.lib (world0 ("bob,e4 e5 " ++ nl)).
Proof.
  unfold world_ok. cbn [world0 f_buffer games_txt].
  replace (parse_games ("bob,e4 e5 " ++ nl)) with [["bob"; "e4 e5"]]
    by (vm_compute; reflexivity).
  repeat constructor. intros history [= <-]. eexists. vm_compute. reflexivity.
Qed.

Lemma store_invariant_kept_witness :
  @world_ok Toy.lib (world0 ("bob,e4 e5 " ++ nl))
  /\ games_txt
       (release
          (snd (@body Toy.lib (tweet 101 "Bob" "@bot captures Bc4 #chess")
                  (world0 ("bob,e4 e5 " ++ nl)))))
     = "bob,e4 e5 Bc4 Nc6 " ++ nl
  /\ @store_ok Toy.lib
       (parse_games
          (games_txt
             (release
                (snd (@body Toy.lib (tweet 101 "Bob" "@bot captures Bc4 #chess")
                        (world0 ("bob,e4 e5 " ++ nl))))))).
Proof.
  split; [exact one_game_world_ok|]. split; [vm_compute; reflexivity|].
  destruct (@store_invariant_kept Toy.lib toy_laws
              (tweet 101 "Bob" "@bot captures Bc4 #chess")
              (world0 ("bob,e4 e5 " ++ nl)) eq_refl one_game_world_ok)
    as (_ & _ & H & _).
  exact H.
Defined.

(** ** The move that mates *)

Section WithLib.
Context {lib : ChessLib}.

(** With a library that marks the moves that mate, no move that comes
    out of the text of a mention and is accepted gives mate: the pattern
    of the move stops at the mark, and the move without its mark is none
    of the strings that [possible_moves] lists. *)
Lemma accepted_move_does_not_mate (laws : ChessLaws lib)
    (marks : mate_marked lib) (tweet_text history : string)
    (h' : list string) (b : Board) :
  move_tried_of tweet_text <> "" ->
  apply_player_move (Py.split history) (move_tried_of tweet_text)
  = Ret (true, h') ->
  push_pgn h' = Ret b -> is_checkmate b = false.
Proof.
  intros Hne Happ Hb.
  apply apply_player_move_true in Happ as (-> & b0 & moves & Hb0 & Hm & Hin).
  rewrite (possible_moves_spec laws b0) in Hm. injection Hm as <-.
  assert (Hlegal : In (move_tried_of tweet_text) (legal_sans b0)).
  { destruct (legal_sans b0); [|exact Hin].
    destruct Hin as [E | []]. congruence. }
  unfold push_pgn in Hb, Hb0. rewrite push_moves_app, Hb0 in Hb.
  cbn [rbind push_moves] in Hb.
  destruct (push_san b0 (move_tried_of tweet_text)) as [b1|] eqn:Hp;
    [|discriminate].
  injection Hb as <-.
  destruct (is_checkmate b1) eqn:Hmate; [|reflexivity].
  destruct (marks b0 _ b1 Hlegal Hp Hmate) as [body E].
  pose proof (move_tried_no_hash tweet_text) as Hh.
  rewrite E, all_chars_app in Hh. cbn in Hh.
  rewrite andb_false_r in Hh. discriminate.
Qed.

End WithLib.

(** C4. The player cannot mate.  For every chess library that keeps
    its laws and writes a move that mates with the mark [#], as
    python-chess does: whenever the move found in the text of a mention
    is not empty and [apply_player_move] accepts it, the position it
    gives is not mate, so that the branch of [main] that ends the game
    for the player is never taken.  On the scripted library: Bob is one
    move from mate; the mating move is legal, and is printed with its
    mark; the mention that holds it, marked, gives the move without the
    mark, for the pattern stops at [#]; the pass answers that the move is
    invalid, calls no engine, and leaves Bob's game in the file as it
    was.  The mention that holds the move without its mark is answered
    in the same way. *)
Theorem mating_move_of_the_player_is_refused :
  (forall (lib : ChessLib),
     ChessLaws lib -> mate_marked lib ->
     forall (tweet_text history : string) (h' : list string) (b : Board),
       move_tried_of tweet_text <> "" ->
       apply_player_move (Py.split history) (move_tried_of tweet_text)
       = Ret (true, h') ->
       push_pgn h' = Ret b -> is_checkmate b = false)
  /\ let store := "bob,e4 e5 Bc4 Nc6 Qh5 Nf6 " ++ nl in
     let before := ["e4"; "e5"; "Bc4"; "Nc6"; "Qh5"; "Nf6"] in
     let marked := tweet 101 "bob" "@bot captures Qxf7# #chess" in
     let bare := tweet 101 "bob" "@bot captures Qxf7 #chess" in
     let refused (m : mention) :=
       [ WriteLastSeen 101;
         HttpGet (@image_url Toy.lib before) "board.jpg";
         UpdateWithMedia "board.jpg"
           "@bob That move is invalid. If you would to see a list of valid moves, use the #possiblemoves"
           101;
         OsRemove "board.jpg";
         OpenGamesForWrite;
         WriteGames store ] in
     @possible_moves Toy.lib before = Ret ["Qxf7#"; "Qxe5+"]
     /\ @push_pgn Toy.lib (before ++ ["Qxf7#"]) = Ret (before ++ ["Qxf7#"])%list
     /\ @is_checkmate Toy.lib (before ++ ["Qxf7#"])%list = true
     /\ move_tried_of (full_text marked) = "Qxf7"
     /\ @main Toy.lib (fun _ => [marked]) (world0 store)
        = (Ret tt,
           {| last_seen_id_txt := 101; games_txt := store; f_buffer := None;
              effects := refused marked |})
     /\ @main Toy.lib (fun _ => [bare]) (world0 store)
        = (Ret tt,
           {| last_seen_id_txt := 101; games_txt := store; f_buffer := None;
              effects := refused bare |}).
Proof.
  split.
  - intros lib laws marks tweet_text history h' b.
    apply accepted_move_does_not_mate; assumption.
  - repeat split; vm_compute; reflexivity.
Qed.

Lemma mating_move_of_the_player_is_refused_witness :
  @is_checkmate Toy.lib ["e4"; "e5"; "Bc4"] = false.
Proof.
  apply (proj1 mating_move_of_the_player_is_refused Toy.lib toy_laws
           toy_mate_marked "@bot captures Bc4 #chess" "e4 e5 "
           ["e4"; "e5"; "Bc4"] ["e4"; "e5"; "Bc4"]).
  - vm_compute. discriminate.
  - vm_compute. reflexivity.
  - vm_compute. reflexivity.
Defined.

(** ** The scenarios of the specification, one mention in its cycle *)

Example scenario_start_with_a_move :
  games_txt
    (snd (@main Toy.lib
            (fun _ => [tweet 101 "Bob" "@bot #startgame captures e4 #chess"])
            (world0 "")))
  = "Bob,e4 e5 " ++ nl.
Proof. vm_compute. reflexivity. Qed.

Example scenario_next_move :
  games_txt
    (snd (@main Toy.lib (fun _ => [tweet 101 "Bob" "@bot captures Bc4 #chess"])
            (world0 ("bob,e4 e5 " ++ nl))))
  = "bob,e4 e5 Bc4 Nc6 " ++ nl.
Proof. vm_compute. reflexivity. Qed.

Example scenario_resign :
  games_txt
    (snd (@main Toy.lib
            (fun _ => [tweet 101 "Bob" "@bot #Resign captures Qxe5+ #chess"])
            (world0 two_games_txt)))
  = "alice,f3 e5" ++ nl
  /\ forallb (fun e => negb (is_engine_call e))
       (effects
          (snd (@main Toy.lib
                  (fun _ => [tweet 101 "Bob" "@bot #Resign captures Qxe5+ #chess"])
                  (world0 two_games_txt)))) = true.
Proof. split; vm_compute; reflexivity. Qed.

Example scenario_invalid_move :
  @main Toy.lib (fun _ => [tweet 101 "Bob" "@bot captures Ke2 #chess"])
    (world0 ("bob,e4 e5 " ++ nl))
  = (Ret tt,
     {| last_seen_id_txt := 101;
        games_txt := "bob,e4 e5 " ++ nl;
        f_buffer := None;
        effects :=
          [ WriteLastSeen 101;
            HttpGet (@image_url Toy.lib ["e4"; "e5"]) "board.jpg";
            UpdateWithMedia "board.jpg"
              "@Bob That move is invalid. If you would to see a list of valid moves, use the #possiblemoves"
              101;
            OsRemove "board.jpg";
            OpenGamesForWrite;
            WriteGames ("bob,e4 e5 " ++ nl) ] |}).
Proof. vm_compute. reflexivity. Qed.

Example scenario_start_with_an_invalid_move :
  games_txt
    (snd (@main Toy.lib
            (fun _ => [tweet 101 "Bob" "@bot #startgame captures zz #chess"])
            (world0 ("alice,f3 e5 " ++ nl))))
  = "alice,f3 e5" ++ nl.
Proof. vm_compute. reflexivity. Qed.

Example scenario_getpgn_without_game :
  effects (snd (@handle Toy.lib (tweet 101 "Bob" "@bot #getpgn")
                  (world0 ("alice,f3 e5 " ++ nl))))
  = [ UpdateStatus "@Bob No game found." 101;
      OpenGamesForWrite;
      WriteGames ("alice,f3 e5" ++ nl) ].
Proof. vm_compute. reflexivity. Qed.

(** The engine mates: the game leaves the file. *)
Example scenario_engine_mates :
  games_txt
    (snd (@main Toy.lib (fun _ => [tweet 101 "Alice" "@bot captures g4 #chess"])
            (world0 two_games_txt)))
  = "bob,e4 e5 Bc4 Nc6 Qh5 Nf6" ++ nl.
Proof. vm_compute. reflexivity. Qed.

(** ** Several mentions in one cycle *)

(** Three passes: the third reads what the first wrote; the file ends
    with the text of the third over that of the second.  Here the second
    pass, for a user without a game, wrote nothing, and the move of the
    third is recorded. *)
Example cycle_of_three_mentions :
  games_txt
    (snd (@main Toy.lib
            (fun _ => [ tweet 103 "bob" "@bot captures Bc4 #chess";
                        tweet 102 "alice" "@bot hello";
                        tweet 101 "alice" "@bot hello" ])
            (world0 ("bob,e4 e5 " ++ nl))))
  = "bob,e4 e5 Bc4 Nc6 " ++ nl.
Proof. vm_compute. reflexivity. Qed.

End Runs.

(* ===================================================================== *)
(** * The functions one by one *)
(* ===================================================================== *)

Module PieceFacts.
Import Bot Laws PyFacts MoveFacts EffectFacts RunFacts EnsuresFacts.

(** ** The pattern of the move *)

Lemma prefix_app_long (p x y : string) :
  String.length p <= String.length x -> prefix p (x ++ y) = prefix p x.
Proof.
  revert x. induction p as [|c p IH]; intros x Hlen.
  - now rewrite !prefix_nil.
  - destruct x as [|d x]; cbn in Hlen; [lia|].
    cbn [append prefix]. destruct (ascii_dec c d); [|reflexivity].
    apply IH. lia.
Qed.

Lemma contains_length (sub s : string) :
  Py.contains sub s = true -> String.length sub <= String.length s.
Proof.
  assert (Hp : forall p x, prefix p x = true -> String.length p <= String.length x).
  { induction p as [|c p IH]; intros [|d x]; cbn; try lia; try discriminate.
    destruct (ascii_dec c d); [|discriminate]. intros H. apply IH in H. lia. }
  induction s as [|c s IH]; cbn [Py.contains].
  - apply Hp.
  - intros H. apply orb_true_iff in H as [H | H].
    + now apply Hp.
    + apply IH in H. cbn. lia.
Qed.

Lemma prefix_app (p x : string) : prefix p (p ++ x) = true.
Proof.
  induction p as [|c p IH]; [apply prefix_nil|].
  cbn [append prefix]. destruct (ascii_dec c c); [exact IH | congruence].
Qed.

(** The first occurrence of the word is the one that counts. *)
Lemma findall_captures_cons (c : ascii) (s : string) :
  Py.findall_captures_0 (String c s)
  = if prefix "captures " (String c s)
    then Some (Py.to_hash (Py.drop 9 (String c s)))
    else Py.findall_captures_0 s.
Proof. reflexivity. Qed.

Lemma findall_captures_first (pre tail : string) :
  Py.contains "captures " (pre ++ "captures") = false ->
  Py.findall_captures_0 (pre ++ "captures " ++ tail) = Some (Py.to_hash tail).
Proof.
  induction pre as [|c pre IH]; intros H.
  - change ("" ++ "captures " ++ tail) with (String "c" ("aptures " ++ tail)).
    rewrite findall_captures_cons.
    change (String "c" ("aptures " ++ tail)) with ("captures " ++ tail).
    rewrite prefix_app. reflexivity.
  - change (String c pre ++ "captures") with (String c (pre ++ "captures")) in H.
    cbn [Py.contains] in H. apply orb_false_iff in H as [Hp Hc].
    change (String c pre ++ "captures " ++ tail)
      with (String c (pre ++ "captures " ++ tail)).
    rewrite findall_captures_cons.
    assert (Hpf : prefix "captures " (String c (pre ++ "captures " ++ tail))
                  = false).
    { replace (String c (pre ++ "captures " ++ tail))
        with (String c (pre ++ "captures") ++ " " ++ tail).
      - rewrite prefix_app_long; [exact Hp|].
        cbn [String.length]. rewrite length_app. cbn. lia.
      - change (String c (pre ++ "captures") ++ " " ++ tail)
          with (String c ((pre ++ "captures") ++ " " ++ tail)).
        rewrite app_assoc. reflexivity. }
    rewrite Hpf. now apply IH.
Qed.

Lemma findall_captures_none (text : string) :
  Py.contains "captures " text = false -> Py.findall_captures_0 text = None.
Proof.
  induction text as [|c s IH]; [reflexivity|].
  cbn [Py.contains Py.findall_captures_0]. intros H.
  apply orb_false_iff in H as [-> H]. auto.
Qed.

Lemma to_hash_app (mv rest : string) :
  all_chars not_hash mv = true ->
  Py.to_hash (mv ++ String "#" rest) = mv /\ Py.to_hash mv = mv.
Proof.
  induction mv as [|c mv IH]; [split; reflexivity|].
  cbn [all_chars]. intros H. apply andb_true_iff in H as [Hc Hmv].
  unfold not_hash in Hc. apply negb_true_iff in Hc.
  cbn [append Py.to_hash]. rewrite Hc.
  destruct (IH Hmv) as [-> ->]. split; reflexivity.
Qed.

(** X6. The move looked for in a tweet is what stands between the
    first occurrence of the word captures followed by a space and the
    next [#], or the end of the text when no [#] follows, without the
    white space around it; later occurrences of the word play no role,
    and a text without the word followed by a space gives the empty
    move. *)
Theorem move_tried_is_between_the_word_and_the_hash (pre mv rest : string) :
  Py.contains "captures " (pre ++ "captures") = false ->
  all_chars not_hash mv = true ->
  move_tried_of (pre ++ "captures " ++ mv ++ "#" ++ rest) = Py.strip mv
  /\ move_tried_of (pre ++ "captures " ++ mv) = Py.strip mv
  /\ (forall text,
        Py.contains "captures " text = false -> move_tried_of text = "").
Proof.
  intros Hpre Hmv. destruct (to_hash_app mv rest Hmv) as [H1 H2].
  unfold move_tried_of. rewrite !findall_captures_first by exact Hpre.
  change (mv ++ "#" ++ rest) with (mv ++ String "#" rest).
  rewrite H1, H2. repeat split.
  intros text H. now rewrite findall_captures_none.
Qed.

Lemma move_tried_is_between_the_word_and_the_hash_witness :
  move_tried_of ("@chessbot " ++ "captures " ++ " Nxe5  " ++ "#" ++ "chess captures d4")
  = "Nxe5".
Proof.
  destruct (move_tried_is_between_the_word_and_the_hash
              "@chessbot " " Nxe5  " "chess captures d4") as [H _].
  - reflexivity.
  - reflexivity.
  - exact H.
Defined.

Section WithLib.
Context {lib : ChessLib}.

(** ** [possible_moves] *)

(** X1. In a position with at least one legal move, when none of the
    moves is written with a comma or a closing parenthesis,
    [possible_moves] returns the moves of the generator: the same
    strings, in the same order, whatever address the generator prints. *)
Theorem possible_moves_gives_the_list_back (b : Board) :
  legal_sans b <> [] ->
  Forall (fun t => all_chars not_comma t = true
                   /\ all_chars not_close t = true) (legal_sans b) ->
  possible_moves b = Ret (legal_sans b).
Proof.
  intros Hne Hshape. rewrite possible_moves_body.
  - rewrite split_on_join_comma; trivial.
    revert Hshape. apply Forall_impl. tauto.
  - apply all_chars_join; [reflexivity|].
    revert Hshape. apply Forall_impl. tauto.
Qed.

(** ** [apply_player_move] *)

(** X2. In a position without a legal move [apply_player_move]
    takes the empty string for a legal move: when the history replays to
    such a position, the call with the empty string returns [True] and
    leaves a history that ends with an empty move. *)
Theorem empty_move_is_accepted_when_no_move_is_legal (h : list string)
    (b : Board) :
  push_pgn h = Ret b -> legal_sans b = [] ->
  apply_player_move h "" = Ret (true, (h ++ [""])%list).
Proof.
  intros Hb Hnone. unfold apply_player_move. rewrite Hb. cbn [rbind].
  rewrite possible_moves_body; rewrite Hnone; reflexivity.
Qed.

(** ** [push_pgn] *)

Lemma push_moves_exn (h : list string) :
  forall b e, push_moves b h = Exc e -> e = ValueError.
Proof.
  induction h as [|mv h IH]; intros b e; cbn [push_moves]; [discriminate|].
  destruct (push_san b mv); [apply IH | congruence].
Qed.

Lemma push_pgn_exn (h : list string) (e : exn) :
  push_pgn h = Exc e -> e = ValueError.
Proof. unfold push_pgn. apply push_moves_exn. Qed.

(** X3. Replaying a history made of two parts is replaying the first
    part and then pushing the moves of the second part on the position
    reached.  A history replays only if its beginnings do; and when the
    replay of a beginning raises, the exception is [ValueError] and the
    replay of the whole history raises it too. *)
Theorem push_pgn_app (h1 h2 : list string) :
  push_pgn (h1 ++ h2) = (board <~ push_pgn h1 ;; push_moves board h2)
  /\ (replays (h1 ++ h2) -> replays h1)
  /\ (forall e, push_pgn h1 = Exc e ->
        e = ValueError /\ push_pgn (h1 ++ h2) = Exc ValueError).
Proof.
  assert (Happ : push_pgn (h1 ++ h2)
                 = (board <~ push_pgn h1 ;; push_moves board h2))
    by (unfold push_pgn; apply push_moves_app).
  split; [exact Happ|]. split.
  - intros [b Hb]. rewrite Happ in Hb. unfold replays.
    destruct (push_pgn h1) as [b1|e]; [eauto | discriminate].
  - intros e He.
    assert (e = ValueError)
      by (unfold push_pgn in He; eapply push_moves_exn; eassumption).
    subst e. split; [reflexivity|]. rewrite Happ, He. reflexivity.
Qed.

(** ** [apply_bot_move] *)

(** X4. [apply_bot_move] starts the engine before it does anything
    else.  When the engine cannot be started the call raises at once:
    the history is not replayed and no position is put to an engine.
    When the engine starts and the history does not replay, the call
    raises [ValueError], the engine having been started for nothing.
    When the engine starts and the history replays to a position, the
    engine is asked for that position and nothing else is done; if the
    call returns, the move returned is one of the legal moves of the
    position (the library keeping its laws) and the history is the old
    one with that move at its end; if it raises, the engine gave no
    move or a move that cannot be written. *)
Theorem apply_bot_move_outcome (laws : ChessLaws lib)
    (game_history : list string) (w : world) :
  (engine_starts = false ->
   apply_bot_move game_history w = (Exc OSError, emit_all [EnginePopen] w))
  /\ (engine_starts = true ->
      (forall e,
         push_pgn game_history = Exc e ->
         apply_bot_move game_history w
         = (Exc ValueError, emit_all [EnginePopen] w))
      /\ (forall board,
            push_pgn game_history = Ret board ->
            match apply_bot_move game_history w with
            | (Ret (my_move, history), w') =>
                In my_move (legal_sans board)
                /\ history = (game_history ++ [my_move])%list
                /\ w' = emit_all [EnginePopen; EnginePlay (fen board)] w
            | (Exc e, w') =>
                (e = EngineError \/ e = ValueError)
                /\ w' = emit_all [EnginePopen; EnginePlay (fen board)] w
            end)).
Proof.
  unfold apply_bot_move. split; [|intros H; split].
  - intros Hs. unfold bind at 1. unfold perform at 1.
    unfold bind at 1. now rewrite Hs.
  - intros e Hb. unfold bind at 1. unfold perform at 1.
    unfold bind at 1. rewrite H. unfold ret at 1.
    unfold bind at 1. unfold lift at 1. rewrite Hb.
    now rewrite (push_pgn_exn _ _ Hb).
  - intros board Hb. unfold bind at 1. unfold perform at 1.
    unfold bind at 1. rewrite H. unfold ret at 1.
    unfold bind at 1. unfold lift at 1. rewrite Hb.
    unfold bind at 1. unfold perform at 1.
    destruct (engine_play board) as [uci|] eqn:He.
    + destruct (san_of_uci board uci) as [s|] eqn:Hs.
      * unfold ret. repeat split. eapply engine_legal; eassumption.
      * unfold raise. split; [now right | reflexivity].
    + unfold raise. split; [now left | reflexivity].
Qed.

(** ** [create_board_image] *)

Lemma findall_nonspace_field (field rest : string) (sp : ascii) :
  all_chars (fun c => negb (Py.isspace c)) field = true ->
  Py.isspace sp = true ->
  Py.findall_nonspace_0 (field ++ String sp rest) = field.
Proof.
  intros Hf Hsp. induction field as [|c f IH]; cbn.
  - now rewrite Hsp.
  - cbn in Hf. apply andb_true_iff in Hf as [Hc Hf].
    apply negb_true_iff in Hc. rewrite Hc. now rewrite IH.
Qed.

(** X5. The image is asked for the first field of the FEN only: when
    the FEN of the board is a text without white space followed by a
    space and the other fields, [create_board_image] makes one request,
    for the address of the site followed by that text, to be stored as
    board.jpg, and returns that file name. *)
Theorem create_board_image_asks_for_the_placement (board : Board)
    (placement rest : string) (w : world) :
  all_chars (fun c => negb (Py.isspace c)) placement = true ->
  fen board = placement ++ " " ++ rest ->
  create_board_image board w
  = (Ret "board.jpg",
     emit_all
       [HttpGet ("http://www.fen-to-image.com/image/" ++ placement) "board.jpg"]
       w).
Proof.
  intros Hp Hfen. unfold create_board_image. rewrite Hfen.
  change (placement ++ " " ++ rest) with (placement ++ String " " rest).
  rewrite findall_nonspace_field by (trivial; reflexivity).
  reflexivity.
Qed.

End WithLib.

Lemma possible_moves_gives_the_list_back_witness :
  @possible_moves Toy.lib ["e4"; "e5"] = Ret ["Bc4"; "Nf3"].
Proof.
  apply (@possible_moves_gives_the_list_back Toy.lib ["e4"; "e5"]).
  - vm_compute. discriminate.
  - vm_compute. repeat constructor.
Defined.

Lemma empty_move_is_accepted_when_no_move_is_legal_witness :
  @apply_player_move Toy.lib ["f3"; "e5"; "g4"; "Qh4#"] ""
  = Ret (true, ["f3"; "e5"; "g4"; "Qh4#"; ""]).
Proof.
  apply (@empty_move_is_accepted_when_no_move_is_legal Toy.lib
           ["f3"; "e5"; "g4"; "Qh4#"] ["f3"; "e5"; "g4"; "Qh4#"]);
    reflexivity.
Defined.

Lemma toy_laws_without_engine : ChessLaws Toy.lib_without_engine.
Proof.
  constructor.
  - exact (san_shape _ ToyFacts.toy_laws).
  - exact (engine_legal _ ToyFacts.toy_laws).
Qed.

Lemma apply_bot_move_outcome_witness :
  @apply_bot_move Toy.lib ["e4"] (Toy.world0 "")
  = (Ret ("e5", ["e4"; "e5"]),
     emit_all [EnginePopen; EnginePlay (@fen Toy.lib ["e4"])] (Toy.world0 ""))
  /\ @apply_bot_move Toy.lib_without_engine ["e4"] (Toy.world0 "")
     = (Exc OSError, emit_all [EnginePopen] (Toy.world0 "")).
Proof.
  split.
  - destruct (@apply_bot_move_outcome Toy.lib ToyFacts.toy_laws ["e4"]
                (Toy.world0 "")) as [_ H].
    destruct (H eq_refl) as [_ Hb]. specialize (Hb ["e4"] eq_refl).
    destruct (@apply_bot_move Toy.lib ["e4"] (Toy.world0 ""))
      as [[[my_move history]|e] w'] eqn:E.
    + vm_compute in E. now injection E as <- <- <-.
    + vm_compute in E. discriminate E.
  - apply (@apply_bot_move_outcome Toy.lib_without_engine
             toy_laws_without_engine ["e4"] (Toy.world0 "")).
    reflexivity.
Defined.

Lemma create_board_image_asks_for_the_placement_witness :
  @create_board_image Toy.lib ["e4"] (Toy.world0 "")
  = (Ret "board.jpg",
     emit_all
       [HttpGet "http://www.fen-to-image.com/image/rnbqkbnr/pppppppp/8/8/8/8/PPPPPPPP/RNBQKBNR"
          "board.jpg"]
       (Toy.world0 "")).
Proof.
  apply (@create_board_image_asks_for_the_placement Toy.lib ["e4"]
           "rnbqkbnr/pppppppp/8/8/8/8/PPPPPPPP/RNBQKBNR" "w KQkq - 0 1").
  - reflexivity.
  - reflexivity.
Defined.

End PieceFacts.

(* ===================================================================== *)
(** * The chunks of a history *)
(* ===================================================================== *)

Module ChunkFacts.
Import Laws PyFacts Chunks.

Lemma spaced_app (a b : list string) : spaced (a ++ b) = spaced a ++ spaced b.
Proof.
  induction a as [|x a IH]; [reflexivity|].
  cbn [spaced app]. now rewrite IH, !app_assoc.
Qed.

Lemma spaced_snoc (cur : list string) (a : string) :
  spaced cur ++ a ++ " " = spaced (cur ++ [a]).
Proof. rewrite spaced_app. cbn [spaced]. now rewrite app_nil_r. Qed.

Lemma subseq_refl {A} (l : list A) : subseq l l.
Proof. induction l; [constructor | now apply subseq_take]. Qed.

Lemma subseq_app_head {A} (p a b : list A) :
  subseq a b -> subseq (p ++ a) (p ++ b).
Proof. intros H. induction p; cbn; [exact H | now apply subseq_take]. Qed.

(** The loop, from a state in which [cur] is in the fragment and [done]
    are the fragments put aside. *)
Lemma split_loop_groups (ws : list string) :
  forall cur done,
    Forall (fun a => String.length a <= 240) cur ->
    exists groups,
      Codec.split_loop ws (spaced cur) (map spaced done)
      = map spaced (done ++ groups)
      /\ groups <> []
      /\ subseq (concat groups) (cur ++ ws)
      /\ Forall (Forall (fun a => String.length a <= 240)) groups.
Proof.
  induction ws as [|a ws IH]; intros cur done Hcur.
  - exists [cur]. cbn [Codec.split_loop]. rewrite map_app. cbn [map concat].
    rewrite !List.app_nil_r. repeat split; auto.
    + discriminate.
    + apply subseq_refl.
  - cbn [Codec.split_loop].
    destruct (String.length (spaced cur ++ a) <=? 240)%nat eqn:E.
    + apply Nat.leb_le in E. rewrite length_app in E.
      destruct (IH (cur ++ [a])%list done) as (groups & Hrun & Hne & Hsub & Hlen).
      { apply Forall_app. split; [exact Hcur|]. constructor; [lia | constructor]. }
      exists groups. rewrite spaced_snoc, Hrun.
      rewrite <- List.app_assoc in Hsub. auto.
    + destruct (IH [] (done ++ [cur])%list) as (groups & Hrun & Hne & Hsub & Hlen);
        [constructor|].
      exists (cur :: groups).
      replace (map spaced done ++ [spaced cur])%list
        with (map spaced (done ++ [cur])) by (now rewrite map_app).
      change "" with (spaced []). rewrite Hrun, <- List.app_assoc.
      repeat split; auto.
      * discriminate.
      * cbn [concat]. apply subseq_app_head. apply subseq_skip. exact Hsub.
Qed.

Lemma split_loop_lengths (ws : list string) :
  forall fragment ret,
    String.length fragment <= 241 ->
    Forall (fun c => String.length c <= 241) ret ->
    Forall (fun c => String.length c <= 241) (Codec.split_loop ws fragment ret).
Proof.
  induction ws as [|a ws IH]; intros fragment ret Hf Hret;
    cbn [Codec.split_loop].
  - apply Forall_app. split; [exact Hret | constructor; [exact Hf | constructor]].
  - destruct (String.length (fragment ++ a) <=? 240)%nat eqn:E.
    + apply Nat.leb_le in E. apply IH; [|exact Hret].
      rewrite <- app_assoc, length_app. cbn. lia.
    + apply IH; [cbn; lia|].
      apply Forall_app. split; [exact Hret | constructor; [exact Hf | constructor]].
Qed.

(** X7. The chunks of [split_to_240_char] are made of whole words:
    each chunk is a list of words of the text, each of them followed by
    one space; the words of the chunks, taken in order, are words of the
    text in the order of the text (some may be missing, none is added,
    cut or moved); no word of a chunk has more than 240 characters and
    no chunk more than 241; and the list of chunks is never empty. *)
Theorem chunks_hold_whole_words (s : string) :
  exists groups : list (list string),
    Codec.split_to_240_char s = map spaced groups
    /\ groups <> []
    /\ subseq (concat groups) (Py.split s)
    /\ Forall (Forall (fun a => String.length a <= 240)) groups
    /\ Forall (fun c => String.length c <= 241) (Codec.split_to_240_char s).
Proof.
  destruct (split_loop_groups (Py.split s) [] []) as (groups & Hrun & Hne & Hsub & Hlen);
    [constructor|].
  exists groups. unfold Codec.split_to_240_char.
  repeat split; auto.
  apply split_loop_lengths; [cbn; lia | constructor].
Qed.

(** When the words fit, nothing is cut. *)
Lemma join_spaced (ws : list string) :
  ws <> [] -> spaced ws = Py.join " " ws ++ " ".
Proof.
  induction ws as [|a ws IH]; [congruence|]. intros _.
  destruct ws as [|b ws'].
  - reflexivity.
  - change (Py.join " " (a :: b :: ws')) with (a ++ " " ++ Py.join " " (b :: ws')).
    cbn [spaced] in *. rewrite IH by discriminate. now rewrite !app_assoc.
Qed.

Lemma join_snoc_length (cur : list string) (a : string) :
  cur <> [] ->
  String.length (Py.join " " (cur ++ [a])) = String.length (spaced cur ++ a).
Proof.
  intros Hne. induction cur as [|x cur IH]; [congruence|].
  destruct cur as [|y cur'].
  - cbn. rewrite !length_app. cbn. lia.
  - change (Py.join " " ((x :: y :: cur') ++ [a]))
      with (x ++ " " ++ Py.join " " ((y :: cur') ++ [a])).
    cbn [spaced]. rewrite !length_app, IH by discriminate.
    cbn [spaced]. rewrite !length_app. cbn. lia.
Qed.

Lemma join_prefix_length (a b : list string) :
  String.length (Py.join " " a) <= String.length (Py.join " " (a ++ b)).
Proof.
  induction a as [|x a IH]; [cbn; lia|].
  destruct a as [|y a'].
  - destruct b as [|z b']; [cbn; lia|].
    change (Py.join " " ([x] ++ z :: b')) with (x ++ " " ++ Py.join " " (z :: b')).
    cbn [Py.join String.concat]. rewrite length_app. lia.
  - change (Py.join " " ((x :: y :: a') ++ b))
      with (x ++ " " ++ Py.join " " ((y :: a') ++ b)).
    change (Py.join " " (x :: y :: a'))
      with (x ++ " " ++ Py.join " " (y :: a')).
    rewrite !length_app. lia.
Qed.

Lemma split_loop_fits (ws : list string) :
  forall cur ret,
    String.length (Py.join " " (cur ++ ws)) <= 240 ->
    Codec.split_loop ws (spaced cur) ret = (ret ++ [spaced (cur ++ ws)])%list.
Proof.
  induction ws as [|a ws IH]; intros cur ret Hlen; cbn [Codec.split_loop].
  - now rewrite List.app_nil_r.
  - assert (Hfit : (String.length (spaced cur ++ a) <=? 240)%nat = true).
    { apply Nat.leb_le.
      pose proof (join_prefix_length (cur ++ [a]) ws) as Hp.
      rewrite <- List.app_assoc in Hp. cbn [app] in Hp.
      destruct cur as [|x cur'].
      - cbn [spaced]. cbn in Hp. cbn in Hlen. cbn. lia.
      - rewrite <- join_snoc_length by discriminate. lia. }
    rewrite Hfit, spaced_snoc, IH; rewrite <- List.app_assoc; auto.
Qed.

Lemma strip_one_space_spaced (ws : list string) :
  Codec.strip_one_space (spaced ws) = Py.join " " ws.
Proof.
  destruct ws as [|a ws]; [reflexivity|].
  rewrite join_spaced by discriminate.
  set (x := Py.join " " (a :: ws)). unfold Codec.strip_one_space.
  assert (Hget : get (String.length (x ++ " ") - 1) (x ++ " ") = Some " "%char).
  { rewrite length_app. cbn [String.length].
    replace (String.length x + 1 - 1) with (String.length x) by lia.
    clearbody x. induction x as [|c x IH]; [reflexivity | exact IH]. }
  rewrite Hget. cbn. apply MoveFacts.drop_last_snoc.
Qed.

Lemma split_join_tokens (h : list string) :
  Forall (fun t => token_ok t = true) h -> Py.split (Py.join " " h) = h.
Proof.
  intros Hh. rewrite <- (split_join_space h Hh) at 2.
  rewrite <- (FileFacts.split_rstrip (Py.join " " h ++ " ")).
  rewrite FileFacts.rstrip_app_spaces by reflexivity.
  now rewrite FileFacts.split_rstrip.
Qed.

(** X8. When the words of the text, joined by single spaces, take 240
    characters at most, [split_to_240_char] returns one chunk that holds
    all the words; taking the trailing space off that chunk gives the
    text with its white space normalised, and its words are the words of
    the text: nothing is lost. *)
Theorem short_text_is_one_chunk (s : string) :
  String.length (Py.join " " (Py.split s)) <= 240 ->
  Codec.split_to_240_char s = [spaced (Py.split s)]
  /\ Codec.rejoin (Codec.split_to_240_char s) = Py.join " " (Py.split s)
  /\ Py.split (Codec.rejoin (Codec.split_to_240_char s)) = Py.split s.
Proof.
  intros Hlen. unfold Codec.split_to_240_char.
  pose proof (split_loop_fits (Py.split s) [] [] Hlen) as Hrun.
  cbn [spaced app] in Hrun. rewrite Hrun. split; [reflexivity|].
  unfold Codec.rejoin. cbn [map Py.join String.concat].
  rewrite strip_one_space_spaced. split; [reflexivity|].
  apply split_join_tokens, FileFacts.split_tokens.
Qed.

Lemma short_text_is_one_chunk_witness :
  Codec.rejoin (Codec.split_to_240_char "e4 e5  Nf3 Nc6 ") = "e4 e5 Nf3 Nc6".
Proof.
  destruct (short_text_is_one_chunk "e4 e5  Nf3 Nc6 ") as (_ & H & _).
  - vm_compute. lia.
  - exact H.
Defined.

End ChunkFacts.

(* ===================================================================== *)
(** * The rewrite of the store *)
(* ===================================================================== *)

Module SaveFacts.
Import Bot Laws PyFacts MoveFacts EffectFacts RunFacts FileFacts.

Lemma write_lines_stop (pre post : list game) (g : game) :
  Forall (fun g => two_fields g = true) pre ->
  two_fields g = false ->
  forall w,
    for_each (pre ++ g :: post) (fun game =>
      user <- lift (item game 0) ;;
      history <- lift (item game 1) ;;
      perform (WriteGames (user ++ "," ++ history ++ nl))) w
    = (Exc IndexError,
       emit_all (map (fun g => WriteGames (line_of g)) pre) w).
Proof.
  intros Hpre Hg. induction Hpre as [|p pre Hp Hpre IH]; intros w.
  - cbn [app for_each map]. unfold bind at 1.
    destruct g as [|u [|h r]]; [reflexivity | reflexivity | discriminate].
  - cbn [app for_each map]. destruct (two_fields_items p Hp) as [H0 H1].
    unfold bind at 1. unfold bind at 1. unfold lift at 1. rewrite H0.
    unfold bind at 1. unfold lift at 1. rewrite H1.
    unfold perform at 1. rewrite IH. reflexivity.
Qed.

(** X9. The rewrite of [games.txt] stops at the first game that has
    no second field (what a line without a comma, an empty line for
    instance, is read as): the file has been opened, and so emptied, the
    games before that game have been written, and [IndexError] is
    raised.  When the call of [main] ends with this exception, the file
    holds the lines of the games before that game, written over what the
    file object of the pass before held, if there was one; in the first
    pass of a cycle the file holds these lines and nothing else, the
    games after them being lost. *)
Theorem write_games_stops_at_a_line_without_comma
    (pre post : list game) (g : game) (w : world) :
  Forall (fun g => two_fields g = true) pre ->
  two_fields g = false ->
  write_games (pre ++ g :: post) w
  = (Exc IndexError, emit_all (save_effects pre) w)
  /\ games_txt (release (snd (write_games (pre ++ g :: post) w)))
     = overwrite (text_of pre) (flushed (f_buffer w) "")
  /\ (f_buffer w = None ->
      games_txt (release (snd (write_games (pre ++ g :: post) w)))
      = text_of pre).
Proof.
  intros Hpre Hg.
  assert (Hrun : write_games (pre ++ g :: post) w
                 = (Exc IndexError, emit_all (save_effects pre) w)).
  { unfold write_games.
    rewrite (bind_run _ _ _ _ _ (perform_run OpenGamesForWrite w)).
    rewrite write_lines_stop by assumption. reflexivity. }
  assert (Hfile : games_txt (release (snd (write_games (pre ++ g :: post) w)))
                  = overwrite (text_of pre) (flushed (f_buffer w) "")).
  { rewrite Hrun. cbn [snd]. unfold release. cbn [games_txt].
    destruct (games_txt_save pre w) as [-> ->]. reflexivity. }
  split; [exact Hrun|]. split; [exact Hfile|].
  intros Hnone. rewrite Hfile, Hnone. cbn [flushed]. apply overwrite_nil.
Qed.

(** X10. What the only pass of a cycle writes, the next cycle reads.
    For games whose first two fields hold no comma and no end of line,
    in a call of [main] that has not opened [games.txt] before: the
    rewrite returns; when [main] ends after it, the file holds the lines
    of the games; and reading the file gives, game by game, the name
    without the white space at its head and the history without the
    white space at its end, so that the names are those written, up to
    white space at the head, and the lists of moves are those written. *)
Theorem games_written_are_read_back (games : list game) (w : world) :
  Forall fields_ok games ->
  f_buffer w = None ->
  write_games games w = (Ret tt, emit_all (save_effects games) w)
  /\ games_txt (release (snd (write_games games w))) = text_of games
  /\ parse_games (games_txt (release (snd (write_games games w))))
     = map read_back games
  /\ map (fun g => nth 0 g "")
       (parse_games (games_txt (release (snd (write_games games w)))))
     = map (fun g => Py.lstrip (nth 0 g "")) games
  /\ map (fun g => Py.split (nth 1 g ""))
       (parse_games (games_txt (release (snd (write_games games w)))))
     = map (fun g => Py.split (nth 1 g "")) games.
Proof.
  intros Hok Hnone.
  assert (Htwo : Forall (fun g => two_fields g = true) games)
    by (revert Hok; apply Forall_impl; intros g H; apply H).
  rewrite (write_games_run games w Htwo). split; [reflexivity|].
  assert (Hfile : games_txt (release (snd (Ret tt, emit_all (save_effects games) w)))
                  = text_of games).
  { cbn [snd]. unfold release. cbn [games_txt].
    destruct (games_txt_save games w) as [-> ->].
    rewrite Hnone. cbn [flushed]. apply overwrite_nil. }
  rewrite Hfile, parse_games_text_of by exact Hok.
  split; [reflexivity|]. split; [reflexivity|]. rewrite !map_map. split.
  - reflexivity.
  - apply map_ext. intros g. cbn [read_back nth]. apply split_rstrip.
Qed.

Lemma write_games_stops_at_a_line_without_comma_witness :
  parse_games ("alice,f3 e5 " ++ nl ++ nl ++ "bob,e4 e5 " ++ nl)
  = ([["alice"; "f3 e5"]] ++ [""] :: [["bob"; "e4 e5"]])%list
  /\ games_txt
       (release
          (snd (write_games
                  ([["alice"; "f3 e5"]] ++ [""] :: [["bob"; "e4 e5"]])%list
                  (Toy.world0
                     ("alice,f3 e5 " ++ nl ++ nl ++ "bob,e4 e5 " ++ nl)))))
     = "alice,f3 e5" ++ nl.
Proof.
  split; [vm_compute; reflexivity|].
  apply (write_games_stops_at_a_line_without_comma
           [["alice"; "f3 e5"]] [["bob"; "e4 e5"]] [""]).
  - repeat constructor.
  - reflexivity.
  - reflexivity.
Defined.

Lemma games_written_are_read_back_witness :
  parse_games
    (games_txt
       (release
          (snd (write_games
                  [["alice"; "f3 e5 "]; ["bob"; "e4 e5 Bc4 Nc6 "]]
                  (Toy.world0 "")))))
  = [["alice"; "f3 e5"]; ["bob"; "e4 e5 Bc4 Nc6"]].
Proof.
  apply (games_written_are_read_back
           [["alice"; "f3 e5 "]; ["bob"; "e4 e5 Bc4 Nc6 "]] (Toy.world0 "")).
  - repeat constructor.
  - reflexivity.
Defined.

(** A blank line in the store: the pass of a user who has no game
    raises, and when [main] ends the games after the blank line are gone
    from the file. *)
Example blank_line_in_the_store :
  @main Toy.lib (fun _ => [Toy.tweet 101 "carol" "@bot #getpgn"])
    (Toy.world0 ("alice,f3 e5 " ++ nl ++ nl ++ "bob,e4 e5 " ++ nl))
  = (Exc IndexError,
     {| last_seen_id_txt := 101;
        games_txt := "alice,f3 e5" ++ nl;
        f_buffer := None;
        effects :=
          [ WriteLastSeen 101;
            UpdateStatus "@carol No game found." 101;
            OpenGamesForWrite;
            WriteGames ("alice,f3 e5" ++ nl) ] |}).
Proof. vm_compute. reflexivity. Qed.

End SaveFacts.

(* ===================================================================== *)
(** * One pass, scenario by scenario *)
(* ===================================================================== *)

Module TurnFacts.
Import Bot Laws Turn PyFacts MoveFacts StoreFacts EffectFacts RunFacts.
Import ResignFacts MateFacts RecordFacts PieceFacts.

(** ** Running a computation step by step *)

Lemma bind_lift_run {A B} (r : res A) (f : A -> M B) (w : world) (a : A) :
  r = Ret a -> bind (lift r) f w = f a w.
Proof. intros ->. reflexivity. Qed.

Lemma bind_lift_exc {A B} (r : res A) (f : A -> M B) (w : world) (e : exn) :
  r = Exc e -> bind (lift r) f w = (Exc e, w).
Proof. intros ->. reflexivity. Qed.

Lemma bind_perform_run {B} (e : event) (f : unit -> M B) (w : world) :
  bind (perform e) f w = f tt (emit_all [e] w).
Proof. reflexivity. Qed.

Lemma emit_emit (a b : list event) (w : world) :
  emit_all b (emit_all a w) = emit_all (a ++ b) w.
Proof. symmetry. apply emit_all_app. Qed.

(** ** The search, from what it finds *)

Lemma last_match_unique (name : string) (games : list game) (i j : nat) :
  last_match name games i -> last_match name games j -> i = j.
Proof.
  intros [(g & Hi & _ & Hn) Hlater] [(g' & Hj & _ & Hn') Hlater'].
  destruct (Nat.lt_trichotomy i j) as [H | [H | H]]; [|exact H|].
  - exfalso. exact (Hlater j g' H Hj Hn').
  - exfalso. exact (Hlater' i g H Hi Hn).
Qed.

Lemma find_game_at (name : string) (games : list game) (i : nat) :
  Forall (fun g : game => g <> []) games ->
  last_match name games i -> find_game name games = Ret (Z.of_nat i).
Proof.
  intros Hne Hlast.
  destruct (find_game_spec name games Hne) as [[_ Hno] | (j & Hf & Hj)].
  - destruct Hlast as [(g & Hi & _ & Hn) _]. exfalso. exact (Hno i g Hi Hn).
  - now rewrite (last_match_unique _ _ _ _ Hlast Hj).
Qed.

Lemma find_game_none (name : string) (games : list game) :
  Forall (fun g : game => g <> []) games ->
  no_match name games -> find_game name games = Ret (-1)%Z.
Proof.
  intros Hne Hno.
  destruct (find_game_spec name games Hne)
    as [[Hf _] | (j & _ & (g & Hj & _ & Hn) & _)]; [exact Hf|].
  exfalso. exact (Hno j g Hj Hn).
Qed.

Lemma find_game_some (name : string) (games : list game) :
  Forall (fun g : game => g <> []) games ->
  exists gi, find_game name games = Ret gi.
Proof.
  intros Hne.
  destruct (find_game_spec name games Hne) as [[Hf _] | (j & Hf & _)]; eauto.
Qed.

Lemma no_matchb_spec (name : string) (games : list game) :
  no_matchb name games = true -> no_match name games.
Proof.
  unfold no_matchb. rewrite forallb_forall. intros H j g Hj.
  apply nth_error_In in Hj. specialize (H g Hj).
  apply negb_true_iff in H. now apply String.eqb_neq.
Qed.

Lemma last_matchb_spec (name : string) (games : list game) (i : nat) :
  last_matchb name games i = true -> last_match name games i.
Proof.
  unfold last_matchb. intros H. apply andb_true_iff in H as [Hi Hlater].
  split.
  - destruct (nth_error games i) as [[|user r]|] eqn:E; try discriminate.
    exists (user :: r). repeat split; [discriminate|].
    now apply String.eqb_eq.
  - intros j g Hj Hnth. rewrite forallb_forall in Hlater.
    assert (Hin : In g (skipn (S i) games)).
    { rewrite <- (firstn_skipn (S i) games) in Hnth.
      rewrite nth_error_app2 in Hnth
        by (rewrite length_firstn; lia).
      eapply nth_error_In, Hnth. }
    specialize (Hlater g Hin). apply negb_true_iff in Hlater.
    now apply String.eqb_neq.
Qed.

Section WithLib.
Context {lib : ChessLib}.

(** ** From the chain of tests to the end of the pass *)

Lemma handle_enter (m : mention) (w w1 : world) (gi : Z) (l : locals) :
  find_game (screen_name m) (parse_games (games_txt w)) = Ret gi ->
  hashtags m (parse_games (games_txt w)) gi w = (Ret l, w1) ->
  handle m w = finish m l w1.
Proof.
  intros Hf Hh. unfold handle. unfold bind at 1. unfold read_games at 1.
  cbv zeta. rewrite (bind_lift_run _ _ _ _ Hf).
  now rewrite (bind_run _ _ _ _ _ Hh).
Qed.

Lemma handle_raise (m : mention) (w w1 : world) (gi : Z) (e : exn) :
  find_game (screen_name m) (parse_games (games_txt w)) = Ret gi ->
  hashtags m (parse_games (games_txt w)) gi w = (Exc e, w1) ->
  handle m w = (Exc e, w1).
Proof.
  intros Hf Hh. unfold handle. unfold bind at 1. unfold read_games at 1.
  cbv zeta. rewrite (bind_lift_run _ _ _ _ Hf).
  unfold bind. now rewrite Hh.
Qed.

Lemma finish_idle (m : mention) (games : list game) (w : world) :
  Forall (fun g => two_fields g = true) games ->
  finish m (idle games) w
  = (Ret (idle games), emit_all (save_effects games) w).
Proof.
  intros Htwo. rewrite finish_no_move by reflexivity.
  erewrite bind_run by (apply game_over_block_skip; reflexivity).
  cbn [idle list_of_games].
  rewrite (bind_run _ _ _ _ _ (write_games_run games w Htwo)). reflexivity.
Qed.

(** ** The four branches that play no move *)

(** In the statements of this part the rewrite of [games.txt] stands
    for the effects of the rewrite ([save_effects]): the opening of the
    file and one write for each game of the list in memory.  What the
    file holds after them is told by the facts on the file object (X9,
    X10 and X26). *)

(** X11. A mention with the error marker and without the resign marker
    is reported by mail and nothing else: the pass returns, its effects
    are the mail, with the identifier, the name and the text of the
    mention, and the rewrite of [games.txt], issued for the games as they
    were read; no reply is posted and no move is played, whatever else
    the text holds. *)
Theorem error_is_reported (m : mention) (w : world) :
  tagged "#resign" m = false ->
  tagged "#error" m = true ->
  Forall (fun g => two_fields g = true) (parse_games (games_txt w)) ->
  handle m w
  = (Ret (idle (parse_games (games_txt w))),
     emit_all (error_report m :: save_effects (parse_games (games_txt w))) w).
Proof.
  intros Hres Herr Htwo. set (games := parse_games (games_txt w)) in *.
  destruct (find_game_some (screen_name m) games (parse_games_nonempty _))
    as [gi Hf].
  assert (Hh : hashtags m games gi w
               = (Ret (idle games), emit_all [error_report m] w)).
  { unfold hashtags, tagged in *. cbv zeta. rewrite Hres, Herr. reflexivity. }
  assert (Hrun : handle m w
                 = (Ret (idle games),
                    emit_all (error_report m :: save_effects games) w)).
  { rewrite (handle_enter m w _ gi _ Hf Hh), finish_idle by exact Htwo.
    now rewrite emit_emit. }
  exact Hrun.
Qed.

(** X14. A mention of a user who has no game, with no marker at all,
    gets one reply that asks for the start marker, whatever move the text
    holds; the rewrite of [games.txt] is issued for the games as they
    were read. *)
Theorem stranger_is_told_to_start (m : mention) (w : world) :
  no_command m = true ->
  tagged "#startgame" m = false ->
  no_match (screen_name m) (parse_games (games_txt w)) ->
  Forall (fun g => two_fields g = true) (parse_games (games_txt w)) ->
  handle m w
  = (Ret (idle (parse_games (games_txt w))),
     emit_all
       (status m " Include #startgame if you would like to start a game."
        :: save_effects (parse_games (games_txt w))) w).
Proof.
  intros Hcmd Hstart Hno Htwo. set (games := parse_games (games_txt w)) in *.
  pose proof (find_game_none _ _ (parse_games_nonempty _) Hno) as Hf.
  fold games in Hf.
  unfold no_command in Hcmd. rewrite !andb_true_iff, !negb_true_iff in Hcmd.
  destruct Hcmd as [[[H1 H2] H3] H4].
  assert (Hh : hashtags m games (-1) w
               = (Ret (idle games),
                  emit_all
                    [status m " Include #startgame if you would like to start a game."]
                    w)).
  { unfold hashtags, tagged in *. cbv zeta.
    rewrite H1, H2, H3, H4, Hstart. reflexivity. }
  assert (Hrun : handle m w
                 = (Ret (idle games),
                    emit_all
                      (status m " Include #startgame if you would like to start a game."
                       :: save_effects games) w)).
  { rewrite (handle_enter m w _ _ _ Hf Hh), finish_idle by exact Htwo.
    now rewrite emit_emit. }
  exact Hrun.
Qed.

Lemma create_board_image_run (b : Board) (w : world) :
  create_board_image b w = (Ret "board.jpg", emit_all [image b] w).
Proof. reflexivity. Qed.

Lemma update_with_media_run (m : mention) (text : string) (w : world) :
  update_with_media m "board.jpg" text w = (Ret tt, emit_all [media m text] w).
Proof. reflexivity. Qed.

Lemma update_status_run (m : mention) (text : string) (w : world) :
  update_status m text w = (Ret tt, emit_all [status m text] w).
Proof. reflexivity. Qed.

Lemma not_minus_one (i : nat) : negb (Z.of_nat i =? -1)%Z = true.
Proof. apply negb_true_iff, Z.eqb_neq. lia. Qed.

(** The game of the user, as the branches that look at it get it. *)
Lemma user_game_run {B} (games : list game) (i : nat) (g : game)
    (history : string) (k : string -> M B) (w : world) :
  nth_error games i = Some g -> nth_error g 1 = Some history ->
  (i <- lift (py_pos (length games) (Z.of_nat i)) ;;
   g <- lift (item games i) ;;
   history <- lift (item g 1) ;;
   k history) w
  = k history w.
Proof.
  intros Hi Hh.
  rewrite (bind_lift_run _ _ _ i)
    by (apply py_pos_nat, nth_error_Some; congruence).
  rewrite (bind_lift_run _ _ _ g) by (unfold item; now rewrite Hi).
  rewrite (bind_lift_run _ _ _ history) by (unfold item; now rewrite Hh).
  reflexivity.
Qed.

(** X12. A mention with the marker for the possible moves, and neither
    the resign nor the error marker, is answered with the moves of the
    position of the user's game (the starting position when the user has
    no game): the effects are the request for the image of that
    position, one reply with the image and the list that
    [possible_moves] returns, and the rewrite of [games.txt], issued for
    the games as they were read.  The image file is not removed. *)
Theorem possible_moves_are_posted (m : mention) (w : world) (b : Board) :
  tagged "#resign" m = false ->
  tagged "#error" m = false ->
  tagged "#possiblemoves" m = true ->
  Forall (fun g => two_fields g = true) (parse_games (games_txt w)) ->
  position_of (screen_name m) (parse_games (games_txt w)) b ->
  exists moves,
    possible_moves b = Ret moves
    /\ handle m w
       = (Ret (idle (parse_games (games_txt w))),
          emit_all
            ([ image b;
               media m (" Here are all of the valid moves in this position: "
                        ++ Codec.pgn_list_to_string moves) ]
             ++ save_effects (parse_games (games_txt w))) w).
Proof.
  intros Hres Herr Hpos Htwo Hb. set (games := parse_games (games_txt w)) in *.
  destruct (possible_moves_returns b) as (moves & Hm & _).
  exists moves. split; [exact Hm|].
  assert (Hrun : handle m w
                 = (Ret (idle games),
                    emit_all
                      ([ image b;
                         media m (" Here are all of the valid moves in this position: "
                                  ++ Codec.pgn_list_to_string moves) ]
                       ++ save_effects games) w)).
  { assert (Htail : forall w0,
              (pos_moves <- lift (possible_moves b) ;;
               filename <- create_board_image b ;;
               update_with_media m filename
                 (" Here are all of the valid moves in this position: "
                  ++ Codec.pgn_list_to_string pos_moves) ;;;
               ret (idle games)) w0
              = (Ret (idle games),
                 emit_all
                   [ image b;
                     media m (" Here are all of the valid moves in this position: "
                              ++ Codec.pgn_list_to_string moves) ] w0)).
    { intros w0. rewrite (bind_lift_run _ _ _ _ Hm).
      rewrite (bind_run _ _ _ _ _ (create_board_image_run b w0)).
      rewrite (bind_run _ _ _ _ _ (update_with_media_run m _ _)).
      unfold ret. now rewrite emit_emit. }
    destruct Hb as [[Hno ->] | (i & g & history & Hlast & Hi & Hh & Hpush)].
    - pose proof (find_game_none _ _ (parse_games_nonempty _) Hno) as Hf.
      fold games in Hf.
      erewrite handle_enter; [|exact Hf|].
      + rewrite finish_idle by exact Htwo. now rewrite emit_emit.
      + unfold hashtags, tagged in *. cbv zeta. rewrite Hres, Herr, Hpos.
        change (negb (-1 =? -1)%Z) with false. cbv iota.
        rewrite (bind_run _ _ w w new_board) by reflexivity.
        apply Htail.
    - pose proof (find_game_at _ _ _ (parse_games_nonempty _) Hlast) as Hf.
      fold games in Hf.
      erewrite handle_enter; [|exact Hf|].
      + rewrite finish_idle by exact Htwo. now rewrite emit_emit.
      + unfold hashtags, tagged in *. cbv zeta. rewrite Hres, Herr, Hpos.
        rewrite not_minus_one. cbv iota.
        rewrite (bind_run _ _ w w b).
        * apply Htail.
        * rewrite (user_game_run games i g history _ w Hi Hh).
          unfold lift. now rewrite Hpush. }
  exact Hrun.
Qed.

(** X13. A mention with the marker for the history, and none of the
    three markers tested before it, is answered with the stored history
    of the user, chunk by chunk as [split_to_240_char] cuts it, or with
    one reply that no game was found when the user has none; in both
    cases [games.txt] is rewritten with the games as they were read. *)
Theorem history_is_posted (m : mention) (w : world) :
  tagged "#resign" m = false ->
  tagged "#error" m = false ->
  tagged "#possiblemoves" m = false ->
  tagged "#getpgn" m = true ->
  Forall (fun g => two_fields g = true) (parse_games (games_txt w)) ->
  (no_match (screen_name m) (parse_games (games_txt w)) ->
   handle m w
   = (Ret (idle (parse_games (games_txt w))),
      emit_all
        (status m " No game found."
         :: save_effects (parse_games (games_txt w))) w))
  /\ (forall i g history,
        last_match (screen_name m) (parse_games (games_txt w)) i ->
        nth_error (parse_games (games_txt w)) i = Some g ->
        nth_error g 1 = Some history ->
        handle m w
        = (Ret (idle (parse_games (games_txt w))),
           emit_all
             (map (fun a => status m (" " ++ a))
                (Codec.split_to_240_char history)
              ++ save_effects (parse_games (games_txt w))) w)).
Proof.
  intros Hres Herr Hpos Hpgn Htwo. set (games := parse_games (games_txt w)) in *.
  split.
  - intros Hno.
    pose proof (find_game_none _ _ (parse_games_nonempty _) Hno) as Hf.
    fold games in Hf.
    rewrite (handle_enter m w (emit_all [status m " No game found."] w)
               _ (idle games) Hf).
    + rewrite finish_idle by exact Htwo. now rewrite emit_emit.
    + unfold hashtags, tagged in *. cbv zeta.
      rewrite Hres, Herr, Hpos, Hpgn. reflexivity.
  - intros i g history Hlast Hi Hh.
    pose proof (find_game_at _ _ _ (parse_games_nonempty _) Hlast) as Hf.
    fold games in Hf.
    rewrite (handle_enter m w
               (emit_all (map (fun a => status m (" " ++ a))
                            (Codec.split_to_240_char history)) w)
               _ (idle games) Hf).
    + rewrite finish_idle by exact Htwo. now rewrite emit_emit.
    + unfold hashtags, tagged in *. cbv zeta.
      rewrite Hres, Herr, Hpos, Hpgn, not_minus_one. cbv iota.
      erewrite bind_run; [reflexivity|].
      rewrite (user_game_run games i g history _ w Hi Hh).
      unfold update_status.
      apply (for_each_perform (Codec.split_to_240_char history)
               (fun a => UpdateStatus ("@" ++ screen_name m ++ " " ++ a) (id m))).
Qed.

(** ** The move block, case by case *)

Lemma apply_player_move_legal (h : list string) (mv : string) (b1 : Board) :
  legal_move h mv b1 ->
  apply_player_move h mv = Ret (true, (h ++ [mv])%list).
Proof.
  intros (b0 & moves & Hb0 & Hm & Hin & _). unfold apply_player_move.
  rewrite Hb0. cbn [rbind]. rewrite Hm. cbn [rbind].
  now rewrite (proj2 (mem_In mv moves) Hin).
Qed.

Lemma apply_player_move_illegal (h : list string) (mv : string) (b0 : Board) :
  illegal_move h mv b0 -> apply_player_move h mv = Ret (false, h).
Proof.
  intros (Hb0 & moves & Hm & Hin). unfold apply_player_move.
  rewrite Hb0. cbn [rbind]. rewrite Hm. cbn [rbind].
  now rewrite (proj2 (mem_not_In mv moves) Hin).
Qed.

Lemma apply_bot_move_run (h : list string) (b1 : Board) (s : string)
    (b2 : Board) (w : world) :
  engine_answers h b1 s b2 ->
  apply_bot_move h w
  = (Ret (s, (h ++ [s])%list), emit_all (engine_calls b1) w).
Proof.
  intros (Hstart & Hb1 & uci & He & Hs & _). unfold apply_bot_move.
  rewrite bind_perform_run, Hstart.
  rewrite (bind_run _ _ _ _ tt (eq_refl : ret tt _ = (Ret tt, _))).
  rewrite (bind_lift_run _ _ _ _ Hb1), bind_perform_run.
  rewrite He, Hs. unfold ret. now rewrite emit_emit.
Qed.

Lemma engine_answers_board (h : list string) (b1 : Board) (s : string)
    (b2 : Board) :
  engine_answers h b1 s b2 -> push_pgn (h ++ [s]) = Ret b2.
Proof. now intros (_ & _ & uci & _ & _ & H). Qed.

(** The reply of the engine and the image of the position it gives. *)
Ltac engine_reply Hans :=
  rewrite (bind_run _ _ _ _ _ (apply_bot_move_run _ _ _ _ _ Hans));
  cbv beta match;
  rewrite (bind_lift_run _ _ _ _ (engine_answers_board _ _ _ _ Hans));
  rewrite (bind_run _ _ _ _ _ (create_board_image_run _ _)).

Lemma exchange_run (m : mention) (games : list game) (i : nat) (g : game)
    (history : string) (l1 : locals) (mh : list string) (fn : string)
    (w w1 : world) :
  nth_error games i = Some g -> nth_error g 1 = Some history ->
  move_or_not m (playing games i) (Py.split history)
    (move_tried_of (full_text m)) w
  = (Ret (l1, mh, fn), w1) ->
  exchange m (playing games i) w = (Ret (l1, mh), emit_all [OsRemove fn] w1).
Proof.
  intros Hi Hh Hrun. unfold exchange. cbv zeta.
  cbn [playing list_of_games curr_game deref].
  rewrite (bind_lift_run _ _ _ g) by (unfold item; now rewrite Hi).
  rewrite (bind_lift_run _ _ _ history) by (unfold item; now rewrite Hh).
  fold (playing games i). rewrite (bind_run _ _ _ _ _ Hrun). reflexivity.
Qed.

Lemma game_two_fields (games : list game) (i : nat) (g : game) :
  Forall (fun g => two_fields g = true) games ->
  nth_error games i = Some g -> two_fields g = true.
Proof.
  intros Htwo Hi. rewrite Forall_forall in Htwo.
  eapply Htwo, nth_error_In, Hi.
Qed.

(** The game goes on with a history that is not empty. *)
Lemma finish_recorded (m : mention) (games : list game) (i : nat) (g : game)
    (mh : list string) (w w1 : world) :
  Forall (fun g => two_fields g = true) games ->
  nth_error games i = Some g -> mh <> [] ->
  exchange m (playing games i) w = (Ret (playing games i, mh), w1) ->
  finish m (playing games i) w
  = (Ret (playing
            (set_nth i (with_history g (Codec.pgn_list_to_string mh)) games) i),
     emit_all
       (save_effects
          (set_nth i (with_history g (Codec.pgn_list_to_string mh)) games))
       w1).
Proof.
  intros Htwo Hi Hne Hex.
  pose proof (game_two_fields _ _ _ Htwo Hi) as Hg2.
  destruct (with_history_item1 g (Codec.pgn_list_to_string mh) Hg2)
    as (Hset & _ & Hg2').
  unfold finish. unfold bind at 1. rewrite move_block_on by reflexivity.
  rewrite (bind_run _ _ _ _ _ Hex). unfold lift at 1.
  unfold record_history. rewrite length_eqb_0.
  destruct mh as [|mv mh]; [congruence|].
  cbn [playing list_of_games curr_game assign1 make_a_move game_over].
  unfold item at 1. rewrite Hi. cbn [rbind]. rewrite Hset. cbn [rbind].
  erewrite bind_run by (apply game_over_block_skip; reflexivity).
  cbn [list_of_games].
  rewrite (bind_run _ _ _ _ _
             (write_games_run _ _ (Forall_set_nth _ _ i _ Htwo Hg2'))).
  reflexivity.
Qed.

Lemma remove_first (games : list game) (i : nat) (g : game) :
  nth_error games i = Some g -> index_of g games = Some i ->
  remove games (At i) = Ret (remove_at i games, Off g).
Proof.
  intros Hi Hidx. destruct (remove_At games i g Hi) as (j & Hj & _ & Hrm).
  assert (j = i) by congruence. subst j.
  rewrite Hrm. now rewrite Nat.eqb_refl.
Qed.

(** The game is left without a move: it goes out of the list. *)
Lemma finish_dropped (m : mention) (games : list game) (i : nat) (g : game)
    (w w1 : world) :
  Forall (fun g => two_fields g = true) games ->
  nth_error games i = Some g -> index_of g games = Some i ->
  exchange m (playing games i) w = (Ret (playing games i, []), w1) ->
  finish m (playing games i) w
  = (Ret {| make_a_move := true; game_over := false;
            list_of_games := remove_at i games; curr_game := Off g |},
     emit_all (save_effects (remove_at i games)) w1).
Proof.
  intros Htwo Hi Hidx Hex.
  unfold finish. unfold bind at 1. rewrite move_block_on by reflexivity.
  rewrite (bind_run _ _ _ _ _ Hex). unfold lift at 1.
  unfold record_history.
  cbn [length Nat.eqb playing list_of_games curr_game make_a_move game_over].
  rewrite (remove_first games i g Hi Hidx). cbn [rbind].
  erewrite bind_run by (apply game_over_block_skip; reflexivity).
  cbn [list_of_games].
  rewrite (bind_run _ _ _ _ _
             (write_games_run _ _ (Forall_remove_at _ _ i Htwo))).
  reflexivity.
Qed.

(** The exchange ended the game. *)
Lemma finish_ended (m : mention) (games : list game) (i : nat) (g : game)
    (mh : list string) (w w1 : world) :
  Forall (fun g => two_fields g = true) games ->
  nth_error games i = Some g -> mh <> [] ->
  exchange m (playing games i) w
  = (Ret (ended (remove_at i games) g, mh), w1) ->
  finish m (playing games i) w
  = (Ret (ended (remove_at i games)
            (with_history g (Codec.pgn_list_to_string mh))),
     emit_all
       (game_over_posts m (Codec.pgn_list_to_string mh)
        ++ save_effects (remove_at i games)) w1).
Proof.
  intros Htwo Hi Hne Hex.
  pose proof (game_two_fields _ _ _ Htwo Hi) as Hg2.
  destruct (with_history_item1 g (Codec.pgn_list_to_string mh) Hg2)
    as (Hset & Hnth & _).
  unfold finish. unfold bind at 1. rewrite move_block_on by reflexivity.
  rewrite (bind_run _ _ _ _ _ Hex). unfold lift at 1.
  unfold record_history. rewrite length_eqb_0.
  destruct mh as [|mv mh]; [congruence|].
  cbn [ended list_of_games curr_game assign1 make_a_move game_over].
  rewrite Hset. cbn [rbind].
  erewrite bind_run
    by (apply (game_over_block_run m _
                 (with_history g (Codec.pgn_list_to_string (mv :: mh)))
                 (Codec.pgn_list_to_string (mv :: mh)));
        [reflexivity | reflexivity | exact Hnth]).
  cbn [list_of_games].
  rewrite (bind_run _ _ _ _ _
             (write_games_run _ _ (Forall_remove_at _ _ i Htwo))).
  unfold ret. now rewrite emit_emit.
Qed.

Lemma end_game_playing (games : list game) (i : nat) (g : game) :
  nth_error games i = Some g -> index_of g games = Some i ->
  end_game (playing games i) = Ret (ended (remove_at i games) g).
Proof.
  intros Hi Hidx. unfold end_game.
  cbn [playing list_of_games curr_game make_a_move].
  now rewrite (remove_first games i g Hi Hidx).
Qed.

(** *** A legal move, answered by the engine *)

Lemma move_or_not_answered (m : mention) (l : locals) (h : list string)
    (mv s : string) (b1 b2 : Board) (w : world) :
  mv <> "" ->
  legal_move h mv b1 -> is_checkmate b1 = false ->
  engine_answers (h ++ [mv]) b1 s b2 -> is_checkmate b2 = false ->
  move_or_not m l h mv w
  = (Ret (l, (h ++ [mv; s])%list, "board.jpg"),
     emit_all (engine_calls b1 ++ [image b2; media m (" " ++ s)]) w).
Proof.
  intros Hmv Hlegal Hm1 Hans Hm2. unfold move_or_not.
  rewrite (nonempty_length _ Hmv).
  rewrite (bind_lift_run _ _ _ _ (apply_player_move_legal h mv b1 Hlegal)).
  cbv beta match. unfold after_player_move.
  rewrite (bind_lift_run _ _ _ b1) by (apply Hans). rewrite Hm1.
  engine_reply Hans. rewrite Hm2.
  rewrite (bind_run _ _ _ _ _ (update_with_media_run m _ _)).
  unfold ret. rewrite ?emit_emit, <- ?List.app_assoc. reflexivity.
Qed.

Lemma move_or_not_engine_mates (m : mention) (l l1 : locals)
    (h : list string) (mv s : string) (b1 b2 : Board) (w : world) :
  mv <> "" ->
  legal_move h mv b1 -> is_checkmate b1 = false ->
  engine_answers (h ++ [mv]) b1 s b2 -> is_checkmate b2 = true ->
  end_game l = Ret l1 ->
  move_or_not m l h mv w
  = (Ret (l1, (h ++ [mv; s])%list, "board.jpg"),
     emit_all
       (engine_calls b1 ++ [image b2; media m (" " ++ s ++ "Checkmate!")]) w).
Proof.
  intros Hmv Hlegal Hm1 Hans Hm2 Hend. unfold move_or_not.
  rewrite (nonempty_length _ Hmv).
  rewrite (bind_lift_run _ _ _ _ (apply_player_move_legal h mv b1 Hlegal)).
  cbv beta match. unfold after_player_move.
  rewrite (bind_lift_run _ _ _ b1) by (apply Hans). rewrite Hm1.
  engine_reply Hans. rewrite Hm2.
  rewrite (bind_lift_run _ _ _ _ Hend).
  rewrite (bind_run _ _ _ _ _ (update_with_media_run m _ _)).
  unfold ret. rewrite ?emit_emit, <- ?List.app_assoc. reflexivity.
Qed.

Lemma move_or_not_invalid (m : mention) (l : locals) (h : list string)
    (mv : string) (b0 : Board) (w : world) :
  mv <> "" -> illegal_move h mv b0 ->
  move_or_not m l h mv w
  = (Ret (l, h, "board.jpg"),
     emit_all
       [ image b0;
         media m " That move is invalid. If you would to see a list of valid moves, use the #possiblemoves" ]
       w).
Proof.
  intros Hmv Hill. unfold move_or_not.
  rewrite (nonempty_length _ Hmv).
  rewrite (bind_lift_run _ _ _ _ (apply_player_move_illegal h mv b0 Hill)).
  cbv beta match.
  rewrite (bind_lift_run _ _ _ b0) by (apply Hill).
  rewrite (bind_run _ _ _ _ _ (create_board_image_run b0 _)).
  rewrite (bind_run _ _ _ _ _ (update_with_media_run m _ _)).
  unfold ret. now rewrite emit_emit.
Qed.

Lemma move_or_not_black (m : mention) (l : locals) (h : list string)
    (b1 : Board) (s : string) (b2 : Board) (w : world) :
  tagged "#startgame" m = true ->
  engine_answers h b1 s b2 ->
  move_or_not m l h "" w
  = (Ret (l, (h ++ [s])%list, "board.jpg"),
     emit_all (engine_calls b1 ++ [image b2; media m (" " ++ s)]) w).
Proof.
  intros Hstart Hans. unfold move_or_not. cbn [String.length Nat.ltb Nat.leb].
  unfold tagged in Hstart. rewrite Hstart.
  engine_reply Hans.
  rewrite (bind_run _ _ _ _ _ (update_with_media_run m _ _)).
  unfold ret. rewrite ?emit_emit, <- ?List.app_assoc. reflexivity.
Qed.

Lemma move_or_not_nothing (m : mention) (l : locals) (h : list string)
    (b0 : Board) (w : world) :
  tagged "#startgame" m = false ->
  push_pgn h = Ret b0 ->
  move_or_not m l h "" w
  = (Ret (l, h, "board.jpg"),
     emit_all [image b0; media m " You need to make a move."] w).
Proof.
  intros Hstart Hb0. unfold move_or_not. cbn [String.length Nat.ltb Nat.leb].
  unfold tagged in Hstart. rewrite Hstart.
  rewrite (bind_lift_run _ _ _ _ Hb0).
  rewrite (bind_run _ _ _ _ _ (create_board_image_run b0 _)).
  rewrite (bind_run _ _ _ _ _ (update_with_media_run m _ _)).
  unfold ret. now rewrite emit_emit.
Qed.

(** ** The three ways into the move block *)

Lemma no_command_tags (m : mention) :
  no_command m = true ->
  tagged "#resign" m = false /\ tagged "#error" m = false
  /\ tagged "#possiblemoves" m = false /\ tagged "#getpgn" m = false.
Proof.
  unfold no_command. rewrite !andb_true_iff, !negb_true_iff. tauto.
Qed.

Lemma hashtags_continue (m : mention) (games : list game) (i : nat)
    (w : world) :
  no_command m = true -> tagged "#startgame" m = false ->
  (i < length games)%nat ->
  hashtags m games (Z.of_nat i) w = (Ret (playing games i), w).
Proof.
  intros Hcmd Hstart Hi. destruct (no_command_tags m Hcmd) as (H1 & H2 & H3 & H4).
  pose proof (not_minus_one i) as Hn. apply negb_true_iff in Hn.
  unfold hashtags, tagged in *. cbv zeta.
  rewrite H1, H2, H3, H4, Hstart, Hn. cbn [andb].
  now rewrite (bind_lift_run _ _ _ _ (py_pos_nat _ _ Hi)).
Qed.

Lemma hashtags_new (m : mention) (games : list game) (w : world) :
  no_command m = true -> tagged "#startgame" m = true ->
  hashtags m games (-1) w
  = (Ret (playing (games ++ [[screen_name m; ""]]) (length games)), w).
Proof.
  intros Hcmd Hstart. destruct (no_command_tags m Hcmd) as (H1 & H2 & H3 & H4).
  unfold hashtags, tagged in *. cbv zeta.
  rewrite H1, H2, H3, H4, Hstart. reflexivity.
Qed.

Lemma hashtags_restart (m : mention) (games : list game) (i : nat) (g : game)
    (w : world) :
  no_command m = true -> tagged "#startgame" m = true ->
  nth_error games i = Some g -> two_fields g = true ->
  hashtags m games (Z.of_nat i) w
  = (Ret (playing (set_nth i (with_history g "") games) i), w).
Proof.
  intros Hcmd Hstart Hi Hg2.
  destruct (no_command_tags m Hcmd) as (H1 & H2 & H3 & H4).
  destruct (with_history_item1 g "" Hg2) as (Hset & _).
  pose proof (not_minus_one i) as Hn. pose proof Hn as Hn'.
  apply negb_true_iff in Hn'.
  unfold hashtags, tagged in *. cbv zeta.
  rewrite H1, H2, H3, H4, Hstart, Hn, Hn'. cbn [andb].
  rewrite (bind_lift_run _ _ _ i)
    by (apply py_pos_nat, nth_error_Some; congruence).
  rewrite (bind_lift_run _ _ _ (set_nth i (with_history g "") games, At i)).
  - reflexivity.
  - cbn [assign1]. unfold item. rewrite Hi. cbn [rbind]. now rewrite Hset.
Qed.

(** ** Lists with a game at their end *)

Lemma nth_error_snoc {A} (l : list A) (x : A) :
  nth_error (l ++ [x]) (length l) = Some x.
Proof. rewrite nth_error_app2 by lia. now rewrite Nat.sub_diag. Qed.

Lemma set_nth_snoc {A} (l : list A) (x y : A) :
  set_nth (length l) x (l ++ [y]) = (l ++ [x])%list.
Proof. induction l as [|a l IH]; cbn; [reflexivity | now rewrite IH]. Qed.

Lemma remove_at_snoc {A} (l : list A) (x : A) :
  remove_at (length l) (l ++ [x]) = l.
Proof. induction l as [|a l IH]; cbn; [reflexivity | now rewrite IH]. Qed.

Lemma index_of_snoc (v : game) (games : list game) :
  ~ In v games -> index_of v (games ++ [v]) = Some (length games).
Proof.
  induction games as [|g games IH]; intros Hin; cbn [app index_of length].
  - now rewrite (proj2 (list_eqb_eq v v) eq_refl).
  - destruct (Py.list_eqb g v) eqn:E.
    + apply list_eqb_eq in E. subst. exfalso. apply Hin. now left.
    + rewrite IH; [reflexivity|]. intros H. apply Hin. now right.
Qed.

Lemma new_game_not_in (name : string) (games : list game) :
  no_match name games -> ~ In [name; ""] games.
Proof.
  intros Hno Hin. apply In_nth_error in Hin as [j Hj].
  apply (Hno j _ Hj). reflexivity.
Qed.

Lemma set_nth_twice {A} (l : list A) (i : nat) (x y : A) :
  set_nth i x (set_nth i y l) = set_nth i x l.
Proof.
  revert i. induction l as [|a l IH]; intros [|i]; cbn; try reflexivity.
  now rewrite IH.
Qed.

Lemma remove_at_set_nth {A} (l : list A) (i : nat) (x : A) :
  remove_at i (set_nth i x l) = remove_at i l.
Proof.
  revert i. induction l as [|a l IH]; intros [|i]; cbn; try reflexivity.
  now rewrite IH.
Qed.

Lemma with_history_twice (g : game) (s t : string) :
  with_history (with_history g s) t = with_history g t.
Proof. destruct g as [|a [|b r]]; reflexivity. Qed.

Lemma nth_error_set_nth_same {A} (l : list A) (i : nat) (x y : A) :
  nth_error l i = Some y -> nth_error (set_nth i x l) i = Some x.
Proof.
  intros H. rewrite nth_error_set_nth by (apply nth_error_Some; congruence).
  now rewrite Nat.eqb_refl.
Qed.

Lemma last_match_game (name : string) (games : list game) (i : nat) (g : game) :
  last_match name games i -> nth_error games i = Some g ->
  (i < length games)%nat.
Proof. intros _ H. apply nth_error_Some. congruence. Qed.


(** The moves of a history that is written again are the same. *)
Lemma split_rewritten (history : string) :
  Py.split (Codec.pgn_list_to_string (Py.split history)) = Py.split history.
Proof.
  unfold Codec.pgn_list_to_string.
  apply split_join_space, FileFacts.split_tokens.
Qed.

(** ** A game that goes on *)

(** X15. The turn of a game that goes on.  The mention holds no marker,
    the user has a game, the move found in the text is legal after the
    stored history and does not mate, and the engine answers with a move
    that does not mate: the pass returns; its effects are the start of
    the engine, the question for the position after the player's move,
    the request for the image of the position after the answer, the reply
    with the engine's move, the removal of the image file and the rewrite
    of [games.txt]; in the list in memory, for which the rewrite is
    issued, the game of the user holds the old moves followed by the two
    new ones, the other games being as they were read. *)
Theorem move_is_answered (m : mention) (w : world) (i : nat) (g : game)
    (history s : string) (b1 b2 : Board) :
  let games := parse_games (games_txt w) in
  let mv := move_tried_of (full_text m) in
  let h := Py.split history in
  let games' :=
    set_nth i (with_history g (Codec.pgn_list_to_string (h ++ [mv; s]))) games in
  no_command m = true ->
  tagged "#startgame" m = false ->
  Forall (fun g => two_fields g = true) games ->
  last_match (screen_name m) games i ->
  nth_error games i = Some g ->
  nth_error g 1 = Some history ->
  mv <> "" ->
  legal_move h mv b1 -> is_checkmate b1 = false ->
  engine_answers (h ++ [mv]) b1 s b2 -> is_checkmate b2 = false ->
  handle m w
  = (Ret (playing games' i),
     emit_all
       (engine_calls b1
        ++ [image b2; media m (" " ++ s); OsRemove "board.jpg"]
        ++ save_effects games') w).
Proof.
  intros games mv h games' Hcmd Hstart Htwo Hlast Hi Hh Hmv Hlegal Hm1 Hans Hm2.
  assert (Hrun : handle m w
                 = (Ret (playing games' i),
                    emit_all
                      (engine_calls b1
                       ++ [image b2; media m (" " ++ s); OsRemove "board.jpg"]
                       ++ save_effects games') w)).
  { rewrite (handle_enter m w w (Z.of_nat i) (playing games i)).
    - rewrite (finish_recorded m games i g (h ++ [mv; s]) w
                 (emit_all [OsRemove "board.jpg"]
                    (emit_all (engine_calls b1
                               ++ [image b2; media m (" " ++ s)]) w))).
      + rewrite !emit_emit, <- ?List.app_assoc. reflexivity.
      + exact Htwo.
      + exact Hi.
      + destruct h; discriminate.
      + apply (exchange_run m games i g history); trivial.
        now apply move_or_not_answered.
    - apply find_game_at; [apply parse_games_nonempty | exact Hlast].
    - apply hashtags_continue; trivial. eapply last_match_game; eassumption. }
  exact Hrun.
Qed.

(** X16. The engine mates.  The mention holds no marker, the user has
    a game, the move found in the text is legal after the stored history
    and does not mate, and the answer of the engine mates: the reply
    holds the engine's move followed by the word Checkmate without a
    space between them; the game of the user leaves the list in memory,
    which then holds no game of the user (the games read being one for
    each user), and the rewrite of [games.txt] is issued for that list;
    the posts at the end of a game give the whole history, the mating
    move included. *)
Theorem engine_mates (m : mention) (w : world) (i : nat) (g : game)
    (history s : string) (b1 b2 : Board) :
  let games := parse_games (games_txt w) in
  let mv := move_tried_of (full_text m) in
  let h := Py.split history in
  let pgn := Codec.pgn_list_to_string (h ++ [mv; s]) in
  no_command m = true ->
  tagged "#startgame" m = false ->
  store_shape games ->
  last_match (screen_name m) games i ->
  nth_error games i = Some g ->
  nth_error g 1 = Some history ->
  mv <> "" ->
  legal_move h mv b1 -> is_checkmate b1 = false ->
  engine_answers (h ++ [mv]) b1 s b2 -> is_checkmate b2 = true ->
  handle m w
  = (Ret (ended (remove_at i games) (with_history g pgn)),
     emit_all
       (engine_calls b1
        ++ [image b2; media m (" " ++ s ++ "Checkmate!"); OsRemove "board.jpg"]
        ++ game_over_posts m pgn
        ++ save_effects (remove_at i games)) w)
  /\ no_match (screen_name m) (remove_at i games).
Proof.
  intros games mv h pgn Hcmd Hstart [Htwo Hu] Hlast Hi Hh Hmv Hlegal Hm1 Hans Hm2.
  assert (Hidx : index_of g games = Some i).
  { destruct (index_of_found g games i Hi) as (j & Hj & _).
    now rewrite <- (unique_first_index games i j g Hu Hi Hj). }
  assert (Hrun : handle m w
                 = (Ret (ended (remove_at i games) (with_history g pgn)),
                    emit_all
                      (engine_calls b1
                       ++ [image b2; media m (" " ++ s ++ "Checkmate!");
                           OsRemove "board.jpg"]
                       ++ game_over_posts m pgn
                       ++ save_effects (remove_at i games)) w)).
  { rewrite (handle_enter m w w (Z.of_nat i) (playing games i)).
    - rewrite (finish_ended m games i g (h ++ [mv; s]) w
                 (emit_all [OsRemove "board.jpg"]
                    (emit_all (engine_calls b1
                               ++ [image b2;
                                   media m (" " ++ s ++ "Checkmate!")]) w))).
      + rewrite !emit_emit, <- ?List.app_assoc. reflexivity.
      + exact Htwo.
      + exact Hi.
      + destruct h; discriminate.
      + apply (exchange_run m games i g history); trivial.
        apply move_or_not_engine_mates; trivial.
        now apply end_game_playing.
    - apply find_game_at; [apply parse_games_nonempty | exact Hlast].
    - apply hashtags_continue; trivial. eapply last_match_game; eassumption. }
  split; [exact Hrun|].
  now apply no_match_after_remove.
Qed.

(** X17. A move that is not legal.  The mention holds no marker, the
    user has a game with at least one move and the move found in the
    text is not among the possible moves: the pass returns; its effects
    are the request for the image of the position of the game, the reply
    that the move is invalid, the removal of the image file and the
    rewrite of [games.txt]; the engine is not called, and in the list in
    memory, for which the rewrite is issued, every game holds the moves
    it held, the history of the user being written anew with single
    spaces. *)
Theorem invalid_move_changes_no_game (m : mention) (w : world) (i : nat)
    (g : game) (history : string) (b0 : Board) :
  let games := parse_games (games_txt w) in
  let mv := move_tried_of (full_text m) in
  let h := Py.split history in
  let games' := set_nth i (with_history g (Codec.pgn_list_to_string h)) games in
  no_command m = true ->
  tagged "#startgame" m = false ->
  Forall (fun g => two_fields g = true) games ->
  last_match (screen_name m) games i ->
  nth_error games i = Some g ->
  nth_error g 1 = Some history ->
  h <> [] ->
  mv <> "" -> illegal_move h mv b0 ->
  handle m w
  = (Ret (playing games' i),
     emit_all
       ([ image b0;
          media m " That move is invalid. If you would to see a list of valid moves, use the #possiblemoves";
          OsRemove "board.jpg" ]
        ++ save_effects games') w)
  /\ map (fun g => Py.split (nth 1 g "")) games'
     = map (fun g => Py.split (nth 1 g "")) games.
Proof.
  intros games mv h games' Hcmd Hstart Htwo Hlast Hi Hh Hne Hmv Hill.
  assert (Hrun : handle m w
                 = (Ret (playing games' i),
                    emit_all
                      ([ image b0;
                         media m " That move is invalid. If you would to see a list of valid moves, use the #possiblemoves";
                         OsRemove "board.jpg" ]
                       ++ save_effects games') w)).
  { rewrite (handle_enter m w w (Z.of_nat i) (playing games i)).
    - rewrite (finish_recorded m games i g h w
                 (emit_all [OsRemove "board.jpg"]
                    (emit_all
                       [ image b0;
                         media m " That move is invalid. If you would to see a list of valid moves, use the #possiblemoves" ]
                       w))).
      + rewrite !emit_emit, <- ?List.app_assoc. reflexivity.
      + exact Htwo.
      + exact Hi.
      + exact Hne.
      + apply (exchange_run m games i g history); trivial.
        now apply move_or_not_invalid.
    - apply find_game_at; [apply parse_games_nonempty | exact Hlast].
    - apply hashtags_continue; trivial. eapply last_match_game; eassumption. }
  split; [exact Hrun|].
  apply (BridgeFacts.map_set_nth_same _ games i _ g Hi).
  pose proof (game_two_fields _ _ _ Htwo Hi) as Hg2.
  destruct g as [|a [|b r]]; try discriminate.
  cbn in Hh. injection Hh as ->. cbn [with_history nth].
  apply split_rewritten.
Qed.

(** X18. No move in the text.  The mention holds no marker and no move,
    the user has a game with at least one move that replays: the pass
    returns; its effects are the request for the image of the position,
    the reply that a move is needed, the removal of the image file and
    the rewrite of [games.txt]; in the list in memory, for which the
    rewrite is issued, every game holds the moves it held. *)
Theorem without_a_move_nothing_changes (m : mention) (w : world) (i : nat)
    (g : game) (history : string) (b0 : Board) :
  let games := parse_games (games_txt w) in
  let h := Py.split history in
  let games' := set_nth i (with_history g (Codec.pgn_list_to_string h)) games in
  no_command m = true ->
  tagged "#startgame" m = false ->
  Forall (fun g => two_fields g = true) games ->
  last_match (screen_name m) games i ->
  nth_error games i = Some g ->
  nth_error g 1 = Some history ->
  h <> [] ->
  move_tried_of (full_text m) = "" ->
  push_pgn h = Ret b0 ->
  handle m w
  = (Ret (playing games' i),
     emit_all
       ([ image b0; media m " You need to make a move.";
          OsRemove "board.jpg" ]
        ++ save_effects games') w)
  /\ map (fun g => Py.split (nth 1 g "")) games'
     = map (fun g => Py.split (nth 1 g "")) games.
Proof.
  intros games h games' Hcmd Hstart Htwo Hlast Hi Hh Hne Hmv Hb0.
  assert (Hrun : handle m w
                 = (Ret (playing games' i),
                    emit_all
                      ([ image b0; media m " You need to make a move.";
                         OsRemove "board.jpg" ]
                       ++ save_effects games') w)).
  { rewrite (handle_enter m w w (Z.of_nat i) (playing games i)).
    - rewrite (finish_recorded m games i g h w
                 (emit_all [OsRemove "board.jpg"]
                    (emit_all
                       [image b0; media m " You need to make a move."] w))).
      + rewrite !emit_emit, <- ?List.app_assoc. reflexivity.
      + exact Htwo.
      + exact Hi.
      + exact Hne.
      + apply (exchange_run m games i g history); trivial.
        rewrite Hmv. now apply move_or_not_nothing.
    - apply find_game_at; [apply parse_games_nonempty | exact Hlast].
    - apply hashtags_continue; trivial. eapply last_match_game; eassumption. }
  split; [exact Hrun|].
  apply (BridgeFacts.map_set_nth_same _ games i _ g Hi).
  pose proof (game_two_fields _ _ _ Htwo Hi) as Hg2.
  destruct g as [|a [|b r]]; try discriminate.
  cbn in Hh. injection Hh as ->. cbn [with_history nth].
  apply split_rewritten.
Qed.

(** ** A game that starts *)

Lemma two_fields_snoc (name : string) (games : list game) :
  Forall (fun g => two_fields g = true) games ->
  Forall (fun g => two_fields g = true) (games ++ [[name; ""]]).
Proof. intros H. apply Forall_app. split; [exact H | repeat constructor]. Qed.

Lemma handle_new (m : mention) (w : world) :
  no_command m = true -> tagged "#startgame" m = true ->
  no_match (screen_name m) (parse_games (games_txt w)) ->
  handle m w
  = finish m
      (playing (parse_games (games_txt w) ++ [[screen_name m; ""]])
         (length (parse_games (games_txt w)))) w.
Proof.
  intros Hcmd Hstart Hno. apply (handle_enter m w w (-1)%Z).
  - apply find_game_none; [apply parse_games_nonempty | exact Hno].
  - now apply hashtags_new.
Qed.

(** X19. A new game with White.  The mention holds the start marker
    and none of the four markers tested before it, the user has no game,
    the move found in the text is legal in the starting position and the
    engine answers, neither move mating: the pass returns, and a game of
    the user is added at the end of the list in memory, with the two
    moves for its history; the rewrite of [games.txt] is issued for that
    list. *)
Theorem game_started_with_a_move (m : mention) (w : world) (s : string)
    (b1 b2 : Board) :
  let games := parse_games (games_txt w) in
  let mv := move_tried_of (full_text m) in
  let games' :=
    (games ++ [[screen_name m; Codec.pgn_list_to_string [mv; s]]])%list in
  no_command m = true ->
  tagged "#startgame" m = true ->
  Forall (fun g => two_fields g = true) games ->
  no_match (screen_name m) games ->
  mv <> "" ->
  legal_move [] mv b1 -> is_checkmate b1 = false ->
  engine_answers [mv] b1 s b2 -> is_checkmate b2 = false ->
  handle m w
  = (Ret (playing games' (length games)),
     emit_all
       (engine_calls b1
        ++ [image b2; media m (" " ++ s); OsRemove "board.jpg"]
        ++ save_effects games') w).
Proof.
  intros games mv games' Hcmd Hstart Htwo Hno Hmv Hlegal Hm1 Hans Hm2.
  assert (Hrun : handle m w
                 = (Ret (playing games' (length games)),
                    emit_all
                      (engine_calls b1
                       ++ [image b2; media m (" " ++ s); OsRemove "board.jpg"]
                       ++ save_effects games') w)).
  { rewrite handle_new by assumption. fold games.
    rewrite (finish_recorded m _ (length games) [screen_name m; ""] [mv; s] w
               (emit_all [OsRemove "board.jpg"]
                  (emit_all (engine_calls b1
                             ++ [image b2; media m (" " ++ s)]) w))).
    - cbn [with_history]. rewrite set_nth_snoc.
      rewrite !emit_emit, <- ?List.app_assoc. reflexivity.
    - now apply two_fields_snoc.
    - apply nth_error_snoc.
    - discriminate.
    - apply (exchange_run m _ _ [screen_name m; ""] "");
        [apply nth_error_snoc | reflexivity |].
      apply (move_or_not_answered m _ [] mv s b1 b2); assumption. }
  exact Hrun.
Qed.

(** X20. A new game with Black.  The mention holds the start marker,
    none of the four markers tested before it and no move, the user has
    no game, and the engine answers in the starting position: the pass
    returns, the reply holds the engine's move, and a game of the user is
    added at the end of the list in memory, with that move for its
    history; the rewrite of [games.txt] is issued for that list. *)
Theorem game_started_as_black (m : mention) (w : world) (s : string)
    (b1 : Board) :
  let games := parse_games (games_txt w) in
  let games' :=
    (games ++ [[screen_name m; Codec.pgn_list_to_string [s]]])%list in
  no_command m = true ->
  tagged "#startgame" m = true ->
  Forall (fun g => two_fields g = true) games ->
  no_match (screen_name m) games ->
  move_tried_of (full_text m) = "" ->
  engine_answers [] new_board s b1 ->
  handle m w
  = (Ret (playing games' (length games)),
     emit_all
       (engine_calls new_board
        ++ [image b1; media m (" " ++ s); OsRemove "board.jpg"]
        ++ save_effects games') w).
Proof.
  intros games games' Hcmd Hstart Htwo Hno Hmv Hans.
  assert (Hrun : handle m w
                 = (Ret (playing games' (length games)),
                    emit_all
                      (engine_calls new_board
                       ++ [image b1; media m (" " ++ s); OsRemove "board.jpg"]
                       ++ save_effects games') w)).
  { rewrite handle_new by assumption. fold games.
    rewrite (finish_recorded m _ (length games) [screen_name m; ""] [s] w
               (emit_all [OsRemove "board.jpg"]
                  (emit_all (engine_calls new_board
                             ++ [image b1; media m (" " ++ s)]) w))).
    - cbn [with_history]. rewrite set_nth_snoc.
      rewrite !emit_emit, <- ?List.app_assoc. reflexivity.
    - now apply two_fields_snoc.
    - apply nth_error_snoc.
    - discriminate.
    - apply (exchange_run m _ _ [screen_name m; ""] "");
        [apply nth_error_snoc | reflexivity |].
      rewrite Hmv.
      apply (move_or_not_black m _ [] new_board s b1); assumption. }
  exact Hrun.
Qed.

(** X21. A new game with a first move that is not legal.  The game
    that the start marker put into the list is taken out again: the pass
    returns, the user is told that the move is invalid, the engine is not
    called, and the list in memory, for which the rewrite of [games.txt]
    is issued, holds the games that were read and no game of the user. *)
Theorem first_move_invalid_no_game_stored (m : mention) (w : world) :
  let games := parse_games (games_txt w) in
  let mv := move_tried_of (full_text m) in
  no_command m = true ->
  tagged "#startgame" m = true ->
  Forall (fun g => two_fields g = true) games ->
  no_match (screen_name m) games ->
  mv <> "" -> illegal_move [] mv new_board ->
  handle m w
  = (Ret {| make_a_move := true; game_over := false;
            list_of_games := games; curr_game := Off [screen_name m; ""] |},
     emit_all
       ([ image new_board;
          media m " That move is invalid. If you would to see a list of valid moves, use the #possiblemoves";
          OsRemove "board.jpg" ]
        ++ save_effects games) w).
Proof.
  intros games mv Hcmd Hstart Htwo Hno Hmv Hill.
  assert (Hrun : handle m w
                 = (Ret {| make_a_move := true; game_over := false;
                           list_of_games := games;
                           curr_game := Off [screen_name m; ""] |},
                    emit_all
                      ([ image new_board;
                         media m " That move is invalid. If you would to see a list of valid moves, use the #possiblemoves";
                         OsRemove "board.jpg" ]
                       ++ save_effects games) w)).
  { rewrite handle_new by assumption. fold games.
    rewrite (finish_dropped m _ (length games) [screen_name m; ""] w
               (emit_all [OsRemove "board.jpg"]
                  (emit_all
                     [ image new_board;
                       media m " That move is invalid. If you would to see a list of valid moves, use the #possiblemoves" ]
                     w))).
    - rewrite remove_at_snoc.
      rewrite !emit_emit, <- ?List.app_assoc. reflexivity.
    - now apply two_fields_snoc.
    - apply nth_error_snoc.
    - apply index_of_snoc, new_game_not_in, Hno.
    - apply (exchange_run m _ _ [screen_name m; ""] "");
        [apply nth_error_snoc | reflexivity |].
      apply (move_or_not_invalid m _ [] mv new_board); assumption. }
  exact Hrun.
Qed.

(** ** A game that starts again *)

Lemma handle_restart (m : mention) (w : world) (i : nat) (g : game) :
  no_command m = true -> tagged "#startgame" m = true ->
  Forall (fun g => two_fields g = true) (parse_games (games_txt w)) ->
  last_match (screen_name m) (parse_games (games_txt w)) i ->
  nth_error (parse_games (games_txt w)) i = Some g ->
  handle m w
  = finish m
      (playing (set_nth i (with_history g "") (parse_games (games_txt w))) i)
      w.
Proof.
  intros Hcmd Hstart Htwo Hlast Hi. apply (handle_enter m w w (Z.of_nat i)).
  - apply find_game_at; [apply parse_games_nonempty | exact Hlast].
  - apply hashtags_restart; trivial. eapply game_two_fields; eassumption.
Qed.

Lemma restarted_game (games : list game) (i : nat) (g : game) :
  Forall (fun g => two_fields g = true) games ->
  nth_error games i = Some g ->
  Forall (fun g => two_fields g = true) (set_nth i (with_history g "") games)
  /\ nth_error (set_nth i (with_history g "") games) i
     = Some (with_history g "")
  /\ nth_error (with_history g "") 1 = Some ""
  /\ set_item1 g "" = Ret (with_history g "").
Proof.
  intros Htwo Hi. pose proof (game_two_fields _ _ _ Htwo Hi) as Hg2.
  destruct (with_history_item1 g "" Hg2) as (Hset & Hnth & Hg2').
  repeat split; trivial.
  - now apply Forall_set_nth.
  - eapply nth_error_set_nth_same, Hi.
Qed.

(** X22. The start marker from a user who has a game erases its
    history, whatever it was: with a first move that is legal in the
    starting position and an answer of the engine, neither move mating,
    the game of the user holds these two moves and nothing of the old
    history, at the same place of the list in memory, for which the
    rewrite of [games.txt] is issued; the other games are as they were
    read. *)
Theorem game_started_again (m : mention) (w : world) (i : nat) (g : game)
    (s : string) (b1 b2 : Board) :
  let games := parse_games (games_txt w) in
  let mv := move_tried_of (full_text m) in
  let games' :=
    set_nth i (with_history g (Codec.pgn_list_to_string [mv; s])) games in
  no_command m = true ->
  tagged "#startgame" m = true ->
  Forall (fun g => two_fields g = true) games ->
  last_match (screen_name m) games i ->
  nth_error games i = Some g ->
  mv <> "" ->
  legal_move [] mv b1 -> is_checkmate b1 = false ->
  engine_answers [mv] b1 s b2 -> is_checkmate b2 = false ->
  handle m w
  = (Ret (playing games' i),
     emit_all
       (engine_calls b1
        ++ [image b2; media m (" " ++ s); OsRemove "board.jpg"]
        ++ save_effects games') w).
Proof.
  intros games mv games' Hcmd Hstart Htwo Hlast Hi Hmv Hlegal Hm1 Hans Hm2.
  destruct (restarted_game games i g Htwo Hi) as (Htwo0 & Hi0 & Hh0 & _).
  assert (Hrun : handle m w
                 = (Ret (playing games' i),
                    emit_all
                      (engine_calls b1
                       ++ [image b2; media m (" " ++ s); OsRemove "board.jpg"]
                       ++ save_effects games') w)).
  { rewrite (handle_restart m w i g) by assumption. fold games.
    rewrite (finish_recorded m _ i (with_history g "") [mv; s] w
               (emit_all [OsRemove "board.jpg"]
                  (emit_all (engine_calls b1
                             ++ [image b2; media m (" " ++ s)]) w))).
    - rewrite with_history_twice, set_nth_twice.
      rewrite !emit_emit, <- ?List.app_assoc. reflexivity.
    - exact Htwo0.
    - exact Hi0.
    - discriminate.
    - apply (exchange_run m _ _ (with_history g "") ""); trivial.
      apply (move_or_not_answered m _ [] mv s b1 b2); assumption. }
  exact Hrun.
Qed.

(** X23. The start marker with a move that is not legal, from a user
    who has a game, costs the user the game: its history is erased, the
    move is refused, and the game, left without a move, goes out of the
    list in memory, which then holds no game of the user (the games read
    being one for each user); the rewrite of [games.txt] is issued for
    that list. *)
Theorem restart_with_invalid_move_drops_the_game (m : mention) (w : world)
    (i : nat) (g : game) :
  let games := parse_games (games_txt w) in
  let mv := move_tried_of (full_text m) in
  no_command m = true ->
  tagged "#startgame" m = true ->
  store_shape games ->
  last_match (screen_name m) games i ->
  nth_error games i = Some g ->
  mv <> "" -> illegal_move [] mv new_board ->
  handle m w
  = (Ret {| make_a_move := true; game_over := false;
            list_of_games := remove_at i games;
            curr_game := Off (with_history g "") |},
     emit_all
       ([ image new_board;
          media m " That move is invalid. If you would to see a list of valid moves, use the #possiblemoves";
          OsRemove "board.jpg" ]
        ++ save_effects (remove_at i games)) w)
  /\ no_match (screen_name m) (remove_at i games).
Proof.
  intros games mv Hcmd Hstart Hshape Hlast Hi Hmv Hill.
  pose proof Hshape as [Htwo Hu].
  destruct (restarted_game games i g Htwo Hi) as (Htwo0 & Hi0 & Hh0 & Hset).
  assert (Hidx : index_of (with_history g "")
                   (set_nth i (with_history g "") games) = Some i).
  { destruct (BridgeFacts.store_shape_set_nth games i g _ "" Hshape Hi Hset)
      as [_ Hu0].
    destruct (index_of_found _ _ i Hi0) as (j & Hj & _).
    assert (j = i) by (eapply unique_first_index; eassumption).
    now subst j. }
  assert (Hrun : handle m w
                 = (Ret {| make_a_move := true; game_over := false;
                           list_of_games := remove_at i games;
                           curr_game := Off (with_history g "") |},
                    emit_all
                      ([ image new_board;
                         media m " That move is invalid. If you would to see a list of valid moves, use the #possiblemoves";
                         OsRemove "board.jpg" ]
                       ++ save_effects (remove_at i games)) w)).
  { rewrite (handle_restart m w i g) by assumption. fold games.
    rewrite (finish_dropped m _ i (with_history g "") w
               (emit_all [OsRemove "board.jpg"]
                  (emit_all
                     [ image new_board;
                       media m " That move is invalid. If you would to see a list of valid moves, use the #possiblemoves" ]
                     w))).
    - rewrite remove_at_set_nth.
      rewrite !emit_emit, <- ?List.app_assoc. reflexivity.
    - exact Htwo0.
    - exact Hi0.
    - exact Hidx.
    - apply (exchange_run m _ _ (with_history g "") ""); trivial.
      apply (move_or_not_invalid m _ [] mv new_board); assumption. }
  split; [exact Hrun|].
  now apply no_match_after_remove.
Qed.

(** ** Passes that raise *)

Lemma finish_raise (m : mention) (games : list game) (i : nat) (e : exn)
    (w w1 : world) :
  exchange m (playing games i) w = (Exc e, w1) ->
  finish m (playing games i) w = (Exc e, w1).
Proof.
  intros Hex. unfold finish. unfold bind at 1.
  rewrite move_block_on by reflexivity. unfold bind at 1. now rewrite Hex.
Qed.

Lemma exchange_raise (m : mention) (games : list game) (i : nat) (g : game)
    (history : string) (e : exn) (w w1 : world) :
  nth_error games i = Some g -> nth_error g 1 = Some history ->
  move_or_not m (playing games i) (Py.split history)
    (move_tried_of (full_text m)) w
  = (Exc e, w1) ->
  exchange m (playing games i) w = (Exc e, w1).
Proof.
  intros Hi Hh Hrun. unfold exchange. cbv zeta.
  cbn [playing list_of_games curr_game deref].
  rewrite (bind_lift_run _ _ _ g) by (unfold item; now rewrite Hi).
  rewrite (bind_lift_run _ _ _ history) by (unfold item; now rewrite Hh).
  fold (playing games i). unfold bind at 1. now rewrite Hrun.
Qed.

(** X24. A stored history that does not replay blocks the game: when
    the mention holds no marker and the history of the user's game does
    not replay, the pass raises [ValueError] without any effect, no reply
    and no write, whether the text holds a move or not. *)
Theorem unreadable_history_is_not_answered (m : mention) (w : world)
    (i : nat) (g : game) (history : string) (e : exn) :
  let games := parse_games (games_txt w) in
  no_command m = true ->
  tagged "#startgame" m = false ->
  last_match (screen_name m) games i ->
  nth_error games i = Some g ->
  nth_error g 1 = Some history ->
  push_pgn (Py.split history) = Exc e ->
  handle m w = (Exc ValueError, w).
Proof.
  intros games Hcmd Hstart Hlast Hi Hh Hpush.
  pose proof (push_pgn_exn _ _ Hpush) as ->.
  rewrite (handle_enter m w w (Z.of_nat i) (playing games i)).
  - apply finish_raise. apply (exchange_raise m games i g history); trivial.
    unfold move_or_not.
    destruct (0 <? String.length (move_tried_of (full_text m)))%nat.
    + apply bind_lift_exc. unfold apply_player_move. now rewrite Hpush.
    + unfold tagged in Hstart. rewrite Hstart.
      now apply bind_lift_exc.
  - apply find_game_at; [apply parse_games_nonempty | exact Hlast].
  - apply hashtags_continue; trivial. eapply last_match_game; eassumption.
Qed.

(** X25. The move of the player is recorded only with the answer of
    the engine: when the move is legal and does not mate, and the
    engine, which starts, gives no move, the pass raises after the
    engine was started and asked; nothing is posted, and [games.txt]
    and the file object are as they were, without the move of the
    player. *)
Theorem engine_failure_loses_the_move (m : mention) (w : world) (i : nat)
    (g : game) (history : string) (b1 : Board) :
  let games := parse_games (games_txt w) in
  let mv := move_tried_of (full_text m) in
  let h := Py.split history in
  no_command m = true ->
  tagged "#startgame" m = false ->
  last_match (screen_name m) games i ->
  nth_error games i = Some g ->
  nth_error g 1 = Some history ->
  mv <> "" ->
  legal_move h mv b1 -> is_checkmate b1 = false ->
  engine_starts = true ->
  engine_play b1 = None ->
  handle m w = (Exc EngineError, emit_all (engine_calls b1) w)
  /\ games_txt (snd (handle m w)) = games_txt w
  /\ f_buffer (snd (handle m w)) = f_buffer w.
Proof.
  intros games mv h Hcmd Hstart Hlast Hi Hh Hmv Hlegal Hm1 Hstarts Heng.
  assert (Hrun : handle m w = (Exc EngineError, emit_all (engine_calls b1) w)).
  { rewrite (handle_enter m w w (Z.of_nat i) (playing games i)).
    - apply finish_raise. apply (exchange_raise m games i g history); trivial.
      unfold move_or_not. fold mv. rewrite (nonempty_length _ Hmv).
      fold h.
      rewrite (bind_lift_run _ _ _ _ (apply_player_move_legal h mv b1 Hlegal)).
      cbv beta match. unfold after_player_move.
      destruct Hlegal as (b0 & moves & _ & _ & _ & Hb1).
      rewrite (bind_lift_run _ _ _ _ Hb1). rewrite Hm1.
      unfold bind at 1. unfold apply_bot_move.
      rewrite bind_perform_run, Hstarts.
      rewrite (bind_run _ _ _ _ tt (eq_refl : ret tt _ = (Ret tt, _))).
      rewrite (bind_lift_run _ _ _ _ Hb1), bind_perform_run.
      rewrite Heng. unfold raise. now rewrite emit_emit.
    - apply find_game_at; [apply parse_games_nonempty | exact Hlast].
    - apply hashtags_continue; trivial. eapply last_match_game; eassumption. }
  split; [exact Hrun|]. rewrite Hrun. split; reflexivity.
Qed.

(** X26. [games.txt] is opened at the end of a pass only, and what a
    pass writes is not in the file when the pass ends.  On a store with
    a comma on every line and one game per user: a pass that raises
    leaves the file and the file object as they were; a pass that
    returns leaves the text of the list in memory, which has the same
    shape, with the file object, and in the file what the file object
    held before, nothing when the pass is the first of its cycle; in
    that case the file holds the text of the list once the call of
    [main] ends after this pass. *)
Theorem failed_pass_leaves_the_store (m : mention) (w : world) :
  store_shape (parse_games (games_txt w)) ->
  (forall e w',
     handle m w = (Exc e, w') ->
     games_txt w' = games_txt w /\ f_buffer w' = f_buffer w)
  /\ (forall l w',
        handle m w = (Ret l, w') ->
        store_shape (list_of_games l)
        /\ f_buffer w' = Some (text_of (list_of_games l))
        /\ games_txt w' = flushed (f_buffer w) ""
        /\ (f_buffer w = None ->
            games_txt w' = ""
            /\ games_txt (release w') = text_of (list_of_games l))).
Proof.
  intros Hs.
  assert (H : ensures (handle m) w
                (fun l w' => store_shape (list_of_games l)
                             /\ f_buffer w' = Some (text_of (list_of_games l))
                             /\ games_txt w' = flushed (f_buffer w) "")
                (fun w' => games_txt w' = games_txt w
                           /\ f_buffer w' = f_buffer w)).
  { unfold ensures, handle.
    unfold bind at 1. unfold read_games at 1. cbv zeta.
    unfold bind at 1. unfold lift at 1.
    destruct (find_game (screen_name m) (parse_games (games_txt w)))
      as [gi|e] eqn:Hfind; [|split; reflexivity].
    unfold bind at 1.
    pose proof (BridgeFacts.hashtags_move_turn m (parse_games (games_txt w)) gi w
                  (parse_games_nonempty _) Hfind) as H1.
    destruct (InvariantFacts.emits_files _ w
                (emits_hashtags m (parse_games (games_txt w)) gi))
      as [Hf1 Hb1].
    unfold ensures in H1.
    destruct (hashtags m (parse_games (games_txt w)) gi w) as [[l|e] w1];
      cbn [snd] in Hf1, Hb1; [|now split].
    destruct H1 as [H1 _]. specialize (H1 Hs).
    unfold finish. unfold bind at 1.
    pose proof (BridgeFacts.move_block_shape m l w1 H1) as H2.
    destruct (InvariantFacts.emits_files _ w1 (emits_move_block m l))
      as [Hf2 Hb2].
    unfold ensures in H2.
    destruct (move_block m l w1) as [[l2|e] w2]; cbn [snd] in Hf2, Hb2;
      [|split; congruence].
    unfold bind at 1.
    destruct (InvariantFacts.emits_files _ w2 (emits_game_over_block m l2))
      as [Hf3 Hb3].
    destruct (game_over_block m l2 w2) as [[u|e] w3]; cbn [snd] in Hf3, Hb3;
      [|split; congruence].
    rewrite (bind_run _ _ _ _ _
               (write_games_run (list_of_games l2) w3 (proj1 H2))).
    unfold ret. destruct (games_txt_save (list_of_games l2) w3) as [Ht Hb].
    split; [exact H2|]. split; [exact Hb|]. rewrite Ht. congruence. }
  unfold ensures in H. split.
  - intros e w' Hrun. now rewrite Hrun in H.
  - intros l w' Hrun. rewrite Hrun in H. destruct H as (H1 & H2 & H3).
    split; [exact H1|]. split; [exact H2|]. split; [exact H3|].
    intros Hnone. rewrite Hnone in H3. cbn [flushed] in H3.
    split; [exact H3|].
    unfold release. cbn [games_txt]. rewrite H2, H3. apply overwrite_nil.
Qed.

End WithLib.

(** ** The theorems at work on the scripted library *)

Import Toy.

Ltac toy_legal :=
  eexists; eexists; repeat split; try reflexivity; vm_compute; auto.

Ltac toy_illegal :=
  split; [reflexivity|]; eexists; split; [reflexivity|];
  vm_compute; intuition discriminate.

Ltac toy_engine :=
  split; [reflexivity|]; split; [reflexivity|];
  eexists; repeat split; reflexivity.

Ltac toy_fields := vm_compute; repeat constructor.

(** Rewriting with the equation that a theorem gives for a pass. *)
Ltac pass_of T :=
  let H := fresh "Hpass" in
  pose proof T as H; cbv zeta in H; rewrite H; clear H.

Lemma error_is_reported_witness :
  effects
    (snd (@handle Toy.lib (tweet 101 "Bob" "@bot #Error captures Qxf7 #possiblemoves")
            (world0 two_games_txt)))
  = [ error_report (tweet 101 "Bob" "@bot #Error captures Qxf7 #possiblemoves");
      OpenGamesForWrite;
      WriteGames ("alice,f3 e5" ++ nl);
      WriteGames ("bob,e4 e5 Bc4 Nc6 Qh5 Nf6" ++ nl) ].
Proof.
  rewrite (@error_is_reported Toy.lib
             (tweet 101 "Bob" "@bot #Error captures Qxf7 #possiblemoves")
             (world0 two_games_txt)).
  - vm_compute. reflexivity.
  - reflexivity.
  - reflexivity.
  - toy_fields.
Defined.

Lemma stranger_is_told_to_start_witness :
  effects
    (snd (@handle Toy.lib (tweet 101 "carol" "@bot captures e4 #chess")
            (world0 two_games_txt)))
  = status (tweet 101 "carol" "@bot captures e4 #chess")
      " Include #startgame if you would like to start a game."
    :: save_effects (parse_games two_games_txt).
Proof.
  rewrite (@stranger_is_told_to_start Toy.lib
             (tweet 101 "carol" "@bot captures e4 #chess")
             (world0 two_games_txt)
             eq_refl eq_refl
             (no_matchb_spec "carol" (parse_games two_games_txt) eq_refl)
             ltac:(toy_fields)).
  reflexivity.
Defined.

Lemma possible_moves_are_posted_witness :
  exists moves,
    @possible_moves Toy.lib ["e4"; "e5"] = Ret moves
    /\ effects
         (snd (@handle Toy.lib (tweet 101 "Bob" "@bot #possiblemoves")
                 (world0 ("bob,e4 e5 " ++ nl))))
       = [ @image Toy.lib ["e4"; "e5"];
           media (tweet 101 "Bob" "@bot #possiblemoves")
             (" Here are all of the valid moves in this position: "
              ++ Codec.pgn_list_to_string moves);
           OpenGamesForWrite;
           WriteGames ("bob,e4 e5" ++ nl) ].
Proof.
  destruct (@possible_moves_are_posted Toy.lib
              (tweet 101 "Bob" "@bot #possiblemoves")
              (world0 ("bob,e4 e5 " ++ nl)) ["e4"; "e5"])
    as (moves & Hm & Hrun).
  - reflexivity.
  - reflexivity.
  - reflexivity.
  - toy_fields.
  - right. exists 0%nat, ["bob"; "e4 e5"], "e4 e5".
    split; [apply last_matchb_spec; reflexivity|].
    split; [reflexivity|]. split; reflexivity.
  - exists moves. split; [exact Hm|]. rewrite Hrun. reflexivity.
Defined.

Lemma history_is_posted_witness :
  effects
    (snd (@handle Toy.lib (tweet 101 "Bob" "@bot #getpgn")
            (world0 two_games_txt)))
  = status (tweet 101 "Bob" "@bot #getpgn") " e4 e5 Bc4 Nc6 Qh5 Nf6 "
    :: save_effects (parse_games two_games_txt).
Proof.
  destruct (@history_is_posted Toy.lib (tweet 101 "Bob" "@bot #getpgn")
              (world0 two_games_txt)) as [_ H].
  - reflexivity.
  - reflexivity.
  - reflexivity.
  - reflexivity.
  - toy_fields.
  - rewrite (H 1%nat ["bob"; "e4 e5 Bc4 Nc6 Qh5 Nf6"] "e4 e5 Bc4 Nc6 Qh5 Nf6").
    + reflexivity.
    + apply last_matchb_spec. reflexivity.
    + reflexivity.
    + reflexivity.
Defined.

Lemma move_is_answered_witness :
  effects
    (snd (@handle Toy.lib (tweet 101 "Bob" "@bot captures Bc4 #chess")
            (world0 ("bob,e4 e5 " ++ nl))))
  = [ EnginePopen;
      EnginePlay (@fen Toy.lib ["e4"; "e5"; "Bc4"]);
      @image Toy.lib ["e4"; "e5"; "Bc4"; "Nc6"];
      media (tweet 101 "Bob" "@bot captures Bc4 #chess") " Nc6";
      OsRemove "board.jpg";
      OpenGamesForWrite;
      WriteGames ("bob,e4 e5 Bc4 Nc6 " ++ nl) ].
Proof.
  pass_of (@move_is_answered Toy.lib (tweet 101 "Bob" "@bot captures Bc4 #chess")
             (world0 ("bob,e4 e5 " ++ nl)) 0 ["bob"; "e4 e5"] "e4 e5" "Nc6"
             ["e4"; "e5"; "Bc4"] ["e4"; "e5"; "Bc4"; "Nc6"]).
  - vm_compute. reflexivity.
  - reflexivity.
  - reflexivity.
  - toy_fields.
  - apply last_matchb_spec. reflexivity.
  - reflexivity.
  - reflexivity.
  - vm_compute. discriminate.
  - toy_legal.
  - reflexivity.
  - toy_engine.
  - reflexivity.
Defined.

Lemma engine_mates_witness :
  effects
    (snd (@handle Toy.lib (tweet 101 "Alice" "@bot captures g4 #chess")
            (world0 two_games_txt)))
  = ([ EnginePopen;
       EnginePlay (@fen Toy.lib ["f3"; "e5"; "g4"]);
       @image Toy.lib ["f3"; "e5"; "g4"; "Qh4#"];
       media (tweet 101 "Alice" "@bot captures g4 #chess") " Qh4#Checkmate!";
       OsRemove "board.jpg" ]
     ++ game_over_posts (tweet 101 "Alice" "@bot captures g4 #chess")
          "f3 e5 g4 Qh4# "
     ++ [ OpenGamesForWrite;
          WriteGames ("bob,e4 e5 Bc4 Nc6 Qh5 Nf6" ++ nl) ])%list
  /\ no_match "Alice" [["bob"; "e4 e5 Bc4 Nc6 Qh5 Nf6"]].
Proof.
  destruct (@engine_mates Toy.lib (tweet 101 "Alice" "@bot captures g4 #chess")
              (world0 two_games_txt) 0 ["alice"; "f3 e5"] "f3 e5" "Qh4#"
              ["f3"; "e5"; "g4"] ["f3"; "e5"; "g4"; "Qh4#"])
    as [Hrun Hno].
  - reflexivity.
  - reflexivity.
  - split; [toy_fields|]. unfold one_game_per_user. vm_compute.
    repeat constructor; cbn; intuition discriminate.
  - apply last_matchb_spec. reflexivity.
  - reflexivity.
  - reflexivity.
  - vm_compute. discriminate.
  - toy_legal.
  - reflexivity.
  - toy_engine.
  - reflexivity.
  - split; [rewrite Hrun; vm_compute; reflexivity | exact Hno].
Defined.

Lemma invalid_move_changes_no_game_witness :
  effects
    (snd (@handle Toy.lib (tweet 101 "Bob" "@bot captures Ke2 #chess")
            (world0 ("bob,e4 e5 " ++ nl))))
  = [ @image Toy.lib ["e4"; "e5"];
      media (tweet 101 "Bob" "@bot captures Ke2 #chess") invalid_reply;
      OsRemove "board.jpg";
      OpenGamesForWrite;
      WriteGames ("bob,e4 e5 " ++ nl) ].
Proof.
  destruct (@invalid_move_changes_no_game Toy.lib
              (tweet 101 "Bob" "@bot captures Ke2 #chess")
              (world0 ("bob,e4 e5 " ++ nl)) 0 ["bob"; "e4 e5"] "e4 e5"
              ["e4"; "e5"])
    as [Hrun _].
  - reflexivity.
  - reflexivity.
  - toy_fields.
  - apply last_matchb_spec. reflexivity.
  - reflexivity.
  - reflexivity.
  - vm_compute. discriminate.
  - vm_compute. discriminate.
  - toy_illegal.
  - rewrite Hrun. vm_compute. reflexivity.
Defined.

Lemma without_a_move_nothing_changes_witness :
  effects
    (snd (@handle Toy.lib (tweet 101 "Bob" "@bot good morning")
            (world0 ("bob,e4 e5 " ++ nl))))
  = [ @image Toy.lib ["e4"; "e5"];
      media (tweet 101 "Bob" "@bot good morning") " You need to make a move.";
      OsRemove "board.jpg";
      OpenGamesForWrite;
      WriteGames ("bob,e4 e5 " ++ nl) ].
Proof.
  destruct (@without_a_move_nothing_changes Toy.lib
              (tweet 101 "Bob" "@bot good morning")
              (world0 ("bob,e4 e5 " ++ nl)) 0 ["bob"; "e4 e5"] "e4 e5"
              ["e4"; "e5"])
    as [Hrun _].
  - reflexivity.
  - reflexivity.
  - toy_fields.
  - apply last_matchb_spec. reflexivity.
  - reflexivity.
  - reflexivity.
  - vm_compute. discriminate.
  - reflexivity.
  - reflexivity.
  - rewrite Hrun. vm_compute. reflexivity.
Defined.

Lemma game_started_with_a_move_witness :
  effects
    (snd (@handle Toy.lib (tweet 101 "carol" "@bot #startgame captures e4 #chess")
            (world0 ("bob,e4 e5 " ++ nl))))
  = [ EnginePopen;
      EnginePlay (@fen Toy.lib ["e4"]);
      @image Toy.lib ["e4"; "e5"];
      media (tweet 101 "carol" "@bot #startgame captures e4 #chess") " e5";
      OsRemove "board.jpg";
      OpenGamesForWrite;
      WriteGames ("bob,e4 e5" ++ nl);
      WriteGames ("carol,e4 e5 " ++ nl) ].
Proof.
  pass_of (@game_started_with_a_move Toy.lib
             (tweet 101 "carol" "@bot #startgame captures e4 #chess")
             (world0 ("bob,e4 e5 " ++ nl)) "e5" ["e4"] ["e4"; "e5"]).
  - vm_compute. reflexivity.
  - reflexivity.
  - reflexivity.
  - toy_fields.
  - apply no_matchb_spec. reflexivity.
  - vm_compute. discriminate.
  - toy_legal.
  - reflexivity.
  - toy_engine.
  - reflexivity.
Defined.

Lemma game_started_as_black_witness :
  effects
    (snd (@handle Toy.lib (tweet 101 "carol" "@bot #StartGame")
            (world0 ("bob,e4 e5 " ++ nl))))
  = [ EnginePopen;
      EnginePlay (@fen Toy.lib []);
      @image Toy.lib ["e4"];
      media (tweet 101 "carol" "@bot #StartGame") " e4";
      OsRemove "board.jpg";
      OpenGamesForWrite;
      WriteGames ("bob,e4 e5" ++ nl);
      WriteGames ("carol,e4 " ++ nl) ].
Proof.
  pass_of (@game_started_as_black Toy.lib (tweet 101 "carol" "@bot #StartGame")
             (world0 ("bob,e4 e5 " ++ nl)) "e4" ["e4"]).
  - vm_compute. reflexivity.
  - reflexivity.
  - reflexivity.
  - toy_fields.
  - apply no_matchb_spec. reflexivity.
  - reflexivity.
  - toy_engine.
Defined.

Lemma first_move_invalid_no_game_stored_witness :
  effects
    (snd (@handle Toy.lib (tweet 101 "carol" "@bot #startgame captures zz #chess")
            (world0 ("bob,e4 e5 " ++ nl))))
  = [ @image Toy.lib [];
      media (tweet 101 "carol" "@bot #startgame captures zz #chess")
        invalid_reply;
      OsRemove "board.jpg";
      OpenGamesForWrite;
      WriteGames ("bob,e4 e5" ++ nl) ].
Proof.
  pass_of (@first_move_invalid_no_game_stored Toy.lib
             (tweet 101 "carol" "@bot #startgame captures zz #chess")
             (world0 ("bob,e4 e5 " ++ nl))).
  - vm_compute. reflexivity.
  - reflexivity.
  - reflexivity.
  - toy_fields.
  - apply no_matchb_spec. reflexivity.
  - vm_compute. discriminate.
  - toy_illegal.
Defined.

Lemma game_started_again_witness :
  effects
    (snd (@handle Toy.lib (tweet 101 "Bob" "@bot #startgame captures e4 #chess")
            (world0 two_games_txt)))
  = [ EnginePopen;
      EnginePlay (@fen Toy.lib ["e4"]);
      @image Toy.lib ["e4"; "e5"];
      media (tweet 101 "Bob" "@bot #startgame captures e4 #chess") " e5";
      OsRemove "board.jpg";
      OpenGamesForWrite;
      WriteGames ("alice,f3 e5" ++ nl);
      WriteGames ("bob,e4 e5 " ++ nl) ].
Proof.
  pass_of (@game_started_again Toy.lib
             (tweet 101 "Bob" "@bot #startgame captures e4 #chess")
             (world0 two_games_txt) 1 ["bob"; "e4 e5 Bc4 Nc6 Qh5 Nf6"] "e5"
             ["e4"] ["e4"; "e5"]).
  - vm_compute. reflexivity.
  - reflexivity.
  - reflexivity.
  - toy_fields.
  - apply last_matchb_spec. reflexivity.
  - reflexivity.
  - vm_compute. discriminate.
  - toy_legal.
  - reflexivity.
  - toy_engine.
  - reflexivity.
Defined.

Lemma restart_with_invalid_move_drops_the_game_witness :
  effects
    (snd (@handle Toy.lib (tweet 101 "Bob" "@bot #startgame captures zz #chess")
            (world0 two_games_txt)))
  = [ @image Toy.lib [];
      media (tweet 101 "Bob" "@bot #startgame captures zz #chess") invalid_reply;
      OsRemove "board.jpg";
      OpenGamesForWrite;
      WriteGames ("alice,f3 e5" ++ nl) ]
  /\ no_match "Bob" [["alice"; "f3 e5"]].
Proof.
  destruct (@restart_with_invalid_move_drops_the_game Toy.lib
              (tweet 101 "Bob" "@bot #startgame captures zz #chess")
              (world0 two_games_txt) 1 ["bob"; "e4 e5 Bc4 Nc6 Qh5 Nf6"])
    as [Hrun Hno].
  - reflexivity.
  - reflexivity.
  - split; [toy_fields|]. unfold one_game_per_user. vm_compute.
    repeat constructor; cbn; intuition discriminate.
  - apply last_matchb_spec. reflexivity.
  - reflexivity.
  - vm_compute. discriminate.
  - toy_illegal.
  - split; [rewrite Hrun; vm_compute; reflexivity | exact Hno].
Defined.

Lemma unreadable_history_is_not_answered_witness :
  @handle Toy.lib (tweet 101 "Bob" "@bot captures e4 #chess")
    (world0 ("bob,e4 Ke2 " ++ nl))
  = (Exc ValueError, world0 ("bob,e4 Ke2 " ++ nl)).
Proof.
  apply (@unreadable_history_is_not_answered Toy.lib
           (tweet 101 "Bob" "@bot captures e4 #chess")
           (world0 ("bob,e4 Ke2 " ++ nl)) 0 ["bob"; "e4 Ke2"] "e4 Ke2"
           ValueError).
  - reflexivity.
  - reflexivity.
  - apply last_matchb_spec. reflexivity.
  - reflexivity.
  - reflexivity.
  - reflexivity.
Defined.

Lemma engine_failure_loses_the_move_witness :
  @handle Toy.lib (tweet 101 "Bob" "@bot captures Nf3 #chess")
    (world0 ("bob,e4 e5 " ++ nl))
  = (Exc EngineError,
     emit_all [EnginePopen; EnginePlay (@fen Toy.lib ["e4"; "e5"; "Nf3"])]
       (world0 ("bob,e4 e5 " ++ nl))).
Proof.
  apply (@engine_failure_loses_the_move Toy.lib
           (tweet 101 "Bob" "@bot captures Nf3 #chess")
           (world0 ("bob,e4 e5 " ++ nl)) 0 ["bob"; "e4 e5"] "e4 e5"
           ["e4"; "e5"; "Nf3"]).
  - reflexivity.
  - reflexivity.
  - apply last_matchb_spec. reflexivity.
  - reflexivity.
  - reflexivity.
  - vm_compute. discriminate.
  - toy_legal.
  - reflexivity.
  - reflexivity.
  - reflexivity.
Defined.

Lemma failed_pass_leaves_the_store_witness :
  games_txt
    (snd (@handle Toy.lib (tweet 101 "Bob" "@bot captures Bc4 #chess")
            (world0 ("bob,e4 e5 " ++ nl))))
  = ""
  /\ games_txt
       (release
          (snd (@handle Toy.lib (tweet 101 "Bob" "@bot captures Bc4 #chess")
                  (world0 ("bob,e4 e5 " ++ nl)))))
     = "bob,e4 e5 Bc4 Nc6 " ++ nl.
Proof.
  destruct (@failed_pass_leaves_the_store Toy.lib
              (tweet 101 "Bob" "@bot captures Bc4 #chess")
              (world0 ("bob,e4 e5 " ++ nl)))
    as [_ Hret].
  - split; [toy_fields|]. unfold one_game_per_user. vm_compute.
    repeat constructor; cbn; intuition discriminate.
  - destruct (@handle Toy.lib (tweet 101 "Bob" "@bot captures Bc4 #chess")
                (world0 ("bob,e4 e5 " ++ nl))) as [[l|e] w'] eqn:E.
    + destruct (Hret l w' eq_refl) as (_ & _ & _ & Hfirst).
      destruct (Hfirst eq_refl) as [Hfile Hend]. cbn [snd].
      split; [exact Hfile|]. rewrite Hend.
      vm_compute in E. injection E as <- _. reflexivity.
    + vm_compute in E. discriminate E.
Defined.

End TurnFacts.

(* ===================================================================== *)
(** * The cursor file and the turns of the loop *)
(* ===================================================================== *)

Module LoopFacts.
Import Bot Laws Loop PyFacts EffectFacts CursorFacts FileFacts.

(** ** The cursor file *)

Lemma int_digits_step (c : ascii) (s : string) (acc d : Z) (b : bool) :
  Ascii.eqb c "_" = false -> digit_of c = Some d ->
  int_digits (String c s) acc b = int_digits s (10 * acc + d) true.
Proof. intros H1 H2. cbn [int_digits]. now rewrite H1, H2. Qed.

Ltac digit_step d IH :=
  cbn [DecimalString.NilEmpty.string_of_uint Pos.of_uint_acc Pos.of_uint];
  rewrite (int_digits_step _ _ _ d) by reflexivity;
  first [ rewrite <- IH; f_equal; lia | apply IH ].

Lemma int_digits_acc (d : Decimal.uint) (p : positive) :
  int_digits (DecimalString.NilEmpty.string_of_uint d) (Z.pos p) true
  = Some (Z.pos (Pos.of_uint_acc d p)).
Proof.
  revert p. induction d; intros p.
  - reflexivity.
  - digit_step 0%Z IHd.
  - digit_step 1%Z IHd.
  - digit_step 2%Z IHd.
  - digit_step 3%Z IHd.
  - digit_step 4%Z IHd.
  - digit_step 5%Z IHd.
  - digit_step 6%Z IHd.
  - digit_step 7%Z IHd.
  - digit_step 8%Z IHd.
  - digit_step 9%Z IHd.
Qed.

Lemma int_digits_uint (d : Decimal.uint) :
  forall after_digit,
    (d <> Decimal.Nil \/ after_digit = true) ->
    int_digits (DecimalString.NilEmpty.string_of_uint d) 0 after_digit
    = Some (Z.of_N (Pos.of_uint d)).
Proof.
  induction d; intros after_digit H.
  - destruct H as [H | ->]; [congruence | reflexivity].
  - cbn [DecimalString.NilEmpty.string_of_uint Pos.of_uint].
    rewrite (int_digits_step _ _ _ 0%Z) by reflexivity.
    apply IHd. now right.
  - digit_step 1%Z (int_digits_acc d 1).
  - digit_step 2%Z (int_digits_acc d 2).
  - digit_step 3%Z (int_digits_acc d 3).
  - digit_step 4%Z (int_digits_acc d 4).
  - digit_step 5%Z (int_digits_acc d 5).
  - digit_step 6%Z (int_digits_acc d 6).
  - digit_step 7%Z (int_digits_acc d 7).
  - digit_step 8%Z (int_digits_acc d 8).
  - digit_step 9%Z (int_digits_acc d 9).
Qed.

Lemma digits_of_uint (d : Decimal.uint) :
  all_chars is_digit (DecimalString.NilEmpty.string_of_uint d) = true.
Proof. induction d; cbn; auto. Qed.

Lemma int_digits_pos (p : positive) :
  int_digits (DecimalString.NilZero.string_of_uint (Pos.to_uint p)) 0 false
  = Some (Z.pos p)
  /\ DecimalString.NilZero.string_of_uint (Pos.to_uint p)
     = DecimalString.NilEmpty.string_of_uint (Pos.to_uint p).
Proof.
  pose proof (DecimalPos.Unsigned.to_uint_nonnil p) as Hne.
  assert (E : DecimalString.NilZero.string_of_uint (Pos.to_uint p)
              = DecimalString.NilEmpty.string_of_uint (Pos.to_uint p)).
  { unfold DecimalString.NilZero.string_of_uint.
    destruct (Pos.to_uint p); [congruence | reflexivity ..]. }
  split; [|exact E].
  rewrite E, int_digits_uint by (now left).
  now rewrite DecimalPos.Unsigned.of_to.
Qed.

Lemma digit_not_space (c : ascii) : is_digit c = true -> not_space c = true.
Proof.
  unfold is_digit, digit_of, not_space. intros Hc.
  destruct ((48 <=? nat_of_ascii c)%nat && (nat_of_ascii c <=? 57)%nat) eqn:E;
    [|discriminate].
  apply andb_true_iff in E as [E1 E2].
  apply Nat.leb_le in E1. apply Nat.leb_le in E2.
  unfold Py.isspace. apply negb_true_iff.
  repeat (apply orb_false_iff; split);
    try (apply andb_false_iff);
    try (apply Nat.eqb_neq; lia).
  - right. apply Nat.leb_gt. lia.
  - right. apply Nat.leb_gt. lia.
Qed.

Lemma rstrip_not_space (s : string) :
  all_chars not_space s = true -> Py.rstrip s = s.
Proof.
  induction s as [|c s IH]; [reflexivity|]. cbn [all_chars].
  intros H. apply andb_true_iff in H as [Hc Hs].
  unfold not_space in Hc. apply negb_true_iff in Hc.
  rewrite rstrip_cons_nonspace by exact Hc. now rewrite IH.
Qed.

(** White space around a text without white space goes, the text
    stays. *)
Lemma strip_around (before x after : string) :
  x <> "" -> all_chars not_space x = true ->
  is_space_string before = true -> is_space_string after = true ->
  Py.strip (before ++ x ++ after) = x.
Proof.
  intros Hne Hx Hb Ha. rewrite <- app_assoc.
  rewrite strip_app_spaces by exact Ha.
  destruct x as [|c r]; [congruence|]. unfold Py.strip.
  cbn [all_chars] in Hx. pose proof Hx as Hx'.
  apply andb_true_iff in Hx as [Hc _].
  unfold not_space in Hc. apply negb_true_iff in Hc.
  rewrite lstrip_app_nonspace by exact Hc.
  rewrite lstrip_spaces by exact Hb. cbn [append].
  now apply rstrip_not_space.
Qed.

Lemma strip_not_space (x : string) :
  all_chars not_space x = true -> Py.strip x = x.
Proof.
  intros Hx. destruct x as [|c r]; [reflexivity|].
  pose proof (strip_around "" (String c r) "") as H.
  cbn [append] in H. rewrite app_nil_r in H.
  apply H; auto. discriminate.
Qed.

Lemma stored_text_shape (i : Z) :
  stored_text i <> ""
  /\ all_chars not_space (stored_text i) = true
  /\ int_of_str (stored_text i) = Ret i.
Proof.
  assert (Hd : forall p,
             let t := DecimalString.NilZero.string_of_uint (Pos.to_uint p) in
             t <> "" /\ all_chars is_digit t = true).
  { intros p. cbv zeta. destruct (int_digits_pos p) as [Hv ->].
    split; [|apply digits_of_uint].
    pose proof (DecimalPos.Unsigned.to_uint_nonnil p).
    destruct (Pos.to_uint p); cbn; congruence. }
  assert (Hs : forall t, all_chars is_digit t = true ->
               all_chars not_space t = true).
  { intros t. apply all_chars_impl, digit_not_space. }
  unfold stored_text, Py.str_int. destruct i as [|p|p].
  - repeat split. discriminate.
  - cbn [Z.to_int DecimalString.NilZero.string_of_int].
    destruct (Hd p) as [Hne Hdig]. destruct (int_digits_pos p) as [Hv _].
    split; [exact Hne|]. split; [now apply Hs|].
    unfold int_of_str.
    rewrite strip_not_space by (now apply Hs).
    destruct (DecimalString.NilZero.string_of_uint (Pos.to_uint p)) as [|c r];
      [congruence|].
    cbn [all_chars] in Hdig. apply andb_true_iff in Hdig as [Hc _].
    assert (Hm : Ascii.eqb c "-" = false).
    { destruct (Ascii.eqb c "-") eqn:E; [|reflexivity].
      apply Ascii.eqb_eq in E. subst c. discriminate. }
    assert (Hp : Ascii.eqb c "+" = false).
    { destruct (Ascii.eqb c "+") eqn:E; [|reflexivity].
      apply Ascii.eqb_eq in E. subst c. discriminate. }
    rewrite Hm, Hp, Hv. reflexivity.
  - cbn [Z.to_int DecimalString.NilZero.string_of_int].
    destruct (Hd p) as [Hne Hdig]. destruct (int_digits_pos p) as [Hv _].
    split; [discriminate|]. split; [cbn [all_chars]; now rewrite Hs|].
    unfold int_of_str.
    rewrite strip_not_space by (cbn [all_chars]; now rewrite Hs).
    cbn [Ascii.eqb Bool.eqb]. rewrite Hv. reflexivity.
Qed.

(** X27. What [store_last_seen_id] writes, [retrieve_last_seen_id]
    reads back: for every integer, the decimal text written to the
    cursor file is read as that integer, also when white space, such as a
    newline at the end, stands before or after it. *)
Theorem cursor_is_read_back (last_seen_id : Z) :
  retrieve_last_seen_id (stored_text last_seen_id) = Ret last_seen_id
  /\ forall before after,
       is_space_string before = true -> is_space_string after = true ->
       retrieve_last_seen_id (before ++ stored_text last_seen_id ++ after)
       = Ret last_seen_id.
Proof.
  destruct (stored_text_shape last_seen_id) as (Hne & Hns & Hint).
  assert (H : forall before after,
             is_space_string before = true -> is_space_string after = true ->
             retrieve_last_seen_id (before ++ stored_text last_seen_id ++ after)
             = Ret last_seen_id).
  { intros before after Hb Ha. unfold retrieve_last_seen_id.
    rewrite strip_around by assumption. exact Hint. }
  split; [|exact H].
  specialize (H "" "" eq_refl eq_refl). cbn [append] in H.
  now rewrite app_nil_r in H.
Qed.

(** X28. A cursor file that is empty, or holds white space only,
    makes [retrieve_last_seen_id] raise [ValueError]. *)
Theorem blank_cursor_file_raises (file_text : string) :
  is_space_string file_text = true ->
  retrieve_last_seen_id file_text = Exc ValueError.
Proof.
  intros H. unfold retrieve_last_seen_id.
  assert (E : Py.strip file_text = "")
    by (unfold Py.strip; now rewrite lstrip_spaces).
  rewrite E. reflexivity.
Qed.

Lemma blank_cursor_file_raises_witness :
  retrieve_last_seen_id (String "010" "") = Exc ValueError.
Proof. apply blank_cursor_file_raises. reflexivity. Defined.

(** ** The turns of the loop *)

Lemma last_app_chain {A} (l1 l2 : list A) (a : A) :
  last (l1 ++ l2) a = last l2 (last l1 a).
Proof.
  induction l1 as [|b l1 IH]; [reflexivity|].
  destruct l1 as [|c l1'].
  - destruct l2 as [|d l2']; [reflexivity|]. cbn [app].
    change (last (b :: d :: l2') a) with (last (d :: l2') a).
    apply last_cons_default.
  - change (last ((b :: c :: l1') ++ l2) a) with (last ((c :: l1') ++ l2) a).
    change (last (b :: c :: l1') a) with (last (c :: l1') a). exact IH.
Qed.

Lemma sorted_chain (l1 l2 : list Z) :
  forall a,
    StronglySorted Z.lt (a :: l1) ->
    StronglySorted Z.lt (last l1 a :: l2) ->
    StronglySorted Z.lt (a :: l1 ++ l2).
Proof.
  induction l1 as [|b l1 IH]; intros a H1 H2; [exact H2|].
  apply StronglySorted_inv in H1 as [Hs Hf].
  assert (Hlast : last (b :: l1) a = last l1 b).
  { destruct l1 as [|c l1']; [reflexivity|].
    change (last (b :: c :: l1') a) with (last (c :: l1') a).
    apply last_cons_default. }
  rewrite Hlast in H2. specialize (IH b Hs H2).
  cbn [app]. constructor; [exact IH|].
  inversion Hf as [|? ? Hab Hrest]; subst.
  constructor; [exact Hab|].
  apply StronglySorted_inv in IH as [_ Hb].
  revert Hb. apply Forall_impl. intros; lia.
Qed.

Lemma sorted_NoDup (l : list Z) : StronglySorted Z.lt l -> NoDup l.
Proof.
  induction 1 as [|a l Hs IH Hf]; constructor; [|exact IH].
  intros Hin. rewrite Forall_forall in Hf. specialize (Hf a Hin). lia.
Qed.

Section WithLib.
Context {lib : ChessLib}.

Lemma main_cursor (mentions_timeline : Z -> list mention) (w : world) :
  newer_than_cursor mentions_timeline ->
  exists es,
    effects (snd (main mentions_timeline w)) = (effects w ++ es)%list
    /\ StronglySorted Z.lt (last_seen_id_txt w :: cursor_writes es)
    /\ last_seen_id_txt (snd (main mentions_timeline w))
       = last (cursor_writes es) (last_seen_id_txt w).
Proof.
  intros Hnew. unfold main, main_statements, bind, read_last_seen.
  cbn [snd release effects last_seen_id_txt].
  destruct (for_each_body (rev (mentions_timeline (last_seen_id_txt w))) w)
    as (blocks & rest & Hms & _ & Heff & Hq & Hlast).
  exists (blocks_effects blocks). split; [exact Heff|].
  rewrite cursor_writes_blocks by exact Hq. split.
  - specialize (Hnew (last_seen_id_txt w)). rewrite Hms, map_app in Hnew.
    apply (strongly_sorted_prefix _ _ (map id rest)). exact Hnew.
  - rewrite Hlast, map_map. reflexivity.
Qed.

Lemma cycle_cursor (mentions_timeline : Z -> list mention) (w : world) :
  newer_than_cursor mentions_timeline ->
  fst (cycle mentions_timeline w) = Ret tt
  /\ exists es,
       effects (snd (cycle mentions_timeline w)) = (effects w ++ es)%list
       /\ StronglySorted Z.lt (last_seen_id_txt w :: cursor_writes es)
       /\ last_seen_id_txt (snd (cycle mentions_timeline w))
          = last (cursor_writes es) (last_seen_id_txt w).
Proof.
  intros Hnew. split; [reflexivity|].
  destruct (main_cursor mentions_timeline w Hnew) as (es & Heff & Hs & Hlast).
  exists (es ++ [Sleep 120])%list. unfold cycle, perform. cbn [snd].
  cbn [apply_event effects last_seen_id_txt].
  rewrite Heff, cursor_writes_app. cbn [cursor_writes].
  rewrite List.app_nil_r, <- List.app_assoc. auto.
Qed.

(** X29. Over any number of turns of the loop that calls [main], no
    mention is handled twice.  When the platform gives, at each turn,
    mentions newer than the cursor it is asked for, newest first, the
    turns all return, whatever a pass raised; the identifiers written to
    the cursor file, one at the start of the handling of each mention,
    increase strictly from the cursor at the start, so that none occurs
    twice; and the cursor file holds the last of them at the end. *)
Theorem no_mention_is_handled_twice
    (timelines : list (Z -> list mention)) (w : world) :
  Forall newer_than_cursor timelines ->
  fst (cycles timelines w) = Ret tt
  /\ exists es,
       effects (snd (cycles timelines w)) = (effects w ++ es)%list
       /\ StronglySorted Z.lt (last_seen_id_txt w :: cursor_writes es)
       /\ NoDup (cursor_writes es)
       /\ last_seen_id_txt (snd (cycles timelines w))
          = last (cursor_writes es) (last_seen_id_txt w).
Proof.
  intros H. revert w. induction H as [|t rest Ht Hrest IH]; intros w.
  - split; [reflexivity|]. exists []. cbn. rewrite List.app_nil_r.
    repeat split; repeat constructor.
  - destruct (cycle_cursor t w Ht) as (Hret & es1 & Heff1 & Hs1 & Hl1).
    assert (Hstep : cycles (t :: rest) w = cycles rest (snd (cycle t w))).
    { cbn [cycles]. unfold bind.
      destruct (cycle t w) as [[[]|e] w1]; cbn in *; [reflexivity | discriminate]. }
    rewrite Hstep.
    destruct (IH (snd (cycle t w))) as (Hret2 & es2 & Heff2 & Hs2 & _ & Hl2).
    split; [exact Hret2|]. exists (es1 ++ es2)%list.
    rewrite Heff2, Heff1, cursor_writes_app, <- List.app_assoc.
    rewrite Hl1 in Hs2, Hl2.
    assert (Hsorted : StronglySorted Z.lt
                        (last_seen_id_txt w
                         :: cursor_writes es1 ++ cursor_writes es2))
      by (now apply sorted_chain).
    repeat split; trivial.
    + apply StronglySorted_inv in Hsorted as [Hsorted _].
      now apply sorted_NoDup.
    + now rewrite last_app_chain.
Qed.

End WithLib.

(** The platform that filters on the cursor keeps its promise when it
    holds the mentions newest first. *)
Lemma platform_newer (held : list mention) :
  StronglySorted Z.lt (map id (rev held)) ->
  newer_than_cursor (platform held).
Proof.
  intros Hs since. unfold platform.
  assert (Hrev : forall l : list mention,
             rev (filter (fun m => (since <? id m)%Z) l)
             = filter (fun m => (since <? id m)%Z) (rev l)).
  { induction l as [|a l IHl]; [reflexivity|]. cbn [filter rev].
    rewrite filter_app. cbn [filter].
    destruct (since <? id a)%Z; cbn [rev]; rewrite IHl;
      [reflexivity | now rewrite List.app_nil_r]. }
  rewrite Hrev. clear Hrev.
  induction (rev held) as [|a l IHl]; [repeat constructor|].
  cbn [map] in Hs. apply StronglySorted_inv in Hs as [Hs Hf].
  specialize (IHl Hs). cbn [filter].
  destruct (since <? id a)%Z eqn:E; [|exact IHl].
  apply Z.ltb_lt in E. cbn [map].
  apply StronglySorted_inv in IHl as [IHs IHf].
  constructor.
  - constructor; [exact IHs|].
    apply Forall_forall. intros x Hx. rewrite Forall_forall in Hf. apply Hf.
    apply in_map_iff in Hx as (m & <- & Hm). apply filter_In in Hm as [Hm _].
    now apply in_map.
  - constructor; [exact E | exact IHf].
Qed.

Lemma no_mention_is_handled_twice_witness :
  exists es,
    effects (snd (@cycles Toy.lib
                    [platform (Toy.two_mentions 0); platform (Toy.two_mentions 0)]
                    (Toy.world0 "")))
    = es
    /\ NoDup (cursor_writes es).
Proof.
  destruct (@no_mention_is_handled_twice Toy.lib
              [platform (Toy.two_mentions 0); platform (Toy.two_mentions 0)]
              (Toy.world0 ""))
    as (_ & es & Heff & _ & Hnd & _).
  - constructor; [|constructor; [|constructor]];
      apply platform_newer; cbn; repeat constructor.
  - exists es. split; [exact Heff | exact Hnd].
Defined.

Example two_turns_on_the_same_mentions :
  cursor_writes
    (effects (snd (@cycles Toy.lib
                     [platform (Toy.two_mentions 0); platform (Toy.two_mentions 0)]
                     (Toy.world0 ""))))
  = [102%Z; 103%Z].
Proof. vm_compute. reflexivity. Qed.

End LoopFacts.
